(** * Arachnid: a shallow embedding of the cryo-EM toolkit

    The development follows the layout of the Python sources:

    - [Py]           : the few Python/numpy conventions the code relies on
                       (slices, exceptions), with facts about slices in
                       [PySlices];
    - [AlignFrames]  : [arachnid/app/align_frames.py];
    - [DiffClean]    : [arachnid/app/diffclean.py];
    - [Estimate2D]   : [arachnid/core/image/ctf/estimate2d.py];
    - [EmanFormat]   : [arachnid/core/image/formats/eman_format.py];
    - [ImageViewer]  : [arachnid/core/gui/ImageViewer.py].

    Floating-point quantities are modelled by exact rationals ([Q]); integer
    quantities by [Z] or [nat].  Calls into libraries that are not part of
    the repository (numpy's least-squares solver, scipy's chi-squared
    quantile, EMAN2's native image I/O, Qt widgets) are parameters of the
    definitions that use them. *)

From Stdlib Require Import ZArith QArith Lqa Lia List Bool.
From Stdlib.Strings Require Import Byte.
From stdpp Require Import base option list sorting gmap strings.

Local Open Scope Z_scope.

(* ===================================================================== *)
(** * Python conventions *)
(* ===================================================================== *)

Module Py.

(** The exceptions the modelled code raises or lets escape. *)
Inductive exn : Type :=
| ValueError
| IOError
| TypeError
| IndexError
| ZeroDivisionError
| OverflowError.

(** The outcome of a call that may raise. *)
Inductive result (A : Type) : Type :=
| Ok (a : A)
| Raise (e : exn).

Arguments Ok {A} a.
Arguments Raise {A} e.

Definition bind {A B : Type} (r : result A) (k : A -> result B) : result B :=
  match r with
  | Ok a => k a
  | Raise e => Raise e
  end.

(** [norm_index len i] is where a slice bound [i] lands in a sequence of
    length [len]: a negative bound counts from the end, and the outcome is
    clipped to [0 .. len]. *)
Definition norm_index (len i : Z) : Z :=
  if i <? 0 then Z.max 0 (len + i) else Z.min i len.

(** [slice l a b] is Python's [l[a:b]] (step 1). *)
Definition slice {A : Type} (l : list A) (a b : Z) : list A :=
  let len := Z.of_nat (length l) in
  let lo := norm_index len a in
  let hi := norm_index len b in
  take (Z.to_nat (hi - lo)) (drop (Z.to_nat lo) l).

(** ** Floats, as exact rationals *)

(** [a < b]. *)
Definition Qltb (a b : Q) : bool := negb (Qle_bool b a).

(** [a / b]: a zero divisor raises. *)
Definition py_div (a b : Q) : result Q :=
  if Qeq_bool b 0 then Raise ZeroDivisionError else Ok (a / b)%Q.

(** The two-argument [max] and [min]: the first argument is kept unless
    the second is strictly larger (smaller). *)
Definition py_max (a b : Q) : Q := if Qltb a b then b else a.
Definition py_min (a b : Q) : Q := if Qltb b a then b else a.

(** [int(q)]: truncation towards zero. *)
Definition py_int (q : Q) : Z := Z.quot (Qnum q) (Zpos (Qden q)).

Lemma Qltb_lt (a b : Q) : Qltb a b = true <-> (a < b)%Q.
Proof.
  unfold Qltb. rewrite negb_true_iff. split.
  - intros Hf. apply Qnot_le_lt. intros Hle.
    apply Qle_bool_iff in Hle. congruence.
  - intros Hlt. destruct (Qle_bool b a) eqn:E; [|reflexivity].
    apply Qle_bool_iff in E. lra.
Qed.

Lemma Qltb_ge (a b : Q) : Qltb a b = false <-> (b <= a)%Q.
Proof.
  rewrite <- not_true_iff_false, Qltb_lt. split; [apply Qnot_lt_le | lra].
Qed.

Lemma py_div_ok (a b : Q) : ~ (b == 0)%Q -> py_div a b = Ok (a / b)%Q.
Proof.
  intros Hb. unfold py_div. destruct (Qeq_bool b 0) eqn:E; [|reflexivity].
  apply Qeq_bool_iff in E. contradiction.
Qed.

Lemma py_div_zero (a b : Q) : (b == 0)%Q -> py_div a b = Raise ZeroDivisionError.
Proof.
  intros Hb. unfold py_div. apply Qeq_bool_iff in Hb. rewrite Hb. reflexivity.
Qed.

(** Case analysis on a float comparison. *)
Ltac case_Qltb a b :=
  let E := fresh "E" in
  destruct (Qltb a b) eqn:E;
  [apply Qltb_lt in E | apply Qltb_ge in E].

End Py.

(** ** Facts about slices *)

Module PySlices.

Import Py.

(** A slice with non-negative bounds is a [take] of a [drop]. *)
Lemma slice_nonneg {A : Type} (l : list A) (a b : Z) :
  0 <= a -> a <= b ->
  slice l a b = take (Z.to_nat b - Z.to_nat a) (drop (Z.to_nat a) l).
Proof.
  intros Ha Hab. unfold slice, norm_index.
  destruct (Z.ltb_spec a 0); [lia|]. destruct (Z.ltb_spec b 0); [lia|].
  set (len := Z.of_nat (length l)).
  destruct (Z.le_gt_cases len a) as [Hbig | Hsmall].
  - rewrite !(drop_ge l) by (subst len; lia). rewrite !take_nil. reflexivity.
  - replace (Z.min a len) with a by lia.
    destruct (Z.le_gt_cases b len) as [Hb | Hb].
    + replace (Z.min b len) with b by lia. f_equal. lia.
    + replace (Z.min b len) with len by lia.
      rewrite !take_ge; [reflexivity | |]; rewrite length_drop; subst len; lia.
Qed.

Lemma slice_all {A : Type} (l : list A) : slice l 0 (Z.of_nat (length l)) = l.
Proof.
  rewrite slice_nonneg by lia. cbn [Z.to_nat drop]. apply take_ge. lia.
Qed.

Lemma slice_inside_length {A : Type} (l : list A) (a b : Z) :
  0 <= a -> a <= b -> b <= Z.of_nat (length l) ->
  length (slice l a b) = Z.to_nat (b - a).
Proof.
  intros Ha Hab Hb. rewrite slice_nonneg by lia.
  rewrite length_take, length_drop. lia.
Qed.

Lemma slice_inside_lookup {A : Type} (l : list A) (a b : Z) (i : nat) :
  0 <= a -> a <= b -> Z.of_nat i < b - a ->
  slice l a b !! i = l !! (Z.to_nat a + i)%nat.
Proof.
  intros Ha Hab Hi. rewrite slice_nonneg by lia.
  rewrite lookup_take_lt by lia. apply lookup_drop.
Qed.

End PySlices.

(* ===================================================================== *)
(** * Movie frame alignment: [arachnid/app/align_frames.py] *)
(* ===================================================================== *)

Module AlignFrames.

(** ** [get_window] *)

(** An image enters [get_window] only through [avg.shape], kept here as
    (rows, columns): [shape[0]] is the height and [shape[1]] the width. *)
Definition shape : Type := (Z * Z)%type.

Definition get_window (avg : shape) (crop : list Z) : Z * Z * Z * Z :=
  let x := 0 in
  let y := 0 in
  let w := -1 in
  let h := -1 in
  let x := if (0 <? length crop)%nat then crop !!! 0%nat else x in
  let y := if (1 <? length crop)%nat then crop !!! 1%nat else y in
  let w := if (2 <? length crop)%nat then crop !!! 2%nat else w in
  let h := if (3 <? length crop)%nat then crop !!! 3%nat else h in
  let w := if w =? -1 then avg.2 else w in
  let h := if h =? -1 then avg.1 else h in
  (x, y, w, h).

(** *** Properties of [get_window] *)

Lemma get_window_empty (avg : shape) :
  get_window avg [] = (0, 0, avg.2, avg.1).
Proof. reflexivity. Qed.

Lemma get_window_xy (avg : shape) (x y : Z) :
  get_window avg [x; y] = (x, y, avg.2, avg.1).
Proof. reflexivity. Qed.

(** With four entries the width and height are the given ones, except that
    the value [-1] is the function's own marker for "not given". *)
Lemma get_window_four (avg : shape) (x y w h : Z) :
  get_window avg [x; y; w; h] =
  (x, y, if w =? -1 then avg.2 else w, if h =? -1 then avg.1 else h).
Proof. reflexivity. Qed.

(** C7 (as stated, refuted): a four-entry crop list is not always returned
    verbatim.  On a 10-row, 20-column image the crop [[0; 0; -1; 7]] comes
    back as [(0, 0, 20, 7)]: the width [-1] is read as "full width". *)
Lemma get_window_four_not_verbatim :
  get_window (10, 20) [0; 0; -1; 7] = (0, 0, 20, 7) /\
  get_window (10, 20) [0; 0; -1; 7] <> (0, 0, -1, 7).
Proof. split; [reflexivity | discriminate]. Qed.

(** C7 (amended): an empty crop list gives [(0, 0, width, height)], a crop
    list [[x; y]] gives [(x, y, width, height)], and a four-entry crop list
    whose width and height entries both differ from [-1] is returned
    verbatim. *)
Theorem get_window_crop_bounds (avg : shape) (x y w h : Z) :
  w <> -1 -> h <> -1 ->
  get_window avg [] = (0, 0, avg.2, avg.1) /\
  get_window avg [x; y] = (x, y, avg.2, avg.1) /\
  get_window avg [x; y; w; h] = (x, y, w, h).
Proof.
  intros Hw Hh. split; [reflexivity|]. split; [reflexivity|].
  rewrite get_window_four.
  destruct (Z.eqb_spec w (-1)); [contradiction|].
  destruct (Z.eqb_spec h (-1)); [contradiction|].
  reflexivity.
Qed.

Lemma get_window_crop_bounds_witness :
  get_window (10, 20) [] = (0, 0, 20, 10) /\
  get_window (10, 20) [3; 4] = (3, 4, 20, 10) /\
  get_window (10, 20) [3; 4; 5; 6] = (3, 4, 5, 6).
Proof. apply (get_window_crop_bounds (10, 20) 3 4 5 6); lia. Defined.

(** ** [align_l2] *)

(** A dense matrix as numpy holds it: its column count (kept apart because a
    matrix may have no row) and its rows. *)
Record matrix : Type := Matrix { ncols : nat; rows : list (list Q) }.

(** A translation, or a measured shift: the pair (x, y). *)
Definition vec2 : Type := (Q * Q)%type.

Section L2.

Local Open Scope Q_scope.

(** The frame pairs: [for i in xrange(n-1): for j in xrange(i+gap, n)].
    The option [gap] is a frame distance and is taken non-negative. *)
Definition frame_pairs (n gap : nat) : list (nat * nat) :=
  flat_map (fun i => map (fun j => (i, j)) (seq (i + gap) (n - (i + gap))))
           (seq 0 (n - 1)).

(** [A[i, p[0]:p[1]] = 1] on a row of zeros. *)
Definition design_row (width : nat) (p : nat * nat) : list Q :=
  map (fun k => if ((p.1 <=? k) && (k <? p.2))%nat then 1 else 0) (seq 0 width).

Definition design_matrix (n : nat) (pairs : list (nat * nat)) : matrix :=
  Matrix (n - 1) (map (design_row (n - 1)) pairs).

Definition sumQ (l : list Q) : Q := fold_right Qplus 0 l.

Definition dot (r x : list Q) : Q := sumQ (zip_with Qmult r x).

(** The squared residual [|A x - b|^2] of one right-hand-side column. *)
Fixpoint residual (A : list (list Q)) (b x : list Q) : Q :=
  match A, b with
  | r :: A', bi :: b' => (dot r x - bi) * (dot r x - bi) + residual A' b' x
  | _, _ => 0
  end.

Definition norm2 (x : list Q) : Q := dot x x.

(** What [numpy.linalg.lstsq(A, b)[0]] is for one column of [b]: a vector
    with one entry per column of [A] that minimises the residual, and of
    least norm among the minimisers. *)
Definition lstsq_column (A : matrix) (b x : list Q) : Prop :=
  length x = ncols A /\
  (forall y, length y = ncols A -> residual (rows A) b x <= residual (rows A) b y) /\
  (forall y, length y = ncols A ->
     residual (rows A) b y == residual (rows A) b x -> norm2 x <= norm2 y).

(** [lstsq] solves every column of [b] against the same [A]. *)
Definition is_lstsq (A : matrix) (b x : list vec2) : Prop :=
  lstsq_column A (map fst b) (map fst x) /\
  lstsq_column A (map snd b) (map snd x).

(** [numpy.cumsum(axis=0)] on a two-column array. *)
Fixpoint cumsum_from (acc : vec2) (x : list vec2) : list vec2 :=
  match x with
  | [] => []
  | d :: x' =>
      let acc' := (acc.1 + d.1, acc.2 + d.2) in
      acc' :: cumsum_from acc' x'
  end.

Definition cumsum (x : list vec2) : list vec2 := cumsum_from (0, 0) x.

(** The Fourier-domain frames are opaque; the code only hands them to the
    cross-correlation primitive and to the low-pass kernel. *)
Context {frame : Type} `{Inhabited frame}.

(** [alignment.xcorr_dft_peak(f, g, upsampling, search_radius)[:2]]:
    the (y, x) offset of the correlation peak. *)
Variable xcorr_dft_peak : frame -> frame -> nat -> nat -> Q * Q.

(** [frame * filter_kernel], the kernel being the Gaussian low-pass built
    from [lowpass_sigma], or [1.0] when there is none. *)
Variable apply_kernel : option Q -> frame -> frame.

(** [numpy.linalg.lstsq(A, b)[0]]. *)
Variable lstsq : matrix -> list vec2 -> list vec2.

(** One row of [b]: [b[i, 1], b[i, 0] = xcorr_dft_peak(...)[:2]]. *)
Definition measured_shift (fourier_frames : list frame) (upsampling search_radius : nat)
    (lowpass_sigma : option Q) (p : nat * nat) : vec2 :=
  let yx := xcorr_dft_peak (apply_kernel lowpass_sigma (fourier_frames !!! p.1))
                           (fourier_frames !!! p.2) upsampling search_radius in
  (yx.2, yx.1).

(** The system [A x = b] that [align_l2] hands to [lstsq]. *)
Definition l2_system (fourier_frames : list frame) (upsampling search_radius : nat)
    (lowpass_sigma : option Q) (gap : nat) : matrix * list vec2 :=
  let n := length fourier_frames in
  let pairs := frame_pairs n gap in
  (design_matrix n pairs,
   map (measured_shift fourier_frames upsampling search_radius lowpass_sigma) pairs).

(** [align_l2].  With no frame at all, building the low-pass kernel fails
    on [fourier_frames[0]] when [lowpass_sigma] is given, and otherwise
    [numpy.zeros((0, -1))] raises. *)
Definition align_l2 (fourier_frames : list frame) (upsampling search_radius : nat)
    (lowpass_sigma : option Q) (gap : nat) : Py.result (list vec2) :=
  match fourier_frames with
  | [] => Py.Raise (match lowpass_sigma with
                    | Some _ => Py.IndexError
                    | None => Py.ValueError
                    end)
  | _ :: _ =>
      let '(A, b) := l2_system fourier_frames upsampling search_radius lowpass_sigma gap in
      let x0 := lstsq A b in
      Py.Ok ((0, 0) :: cumsum x0)
  end.

(** Equality of translation lists, entry by entry, as rationals. *)
Definition trans_eq (u v : list vec2) : Prop :=
  Forall2 (fun p q => p.1 == q.1 /\ p.2 == q.2) u v.

End L2.

(** *** Facts about the design matrix and the residual *)

Section L2Facts.

Local Open Scope Q_scope.

(** The sum of the first [k] entries. *)
Definition prefix_sum (x : list Q) (k : nat) : Q := sumQ (take k x).

Lemma design_row_S (m i j : nat) :
  design_row (S m) (i, j) =
  (if ((i <=? 0) && (0 <? j))%nat then 1 else 0) :: design_row m (pred i, pred j).
Proof.
  unfold design_row. cbn [seq map fst snd]. f_equal.
  rewrite <- seq_shift, map_map. apply map_ext. intros k.
  destruct i, j; reflexivity.
Qed.

Lemma dot_design_row (x : list Q) : forall i j : nat,
  (i <= j)%nat ->
  dot (design_row (length x) (i, j)) x == prefix_sum x j - prefix_sum x i.
Proof.
  induction x as [|a x IH]; intros i j Hij.
  - unfold prefix_sum. rewrite !take_nil. reflexivity.
  - cbn [length]. rewrite design_row_S.
    change (dot (?c :: ?r) (a :: x)) with (c * a + dot r x).
    rewrite (IH (pred i) (pred j)) by lia.
    unfold prefix_sum. destruct i as [|i], j as [|j]; cbn; try lia;
      rewrite ?take_0; cbn; lra.
Qed.

Lemma Qsquare_nonneg (t : Q) : 0 <= t * t.
Proof. nra. Qed.

Lemma Qsquare_sum_nonpos (t s : Q) :
  0 <= s -> t * t + s <= 0 -> t == 0 /\ s <= 0.
Proof. intros Hs Hts. split; nra. Qed.

Lemma residual_nonneg (A : list (list Q)) (x : list Q) : forall b,
  0 <= residual A b x.
Proof.
  induction A as [|r A IH]; intros [|bi b]; cbn; try lra.
  specialize (IH b). pose proof (Qsquare_nonneg (dot r x - bi)). lra.
Qed.

(** [x] solves every equation of the system exactly. *)
Definition solves (A : list (list Q)) (b x : list Q) : Prop :=
  Forall2 (fun r bi => dot r x == bi) A b.

Lemma residual_solves (A : list (list Q)) (b x : list Q) :
  solves A b x -> residual A b x == 0.
Proof.
  induction 1 as [|r bi A b Hr _ IH]; cbn; [reflexivity|].
  rewrite IH, Hr. ring.
Qed.

Lemma residual_zero_solves (A : list (list Q)) (x : list Q) : forall b,
  length A = length b -> residual A b x <= 0 -> solves A b x.
Proof.
  induction A as [|r A IH]; intros [|bi b] Hlen Hres; cbn in *; try discriminate.
  - constructor.
  - destruct (Qsquare_sum_nonpos _ _ (residual_nonneg A x b) Hres) as [Hr Hrest].
    constructor.
    + lra.
    + apply IH; [congruence | exact Hrest].
Qed.

Lemma in_frame_pairs (n gap i j : nat) :
  In (i, j) (frame_pairs n gap) <-> (i < n - 1 /\ i + gap <= j /\ j < n)%nat.
Proof.
  unfold frame_pairs. rewrite in_flat_map. split.
  - intros (i' & Hi' & Hin). apply in_map_iff in Hin as (j' & Heq & Hj').
    inversion Heq; subst. apply in_seq in Hi'. apply in_seq in Hj'. lia.
  - intros (Hi & Hlo & Hhi). exists i. split; [apply in_seq; lia|].
    apply in_map_iff. exists j. split; [reflexivity | apply in_seq; lia].
Qed.

Lemma solves_design (m : nat) (f : nat * nat -> Q) (x : list Q) :
  forall pairs : list (nat * nat),
  solves (map (design_row m) pairs) (map f pairs) x <->
  (forall p, In p pairs -> dot (design_row m p) x == f p).
Proof.
  unfold solves. induction pairs as [|p pairs IH]; cbn.
  - split; [intros _ p [] | constructor].
  - split.
    + intros Hs. inversion Hs; subst. intros q [<- | Hq]; [assumption|].
      apply IH; assumption.
    + intros Hall. constructor; [apply Hall; left; reflexivity|].
      apply IH. intros q Hq. apply Hall. right. exact Hq.
Qed.

(** The per-step increments of a column of absolute translations. *)
Fixpoint diffs (t : list Q) : list Q :=
  match t with
  | a :: (b :: _) as t' => (b - a) :: diffs t'
  | _ => []
  end.

Lemma length_diffs (t : list Q) : length (diffs t) = (length t - 1)%nat.
Proof.
  induction t as [|a [|b t] IH]; [reflexivity..|].
  cbn [diffs length] in *. lia.
Qed.

Lemma prefix_sum_diffs (t : list Q) : forall k : nat,
  (k < length t)%nat -> prefix_sum (diffs t) k == nth k t 0 - nth 0 t 0.
Proof.
  unfold prefix_sum.
  induction t as [|a [|b t] IH]; intros k Hk; cbn [length] in Hk.
  - lia.
  - assert (k = 0%nat) as -> by lia. cbn. lra.
  - destruct k as [|k]; [cbn; lra|].
    change (diffs (a :: b :: t)) with ((b - a) :: diffs (b :: t)).
    cbn [take sumQ fold_right nth]. unfold sumQ in IH.
    rewrite (IH k) by (cbn [length]; lia). cbn [nth]. lra.
Qed.

(** [numpy.cumsum] on one column. *)
Fixpoint column_cumsum_from (acc : Q) (x : list Q) : list Q :=
  match x with
  | [] => []
  | d :: x' => (acc + d) :: column_cumsum_from (acc + d) x'
  end.

Lemma cumsum_from_fst (x : list vec2) : forall acc,
  map fst (cumsum_from acc x) = column_cumsum_from acc.1 (map fst x).
Proof.
  induction x as [|d x IH]; intros acc; cbn; [reflexivity|].
  f_equal. apply (IH (acc.1 + d.1, acc.2 + d.2)).
Qed.

Lemma cumsum_from_snd (x : list vec2) : forall acc,
  map snd (cumsum_from acc x) = column_cumsum_from acc.2 (map snd x).
Proof.
  induction x as [|d x IH]; intros acc; cbn; [reflexivity|].
  f_equal. apply (IH (acc.1 + d.1, acc.2 + d.2)).
Qed.

Lemma length_column_cumsum_from (x : list Q) : forall acc,
  length (column_cumsum_from acc x) = length x.
Proof. induction x as [|d x IH]; intros acc; cbn; [|rewrite IH]; reflexivity. Qed.

Lemma nth_column_cumsum (x : list Q) : forall (acc : Q) (k : nat),
  (k <= length x)%nat ->
  nth k (acc :: column_cumsum_from acc x) 0 == acc + prefix_sum x k.
Proof.
  unfold prefix_sum.
  induction x as [|d x IH]; intros acc k Hk; cbn [length] in Hk.
  - assert (k = 0%nat) as -> by lia. cbn. lra.
  - destruct k as [|k]; [cbn; lra|].
    cbn [column_cumsum_from take sumQ fold_right].
    change (nth (S k) (acc :: ?l) 0) with (nth k l 0).
    unfold sumQ in IH. rewrite (IH (acc + d) k) by lia. lra.
Qed.

(** An exact solution that is shortest among the exact solutions is what
    [lstsq] returns. *)
Lemma lstsq_column_exact (A : matrix) (b x : list Q) :
  length (rows A) = length b ->
  length x = ncols A ->
  solves (rows A) b x ->
  (forall y, length y = ncols A -> solves (rows A) b y -> norm2 x <= norm2 y) ->
  lstsq_column A b x.
Proof.
  intros Hlen Hx Hsol Hmin. split; [exact Hx|]. split.
  - intros y _. rewrite (residual_solves _ _ _ Hsol). apply residual_nonneg.
  - intros y Hy Hres. apply Hmin; [exact Hy|].
    apply residual_zero_solves; [exact Hlen|].
    rewrite Hres, (residual_solves _ _ _ Hsol). lra.
Qed.

(** The rank argument: once the frame count reaches twice the gap, the
    pairwise differences pin every cumulative value down. *)
Lemma l2_differences_determine (n gap : nat) (X T : nat -> Q) :
  (2 * gap <= n)%nat ->
  X 0%nat == T 0%nat ->
  (forall i j, In (i, j) (frame_pairs n gap) -> X j - X i == T j - T i) ->
  forall k, (k < n)%nat -> X k == T k.
Proof.
  intros Hgap H0 Hpairs.
  assert (Hhigh : forall k, (gap <= k)%nat -> (k < n)%nat -> X k == T k).
  { intros [|k] Hlo Hhi; [exact H0|].
    assert (Hin : In (0%nat, S k) (frame_pairs n gap)) by (apply in_frame_pairs; lia).
    specialize (Hpairs _ _ Hin). lra. }
  intros k Hk. destruct (le_lt_dec gap k) as [Hge | Hlt]; [auto|].
  assert (Hin : In (k, (n - 1)%nat) (frame_pairs n gap)) by (apply in_frame_pairs; lia).
  specialize (Hpairs _ _ Hin).
  assert (Hlast : X (n - 1)%nat == T (n - 1)%nat) by (apply Hhigh; lia).
  lra.
Qed.

(** One column of the round trip. *)
Lemma l2_column_round_trip (n gap : nat) (f : nat * nat -> Q) (tc xc : list Q) :
  length tc = n ->
  (2 * gap <= n)%nat ->
  nth 0 tc 0 == 0 ->
  (forall i j, In (i, j) (frame_pairs n gap) -> f (i, j) == nth j tc 0 - nth i tc 0) ->
  lstsq_column (design_matrix n (frame_pairs n gap)) (map f (frame_pairs n gap)) xc ->
  forall k, (k < n)%nat -> nth k (0 :: column_cumsum_from 0 xc) 0 == nth k tc 0.
Proof.
  intros Hlen Hgap H0 Hf (Hxlen & Hmin & _) k Hk. cbn [ncols rows design_matrix] in *.
  assert (Hdlen : length (diffs tc) = (n - 1)%nat) by (rewrite length_diffs; lia).
  assert (Hd : solves (map (design_row (n - 1)) (frame_pairs n gap))
                      (map f (frame_pairs n gap)) (diffs tc)).
  { apply solves_design. intros [i j] Hin.
    pose proof (proj1 (in_frame_pairs _ _ _ _) Hin) as (Hi & Hij & Hj).
    rewrite <- Hdlen, dot_design_row by lia.
    rewrite !prefix_sum_diffs by lia. rewrite (Hf _ _ Hin). lra. }
  assert (Hx : solves (map (design_row (n - 1)) (frame_pairs n gap))
                      (map f (frame_pairs n gap)) xc).
  { apply residual_zero_solves; [rewrite !length_map; reflexivity|].
    rewrite <- (residual_solves _ _ _ Hd). apply Hmin. exact Hdlen. }
  rewrite nth_column_cumsum by lia.
  rewrite (l2_differences_determine n gap (prefix_sum xc) (fun k => nth k tc 0));
    [lra | exact Hgap | | | exact Hk].
  - unfold prefix_sum. rewrite take_0. cbn. lra.
  - intros i j Hin.
    pose proof (proj1 (in_frame_pairs _ _ _ _) Hin) as (Hi & Hij & Hj).
    rewrite <- (Hf _ _ Hin), <- dot_design_row by lia.
    rewrite Hxlen. exact (proj1 (solves_design _ _ _ _) Hx _ Hin).
Qed.

End L2Facts.

Lemma trans_eq_nth (u : list vec2) : forall v : list vec2,
  length u = length v ->
  (forall k, (k < length u)%nat ->
     ((nth k u (0, 0)).1 == (nth k v (0, 0)).1 /\
      (nth k u (0, 0)).2 == (nth k v (0, 0)).2)%Q) ->
  trans_eq u v.
Proof.
  induction u as [|p u IH]; intros [|q v] Hlen Hall; cbn in Hlen; try discriminate.
  - constructor.
  - constructor.
    + apply (Hall 0%nat). cbn. lia.
    + apply IH; [congruence|]. intros k Hk. apply (Hall (S k)). cbn. lia.
Qed.

Lemma length_cumsum_from (x : list vec2) : forall acc : vec2,
  length (cumsum_from acc x) = length x.
Proof. induction x as [|d x IH]; intros acc; cbn; [|rewrite IH]; reflexivity. Qed.

(** *** The round trip of [align_l2] *)

Section L2RoundTrip.

Local Open Scope Q_scope.

Context {frame : Type} `{Inhabited frame}.
Variable xcorr_dft_peak : frame -> frame -> nat -> nat -> Q * Q.
Variable apply_kernel : option Q -> frame -> frame.
Variable lstsq : matrix -> list vec2 -> list vec2.

(** C1 (amended): let there be a single frame, or at least one frame and at
    least twice as many frames as the gap; let [t] be a vector of absolute
    translations with [t[0] = (0, 0)],
    and let every pair (i, j) that [align_l2] forms be measured exactly as
    [t[j] - t[i]].  If [lstsq] returns a least-squares solution of the
    system built by [align_l2], then [align_l2] returns [t] (in exact
    arithmetic), frame 0 sitting at (0, 0). *)
Theorem align_l2_round_trip (fourier_frames : list frame)
    (upsampling search_radius : nat) (lowpass_sigma : option Q) (gap : nat)
    (t : list vec2) :
  let n := length fourier_frames in
  let sys := l2_system xcorr_dft_peak apply_kernel fourier_frames
               upsampling search_radius lowpass_sigma gap in
  length t = n ->
  (n = 1 \/ (1 <= n /\ 2 * gap <= n))%nat ->
  (nth 0 t (0, 0)).1 == 0 ->
  (nth 0 t (0, 0)).2 == 0 ->
  (forall i j, In (i, j) (frame_pairs n gap) ->
     let yx := xcorr_dft_peak (apply_kernel lowpass_sigma (fourier_frames !!! i))
                 (fourier_frames !!! j) upsampling search_radius in
     yx.1 == (nth j t (0, 0)).2 - (nth i t (0, 0)).2 /\
     yx.2 == (nth j t (0, 0)).1 - (nth i t (0, 0)).1) ->
  is_lstsq sys.1 sys.2 (lstsq sys.1 sys.2) ->
  exists trans,
    align_l2 xcorr_dft_peak apply_kernel lstsq fourier_frames
      upsampling search_radius lowpass_sigma gap = Py.Ok trans /\
    trans_eq trans t.
Proof.
  intros n sys Hlen Hshape H0x H0y Hmeas [Hls1 Hls2].
  assert (Hn : (1 <= n)%nat) by lia.
  exists ((0, 0) :: cumsum (lstsq sys.1 sys.2)). split.
  { unfold align_l2. destruct fourier_frames; [cbn in Hn; lia | reflexivity]. }
  subst sys. unfold l2_system in *. cbn [fst snd] in *. fold n in Hls1, Hls2 |- *.
  set (x0 := lstsq _ _) in *.
  rewrite map_map in Hls1, Hls2.
  assert (Hx0 : length x0 = (n - 1)%nat).
  { destruct Hls1 as [Hl _]. rewrite length_map in Hl. exact Hl. }
  apply trans_eq_nth.
  { cbn [length]. unfold cumsum. rewrite length_cumsum_from. lia. }
  intros k Hk. cbn [length] in Hk. unfold cumsum in Hk.
  rewrite length_cumsum_from in Hk.
  destruct (Nat.eq_dec k 0%nat) as [-> | Hk0];
    [cbn [nth fst snd]; split; symmetry; assumption|].
  assert (Hgap : (2 * gap <= n)%nat) by lia.
  split.
  - change (nth k ((0, 0) :: cumsum x0) (0, 0)).1
      with (fst (nth k ((0, 0) :: cumsum x0) (0, 0))).
    rewrite <- (map_nth fst). cbn [map]. unfold cumsum.
    rewrite cumsum_from_fst. cbn [fst].
    change (nth k t (0, 0)).1 with (fst (nth k t (0, 0))).
    rewrite <- (map_nth fst t). cbn [fst].
    eapply (l2_column_round_trip n gap);
      [rewrite length_map; exact Hlen | exact Hgap | | | exact Hls1 | lia].
    + change 0 with (fst (0, 0)) at 1. rewrite (map_nth fst). exact H0x.
    + intros i j Hin. destruct (Hmeas i j Hin) as [_ Hx].
      change 0 with (fst (0, 0)) at 1 2. rewrite !(map_nth fst). exact Hx.
  - change (nth k ((0, 0) :: cumsum x0) (0, 0)).2
      with (snd (nth k ((0, 0) :: cumsum x0) (0, 0))).
    rewrite <- (map_nth snd). cbn [map]. unfold cumsum.
    rewrite cumsum_from_snd. cbn [snd].
    change (nth k t (0, 0)).2 with (snd (nth k t (0, 0))).
    rewrite <- (map_nth snd t). cbn [snd].
    eapply (l2_column_round_trip n gap);
      [rewrite length_map; exact Hlen | exact Hgap | | | exact Hls2 | lia].
    + change 0 with (snd (0, 0)) at 1. rewrite (map_nth snd). exact H0y.
    + intros i j Hin. destruct (Hmeas i j Hin) as [Hy _].
      change 0 with (snd (0, 0)) at 1 2. rewrite !(map_nth snd). exact Hy.
Qed.

End L2RoundTrip.

(** *** Concrete runs of [align_l2] *)

Section L2Runs.

Local Open Scope Q_scope.

(** A noise-free test bench: a frame is known by its true position, and the
    cross-correlation of two frames reports their exact displacement as
    (y, x). *)
Definition ideal_xcorr (f g : vec2) (upsampling search_radius : nat) : Q * Q :=
  (g.2 - f.2, g.1 - f.1).

Definition no_kernel (sigma : option Q) (f : vec2) : vec2 := f.

Definition ideal_align_l2 (solution frames : list vec2) (gap : nat) :=
  @align_l2 vec2 (populate (0, 0)) ideal_xcorr no_kernel (fun _ _ => solution)
    frames 2 50 None gap.

Definition ideal_system (frames : list vec2) (gap : nat) :=
  @l2_system vec2 (populate (0, 0)) ideal_xcorr no_kernel frames 2 50 None gap.

Example frame_pairs_6_5 : frame_pairs 6 5 = [(0, 5)]%nat.
Proof. reflexivity. Qed.

Example frame_pairs_3_1 : frame_pairs 3 1 = [(0, 1); (0, 2); (1, 2)]%nat.
Proof. reflexivity. Qed.

Example design_matrix_3_1 :
  design_matrix 3 (frame_pairs 3 1) = Matrix 2 [[1; 0]; [1; 1]; [0; 1]].
Proof. reflexivity. Qed.

Lemma align_l2_round_trip_witness :
  exists trans,
    ideal_align_l2 [(3, -2); (2, 3)] [(0, 0); (3, -2); (5, 1)] 1 = Py.Ok trans /\
    trans_eq trans [(0, 0); (3, -2); (5, 1)].
Proof.
  apply (@align_l2_round_trip vec2 (populate (0, 0)) ideal_xcorr no_kernel
           (fun _ _ => [(3, -2); (2, 3)]) [(0, 0); (3, -2); (5, 1)] 2 50 None 1
           [(0, 0); (3, -2); (5, 1)]).
  - reflexivity.
  - cbn; lia.
  - reflexivity.
  - reflexivity.
  - intros i j Hin. cbn in Hin.
    destruct Hin as [Heq | [Heq | [Heq | []]]]; inversion Heq; subst;
      cbn; split; reflexivity.
  - split; (apply lstsq_column_exact; [reflexivity | reflexivity | | ]).
    + repeat constructor; cbn; lra.
    + intros [|y0 [|y1 [|? ?]]] Hy Hsol; try discriminate.
      inversion Hsol as [|? ? ? ? E1 Hsol']; subst.
      inversion Hsol' as [|? ? ? ? E2 Hsol'']; subst.
      inversion Hsol'' as [|? ? ? ? E3 _]; subst. cbn in *.
      assert (Hy0 : y0 == 3) by lra. assert (Hy1 : y1 == 2) by lra.
      rewrite Hy0, Hy1. lra.
    + repeat constructor; cbn; lra.
    + intros [|y0 [|y1 [|? ?]]] Hy Hsol; try discriminate.
      inversion Hsol as [|? ? ? ? E1 Hsol']; subst.
      inversion Hsol' as [|? ? ? ? E2 Hsol'']; subst.
      inversion Hsol'' as [|? ? ? ? E3 _]; subst. cbn in *.
      assert (Hy0 : y0 == -2) by lra. assert (Hy1 : y1 == 3) by lra.
      rewrite Hy0, Hy1. lra.
Defined.

(** C1 (as stated, refuted): with the default gap of 5 and six frames the
    only pair is (0, 5), the system has one equation for five unknowns, and
    the least-squares solution of least norm spreads the measured shift
    evenly.  For the true translations (0,0), (5,0), (5,0), (5,0), (5,0),
    (5,0), measured without noise, [align_l2] returns (0,0), (1,0), (2,0),
    (3,0), (4,0), (5,0). *)
Lemma align_l2_short_stack_not_recovered :
  let t := [(0, 0); (5, 0); (5, 0); (5, 0); (5, 0); (5, 0)] in
  let x0 := [(1, 0); (1, 0); (1, 0); (1, 0); (1, 0)] in
  let sys := ideal_system t 5 in
  sys.1 = Matrix 5 [[1; 1; 1; 1; 1]] /\
  sys.2 = [(5 - 0, 0 - 0)] /\
  is_lstsq sys.1 sys.2 x0 /\
  exists trans,
    ideal_align_l2 x0 t 5 = Py.Ok trans /\
    trans_eq trans [(0, 0); (1, 0); (2, 0); (3, 0); (4, 0); (5, 0)] /\
    ~ trans_eq trans t.
Proof.
  cbv zeta. split; [reflexivity|]. split; [reflexivity|]. split.
  - split; (apply lstsq_column_exact; [reflexivity | reflexivity | | ]).
    + repeat constructor; cbn; lra.
    + intros [|y0 [|y1 [|y2 [|y3 [|y4 [|? ?]]]]]] Hy Hsol; try discriminate.
      inversion Hsol as [|? ? ? ? E1 _]; subst. cbn in *.
      pose proof (Qsquare_nonneg (y0 - 1)). pose proof (Qsquare_nonneg (y1 - 1)).
      pose proof (Qsquare_nonneg (y2 - 1)). pose proof (Qsquare_nonneg (y3 - 1)).
      pose proof (Qsquare_nonneg (y4 - 1)). lra.
    + repeat constructor; cbn; lra.
    + intros [|y0 [|y1 [|y2 [|y3 [|y4 [|? ?]]]]]] Hy Hsol; try discriminate.
      cbn.
      pose proof (Qsquare_nonneg y0). pose proof (Qsquare_nonneg y1).
      pose proof (Qsquare_nonneg y2). pose proof (Qsquare_nonneg y3).
      pose proof (Qsquare_nonneg y4). lra.
  - eexists. split; [reflexivity|]. split.
    + repeat constructor; cbn; lra.
    + intros Heq. inversion Heq as [|? ? ? ? _ Heq']; subst.
      inversion Heq' as [|? ? ? ? [E _] _]; subst. cbn in E. lra.
Qed.

End L2Runs.

(** ** More on [align_l2]: the pairs it forms, and stacks too short for it *)

Section L2Pairs.

Local Open Scope Q_scope.

Lemma frame_pairs_short (n gap : nat) :
  (n <= 1 \/ n <= gap)%nat -> frame_pairs n gap = [].
Proof.
  intros Hshort. destruct (frame_pairs n gap) as [|[i j] rest] eqn:Hp; [reflexivity|].
  assert (Hin : In (i, j) (frame_pairs n gap)) by (rewrite Hp; left; reflexivity).
  apply in_frame_pairs in Hin. lia.
Qed.

(** X1: the assertion [abs(i-j) >= gap] inside [align_l2] never fails and
    both members of a pair are frames of the stack; and no pair at all is
    formed exactly when the stack has at most one frame or at most [gap]
    frames. *)
Theorem frame_pairs_sound (n gap : nat) :
  (forall i j, In (i, j) (frame_pairs n gap) ->
     (gap <= j - i /\ i <= j /\ i < n /\ j < n)%nat) /\
  (frame_pairs n gap = [] <-> (n <= 1 \/ n <= gap)%nat).
Proof.
  split.
  - intros i j Hin. apply in_frame_pairs in Hin. lia.
  - split.
    + intros Hnil.
      destruct (le_lt_dec n 1) as [|Hn]; [left; assumption|].
      destruct (le_lt_dec n gap) as [|Hg]; [right; assumption|].
      assert (Hin : In (0%nat, gap) (frame_pairs n gap)) by (apply in_frame_pairs; lia).
      rewrite Hnil in Hin. destruct Hin.
    + apply frame_pairs_short.
Qed.

Lemma norm2_nonneg (x : list Q) : 0 <= norm2 x.
Proof.
  unfold norm2, dot. induction x as [|a x IH]; cbn; [lra|].
  unfold sumQ in IH. pose proof (Qsquare_nonneg a). lra.
Qed.

Lemma norm2_nonpos_zero (x : list Q) : norm2 x <= 0 -> Forall (fun v => v == 0) x.
Proof.
  induction x as [|a x IH]; intros Hle; constructor.
  - destruct (Qsquare_sum_nonpos a (norm2 x) (norm2_nonneg x) Hle) as [Ha _]. exact Ha.
  - apply IH. exact (proj2 (Qsquare_sum_nonpos a (norm2 x) (norm2_nonneg x) Hle)).
Qed.

Lemma norm2_zeros (m : nat) : norm2 (replicate m 0) == 0.
Proof.
  unfold norm2, dot. induction m as [|m IH]; cbn; [reflexivity|].
  unfold sumQ in IH. rewrite IH. ring.
Qed.

(** Without any equation the least-squares solution of least norm is the
    zero vector. *)
Lemma lstsq_column_no_rows (m : nat) (x : list Q) :
  lstsq_column (Matrix m []) [] x -> Forall (fun v => v == 0) x.
Proof.
  intros (_ & _ & Hmin). apply norm2_nonpos_zero.
  rewrite <- (norm2_zeros m). apply Hmin.
  - cbn. apply length_replicate.
  - reflexivity.
Qed.

Lemma cumsum_from_zeros (x : list vec2) : forall acc : vec2,
  Forall (fun p => p.1 == 0 /\ p.2 == 0) x ->
  Forall (fun p => p.1 == acc.1 /\ p.2 == acc.2) (cumsum_from acc x).
Proof.
  induction x as [|d x IH]; intros acc Hz; cbn [cumsum_from]; [constructor|].
  inversion Hz as [|? ? [Hd1 Hd2] Hrest]; subst.
  constructor.
  - cbn. split; lra.
  - eapply Forall_impl; [apply (IH (acc.1 + d.1, acc.2 + d.2) Hrest)|].
    cbn. intros p [Hp1 Hp2]. split; lra.
Qed.

Lemma Forall_zero_pairs (x : list vec2) :
  Forall (fun v => v == 0) (map fst x) ->
  Forall (fun v => v == 0) (map snd x) ->
  Forall (fun p => p.1 == 0 /\ p.2 == 0) x.
Proof.
  induction x as [|p x IH]; cbn; intros H1 H2; [constructor|].
  inversion H1; inversion H2; subst. constructor; [split; assumption | auto].
Qed.

Context {frame : Type} `{Inhabited frame}.
Variable xcorr_dft_peak : frame -> frame -> nat -> nat -> Q * Q.
Variable apply_kernel : option Q -> frame -> frame.
Variable lstsq : matrix -> list vec2 -> list vec2.

(** X2: a stack with at most [gap] frames (or a single frame) gives
    [align_l2] nothing to measure: no frame is cross-correlated, and when
    [lstsq] returns the least-squares solution of least norm every
    translation returned is (0, 0). *)
Theorem align_l2_short_stack_unaligned (fourier_frames : list frame)
    (upsampling search_radius : nat) (lowpass_sigma : option Q) (gap : nat) :
  let n := length fourier_frames in
  let sys := l2_system xcorr_dft_peak apply_kernel fourier_frames
               upsampling search_radius lowpass_sigma gap in
  (1 <= n)%nat ->
  (n <= 1 \/ n <= gap)%nat ->
  is_lstsq sys.1 sys.2 (lstsq sys.1 sys.2) ->
  sys.2 = [] /\
  exists trans,
    align_l2 xcorr_dft_peak apply_kernel lstsq fourier_frames
      upsampling search_radius lowpass_sigma gap = Py.Ok trans /\
    length trans = n /\
    Forall (fun p => p.1 == 0 /\ p.2 == 0) trans.
Proof.
  intros n sys Hn Hshort [Hls1 Hls2].
  assert (Hpairs : frame_pairs n gap = [])
    by (apply frame_pairs_short; exact Hshort).
  subst sys. unfold l2_system in *. fold n in Hls1, Hls2 |- *.
  rewrite Hpairs in *. cbn [map fst snd design_matrix] in *.
  split; [reflexivity|].
  exists ((0, 0) :: cumsum (lstsq (Matrix (n - 1) []) [])). split.
  { unfold align_l2. destruct fourier_frames; [cbn in Hn; lia|].
    unfold l2_system. fold n. rewrite Hpairs. reflexivity. }
  set (x0 := lstsq _ _) in *.
  assert (Hx0 : length x0 = (n - 1)%nat).
  { destruct Hls1 as [Hl _]. rewrite length_map in Hl. exact Hl. }
  split.
  - cbn [length]. unfold cumsum. rewrite length_cumsum_from. lia.
  - constructor; [split; reflexivity|].
    apply (cumsum_from_zeros x0 (0, 0)).
    apply Forall_zero_pairs; eapply lstsq_column_no_rows; eassumption.
Qed.

End L2Pairs.

Lemma align_l2_short_stack_unaligned_witness :
  (ideal_system [(0, 0); (3, -2); (5, 1)]%Q 5).2 = [] /\
  exists trans,
    ideal_align_l2 [(0, 0); (0, 0)]%Q [(0, 0); (3, -2); (5, 1)]%Q 5 = Py.Ok trans /\
    length trans = 3%nat /\
    Forall (fun p => (p.1 == 0 /\ p.2 == 0)%Q) trans.
Proof.
  destruct (@align_l2_short_stack_unaligned vec2 (populate (0, 0)%Q) ideal_xcorr no_kernel
           (fun _ _ => [(0, 0); (0, 0)]%Q) [(0, 0); (3, -2); (5, 1)]%Q 2 50 None 5)
    as [Hnone Hrun].
  - cbn; lia.
  - cbn; lia.
  - split; (split; [reflexivity|]); split.
    + intros y _. cbn. apply Qle_refl.
    + intros y _ _. apply norm2_nonneg.
    + intros y _. cbn. apply Qle_refl.
    + intros y _ _. apply norm2_nonneg.
  - split; [exact Hnone | exact Hrun].
Defined.

(** ** [align_mean_displacement] *)

Section MeanDisplacement.

Local Open Scope Q_scope.

(** [numpy.mean(rows, axis=0)] on a (k, 2) array: the mean of no row at
    all is NaN, written [None]. *)
Definition mean_axis0 (rows : list vec2) : option vec2 :=
  match rows with
  | [] => None
  | _ :: _ =>
      let k := inject_Z (Z.of_nat (length rows)) in
      Some (sumQ (map fst rows) / k, sumQ (map snd rows) / k)
  end.

Context {frame : Type} `{Inhabited frame}.
Variable xcorr_dft_peak : frame -> frame -> nat -> nat -> Q * Q.
Variable apply_kernel : option Q -> frame -> frame.

(** [cache[i, j, :2]] once the loop over the upper triangle has filled
    [cache[i, j] = (x, y, p)] and [cache[j, i] = (-x, -y, p)]. *)
Definition peak_cache (fourier_frames : list frame) (upsampling search_radius : nat)
    (lowpass_sigma : option Q) (i j : nat) : vec2 :=
  if (i <? j)%nat then
    let yx := xcorr_dft_peak (apply_kernel lowpass_sigma (fourier_frames !!! i))
                (fourier_frames !!! j) upsampling search_radius in
    (yx.2, yx.1)
  else if (j <? i)%nat then
    let yx := xcorr_dft_peak (apply_kernel lowpass_sigma (fourier_frames !!! j))
                (fourier_frames !!! i) upsampling search_radius in
    (- yx.2, - yx.1)
  else (0, 0).

(** [align_mean_displacement]: one translation per frame, an entry [None]
    being a row of NaN.  Building the low-pass kernel reads the shape of
    the first frame. *)
Definition align_mean_displacement (fourier_frames : list frame)
    (upsampling search_radius : nat) (lowpass_sigma : option Q)
    : Py.result (list (option vec2)) :=
  match lowpass_sigma, fourier_frames with
  | Some _, [] => Py.Raise Py.IndexError
  | _, _ =>
      let n := length fourier_frames in
      let cache := peak_cache fourier_frames upsampling search_radius lowpass_sigma in
      let idx := seq 1 (n - 1) in
      Py.Ok
        (match n with
         | O => []
         | S _ =>
             Some (0, 0) ::
             map (fun i =>
                    let cidx := filter (fun j => j <> i) idx in
                    mean_axis0
                      (map (fun j => ((cache 0%nat j).1 - (cache i j).1,
                                      (cache 0%nat j).2 - (cache i j).2)) cidx))
                 (seq 1 (n - 1))
         end)
  end.

Lemma sumQ_const (l : list Q) (c : Q) :
  Forall (fun v => v == c) l -> sumQ l == inject_Z (Z.of_nat (length l)) * c.
Proof.
  induction 1 as [|v l Hv _ IH]; [cbn; ring|].
  cbn [length sumQ fold_right]. unfold sumQ in IH.
  rewrite Nat2Z.inj_succ, <- Z.add_1_r, inject_Z_plus, IH, Hv.
  change (inject_Z 1) with 1. ring.
Qed.

Lemma mean_axis0_const (rows : list vec2) (v : vec2) :
  rows <> [] ->
  Forall (fun p => p.1 == v.1 /\ p.2 == v.2) rows ->
  exists m, mean_axis0 rows = Some m /\ m.1 == v.1 /\ m.2 == v.2.
Proof.
  intros Hne Hall. destruct rows as [|p rows]; [contradiction|].
  eexists. split; [reflexivity|]. cbn [fst snd].
  set (l := p :: rows) in *.
  assert (Hk : ~ inject_Z (Z.of_nat (length l)) == 0).
  { subst l. cbn [length]. intros Hz.
    assert (Hpos : 0 < inject_Z (Z.of_nat (S (length rows))))
      by (unfold Qlt; cbn; lia).
    lra. }
  split.
  - rewrite (sumQ_const (map fst l) v.1).
    + rewrite length_map. set (k := inject_Z _) in *. clearbody k. field. exact Hk.
    + apply Forall_forall. intros x Hx. apply list_elem_of_In, in_map_iff in Hx as (q & <- & Hq).
      rewrite Forall_forall in Hall. apply (Hall q). apply list_elem_of_In. exact Hq.
  - rewrite (sumQ_const (map snd l) v.2).
    + rewrite length_map. set (k := inject_Z _) in *. clearbody k. field. exact Hk.
    + apply Forall_forall. intros x Hx. apply list_elem_of_In, in_map_iff in Hx as (q & <- & Hq).
      rewrite Forall_forall in Hall. apply (Hall q). apply list_elem_of_In. exact Hq.
Qed.

(** X3: the mean-displacement estimate is exact on noise-free measurements
    of a stack of at least three frames: if every pair [i < j] is measured
    as [t[j] - t[i]] and [t[0] = (0, 0)], the translations returned are
    [t]. *)
Theorem align_mean_displacement_round_trip (fourier_frames : list frame)
    (upsampling search_radius : nat) (lowpass_sigma : option Q) (t : list vec2) :
  let n := length fourier_frames in
  length t = n ->
  (3 <= n)%nat ->
  (nth 0 t (0, 0)).1 == 0 ->
  (nth 0 t (0, 0)).2 == 0 ->
  (forall i j, (i < j)%nat -> (j < n)%nat ->
     let yx := xcorr_dft_peak (apply_kernel lowpass_sigma (fourier_frames !!! i))
                 (fourier_frames !!! j) upsampling search_radius in
     yx.1 == (nth j t (0, 0)).2 - (nth i t (0, 0)).2 /\
     yx.2 == (nth j t (0, 0)).1 - (nth i t (0, 0)).1) ->
  exists trans,
    align_mean_displacement fourier_frames upsampling search_radius lowpass_sigma
      = Py.Ok trans /\
    length trans = n /\
    forall k, (k < n)%nat ->
      exists v, trans !! k = Some (Some v) /\
                v.1 == (nth k t (0, 0)).1 /\ v.2 == (nth k t (0, 0)).2.
Proof.
  intros n Hlen Hn H0x H0y Hmeas.
  assert (Hrun : exists trans,
    align_mean_displacement fourier_frames upsampling search_radius lowpass_sigma
      = Py.Ok trans /\
    trans = Some (0, 0) ::
      map (fun i =>
             mean_axis0
               (map (fun j =>
                  ((peak_cache fourier_frames upsampling search_radius lowpass_sigma 0%nat j).1
                   - (peak_cache fourier_frames upsampling search_radius lowpass_sigma i j).1,
                   (peak_cache fourier_frames upsampling search_radius lowpass_sigma 0%nat j).2
                   - (peak_cache fourier_frames upsampling search_radius lowpass_sigma i j).2))
                  (filter (fun j => j <> i) (seq 1 (n - 1)))))
          (seq 1 (n - 1))).
  { unfold align_mean_displacement. fold n.
    destruct fourier_frames as [|f0 fs] eqn:Hf; [cbn in n; lia|]. rewrite <- Hf. fold n.
    destruct n as [|n'] eqn:Hn'; [lia|].
    destruct lowpass_sigma; rewrite Hf; eexists; (split; [reflexivity|]);
      cbn [length]; rewrite <- Hf; reflexivity. }
  destruct Hrun as (trans & Hrun & ->). eexists. split; [exact Hrun|]. split.
  { cbn [length]. rewrite length_map, length_seq. lia. }
  intros k Hk. destruct k as [|k].
  { exists (0, 0). split; [reflexivity|]. cbn [fst snd]. split; symmetry; assumption. }
  assert (Hlk : forall (x : option vec2) (f : nat -> option vec2),
            (x :: map f (seq 1 (n - 1))) !! S k = Some (f (S k))).
  { intros x f. change (map f (seq 1 (n - 1))) with (f <$> seq 1 (n - 1)).
    change ((x :: (f <$> seq 1 (n - 1))) !! S k) with ((f <$> seq 1 (n - 1)) !! k).
    rewrite list_lookup_fmap, lookup_seq_lt by lia. reflexivity. }
  rewrite Hlk. clear Hlk.
  destruct (mean_axis0_const
              (map (fun j =>
                 ((peak_cache fourier_frames upsampling search_radius lowpass_sigma 0%nat j).1
                  - (peak_cache fourier_frames upsampling search_radius lowpass_sigma (S k) j).1,
                  (peak_cache fourier_frames upsampling search_radius lowpass_sigma 0%nat j).2
                  - (peak_cache fourier_frames upsampling search_radius lowpass_sigma (S k) j).2))
                 (filter (fun j => j <> S k) (seq 1 (n - 1))))
              (nth (S k) t (0, 0))) as (m & Hm & Hm1 & Hm2).
  - (* some other frame than 0 and [S k] exists *)
    intros Hnil. apply map_eq_nil in Hnil.
    assert (Hin : (if decide (S k = 1%nat) then 2%nat else 1%nat)
                  ∈ filter (fun j => j <> S k) (seq 1 (n - 1))).
    { apply list_elem_of_filter. split; [destruct (decide (S k = 1%nat)); lia|].
      apply elem_of_seq. destruct (decide (S k = 1%nat)); lia. }
    rewrite Hnil in Hin. inversion Hin.
  - apply Forall_forall. intros p Hp.
    apply list_elem_of_In, in_map_iff in Hp as (j & <- & Hj).
    apply list_elem_of_In, list_elem_of_filter in Hj as [Hne Hj].
    apply elem_of_seq in Hj. cbn [fst snd].
    unfold peak_cache.
    destruct (Nat.ltb_spec 0 j) as [H0j | ?]; [|lia].
    destruct (Hmeas 0%nat j H0j ltac:(lia)) as [Hy0 Hx0]. cbn [fst snd].
    destruct (Nat.ltb_spec (S k) j) as [Hkj | Hjk].
    + destruct (Hmeas (S k) j Hkj ltac:(lia)) as [Hy Hx]. cbn [fst snd].
      rewrite Hx0, Hy0, Hx, Hy. split; lra.
    + destruct (Nat.ltb_spec j (S k)) as [Hjk' | ?]; [|lia].
      destruct (Hmeas j (S k) Hjk' ltac:(lia)) as [Hy Hx]. cbn [fst snd].
      rewrite Hx0, Hy0, Hx, Hy. split; lra.
  - exists m. split; [cbv beta; rewrite Hm; reflexivity | split; assumption].
Qed.

(** X4: on a stack of exactly two frames the second translation is the
    mean over no pair at all: [align_mean_displacement] returns (0, 0) for
    the first frame and NaN for the second, whatever the frames show. *)
Theorem align_mean_displacement_two_frames (f0 f1 : frame)
    (upsampling search_radius : nat) (lowpass_sigma : option Q) :
  align_mean_displacement [f0; f1] upsampling search_radius lowpass_sigma
  = Py.Ok [Some (0, 0); None].
Proof. destruct lowpass_sigma; reflexivity. Qed.

End MeanDisplacement.

Lemma align_mean_displacement_round_trip_witness :
  exists trans,
    @align_mean_displacement vec2 (populate (0, 0)%Q) ideal_xcorr no_kernel
      [(0, 0); (3, -2); (5, 1)]%Q 2 50 None = Py.Ok trans /\
    length trans = 3%nat /\
    forall k, (k < 3)%nat ->
      exists v, trans !! k = Some (Some v) /\
                (v.1 == (nth k [(0, 0); (3, -2); (5, 1)] (0, 0)).1)%Q /\
                (v.2 == (nth k [(0, 0); (3, -2); (5, 1)] (0, 0)).2)%Q.
Proof.
  apply (@align_mean_displacement_round_trip vec2 (populate (0, 0)%Q) ideal_xcorr no_kernel
           [(0, 0); (3, -2); (5, 1)]%Q 2 50 None [(0, 0); (3, -2); (5, 1)]%Q).
  - reflexivity.
  - cbn; lia.
  - reflexivity.
  - reflexivity.
  - intros i j Hij Hj. cbn in Hj.
    assert (Hcases : (i = 0 /\ j = 1 \/ i = 0 /\ j = 2 \/ i = 1 /\ j = 2)%nat) by lia.
    destruct Hcases as [[-> ->] | [[-> ->] | [-> ->]]]; cbn; split; reflexivity.
Defined.

(** ** [write_average_with_path] *)

Section Waypoints.

Import Py.

Local Open Scope Q_scope.

(** [col.min()] and [col.max()]; numpy refuses an empty array. *)
Definition array_min (col : list Q) : result Q :=
  match col with
  | [] => Raise ValueError
  | a :: rest => Ok (fold_left (fun m v => if Qltb v m then v else m) rest a)
  end.

Definition array_max (col : list Q) : result Q :=
  match col with
  | [] => Raise ValueError
  | a :: rest => Ok (fold_left (fun m v => if Qltb m v then v else m) rest a)
  end.

(** One column of
    [trans -= trans.min(axis=0); trans /= trans.max(axis=0);
     trans *= radius; trans += radius].
    When the column is constant the division is 0/0 throughout and the
    column is NaN, written [None]. *)
Definition normalise_column (radius : Q) (col : list Q) : result (option (list Q)) :=
  bind (array_min col) (fun mn =>
  let shifted := map (fun v => v - mn) col in
  bind (array_max shifted) (fun mx =>
  if Qeq_bool mx 0 then Ok None
  else Ok (Some (map (fun v => v / mx * radius + radius) shifted)))).

(** [write_average_with_path]: the way points handed to
    [drawing.draw_path], as an x and a y column; [None] when no way-point
    file is configured and nothing is drawn. *)
Definition write_average_with_path (avg : shape) (trans : list vec2)
    (waypoint_file : string)
    : result (option (option (list Q) * option (list Q))) :=
  if String.eqb waypoint_file "" then Ok None
  else
    let radius := (inject_Z (avg.2 / 2), inject_Z (avg.1 / 2)) in
    bind (normalise_column radius.1 (map fst trans)) (fun xs =>
    bind (normalise_column radius.2 (map snd trans)) (fun ys =>
    Ok (Some (xs, ys)))).

Lemma fold_min_spec (rest : list Q) : forall a : Q,
  let m := fold_left (fun m v => if Qltb v m then v else m) rest a in
  In m (a :: rest) /\ forall v, In v (a :: rest) -> m <= v.
Proof.
  induction rest as [|b rest IH]; intros a; cbn [fold_left].
  - split; [left; reflexivity|]. intros v [<- | []]. lra.
  - specialize (IH (if Qltb b a then b else a)). cbv zeta in IH.
    destruct IH as [Hin Hle]. case_Qltb b a.
    + split.
      * destruct Hin as [<- | Hin]; [right; left; reflexivity | right; right; exact Hin].
      * intros v [<- | [<- | Hv]].
        -- pose proof (Hle b (or_introl eq_refl)). lra.
        -- apply Hle. left. reflexivity.
        -- apply Hle. right. exact Hv.
    + split.
      * destruct Hin as [<- | Hin]; [left; reflexivity | right; right; exact Hin].
      * intros v [<- | [<- | Hv]].
        -- apply Hle. left. reflexivity.
        -- pose proof (Hle a (or_introl eq_refl)). lra.
        -- apply Hle. right. exact Hv.
Qed.

Lemma fold_max_spec (rest : list Q) : forall a : Q,
  let m := fold_left (fun m v => if Qltb m v then v else m) rest a in
  In m (a :: rest) /\ forall v, In v (a :: rest) -> v <= m.
Proof.
  induction rest as [|b rest IH]; intros a; cbn [fold_left].
  - split; [left; reflexivity|]. intros v [<- | []]. lra.
  - specialize (IH (if Qltb a b then b else a)). cbv zeta in IH.
    destruct IH as [Hin Hle]. case_Qltb a b.
    + split.
      * destruct Hin as [<- | Hin]; [right; left; reflexivity | right; right; exact Hin].
      * intros v [<- | [<- | Hv]].
        -- pose proof (Hle b (or_introl eq_refl)). lra.
        -- apply Hle. left. reflexivity.
        -- apply Hle. right. exact Hv.
    + split.
      * destruct Hin as [<- | Hin]; [left; reflexivity | right; right; exact Hin].
      * intros v [<- | [<- | Hv]].
        -- apply Hle. left. reflexivity.
        -- pose proof (Hle a (or_introl eq_refl)). lra.
        -- apply Hle. right. exact Hv.
Qed.

(** A column that holds two different values is mapped into
    [radius .. 2 radius], and both ends are reached. *)
Lemma normalise_column_range (radius : Q) (col : list Q) (a b : Q) :
  0 <= radius -> In a col -> In b col -> a < b ->
  exists out,
    normalise_column radius col = Ok (Some out) /\
    length out = length col /\
    (forall v, In v out -> radius <= v /\ v <= radius + radius) /\
    (exists v, In v out /\ v == radius) /\
    (exists v, In v out /\ v == radius + radius).
Proof.
  intros Hr Ha Hb Hab. unfold normalise_column.
  destruct col as [|c0 rest]; [destruct Ha|].
  cbn [array_min bind].
  destruct (fold_min_spec rest c0) as [Hmin_in Hmin_le].
  set (mn := fold_left _ rest c0) in *.
  set (shifted := map (fun v => v - mn) (c0 :: rest)).
  assert (Hsh : shifted = (c0 - mn) :: map (fun v => v - mn) rest) by reflexivity.
  rewrite Hsh. cbn [array_max bind].
  destruct (fold_max_spec (map (fun v => v - mn) rest) (c0 - mn)) as [Hmax_in Hmax_le].
  set (mx := fold_left _ (map (fun v => v - mn) rest) (c0 - mn)) in *.
  rewrite <- Hsh in *.
  assert (Hb_sh : In (b - mn) shifted) by (apply (in_map (fun v => v - mn)); exact Hb).
  assert (Hmx : 0 < mx).
  { pose proof (Hmax_le _ Hb_sh). pose proof (Hmin_le _ Ha). lra. }
  destruct (Qeq_bool mx 0) eqn:E; [apply Qeq_bool_iff in E; lra|].
  eexists. split; [reflexivity|]. split; [|split; [|split]].
  - subst shifted. rewrite !length_map. reflexivity.
  - intros v Hv. apply in_map_iff in Hv as (sv & <- & Hsv).
    pose proof (Hmax_le _ Hsv) as Hup.
    assert (Hlow : 0 <= sv).
    { subst shifted. apply in_map_iff in Hsv as (w & <- & Hw).
      pose proof (Hmin_le _ Hw). lra. }
    assert (H0 : 0 <= sv / mx) by (apply Qle_shift_div_l; lra).
    assert (H1 : sv / mx <= 1) by (apply Qle_shift_div_r; lra).
    set (q := sv / mx) in *. clearbody q. split; nra.
  - exists ((mn - mn) / mx * radius + radius). split.
    + apply (in_map (fun v => v / mx * radius + radius)).
      subst shifted. apply (in_map (fun v => v - mn)). exact Hmin_in.
    + field. lra.
  - exists (mx / mx * radius + radius). split.
    + apply (in_map (fun v => v / mx * radius + radius)). exact Hmax_in.
    + field. lra.
Qed.

(** X5: when a way-point file is configured and the frames did not all
    stay in place along either axis, the path drawn by
    [write_average_with_path] lies in the quadrant
    [w/2 .. 2(w/2)] x [h/2 .. 2(h/2)] of the image (halves rounded down)
    and touches both ends of it along each axis. *)
Theorem write_average_with_path_quadrant (avg : shape) (trans : list vec2)
    (waypoint_file : string) (p q : vec2) :
  waypoint_file <> ""%string ->
  (0 <= avg.1)%Z -> (0 <= avg.2)%Z ->
  In p trans -> In q trans -> p.1 < q.1 ->
  (exists p' q', In p' trans /\ In q' trans /\ p'.2 < q'.2) ->
  let rx := inject_Z (avg.2 / 2) in
  let ry := inject_Z (avg.1 / 2) in
  exists xs ys,
    write_average_with_path avg trans waypoint_file = Ok (Some (Some xs, Some ys)) /\
    length xs = length trans /\ length ys = length trans /\
    (forall v, In v xs -> rx <= v /\ v <= rx + rx) /\
    (forall v, In v ys -> ry <= v /\ v <= ry + ry) /\
    (exists v, In v xs /\ v == rx) /\ (exists v, In v xs /\ v == rx + rx) /\
    (exists v, In v ys /\ v == ry) /\ (exists v, In v ys /\ v == ry + ry).
Proof.
  intros Hfile Hh Hw Hp Hq Hpq (p' & q' & Hp' & Hq' & Hpq') rx ry.
  assert (Hrx : 0 <= rx).
  { subst rx. change 0 with (inject_Z 0). rewrite <- Zle_Qle.
    apply Z.div_pos; lia. }
  assert (Hry : 0 <= ry).
  { subst ry. change 0 with (inject_Z 0). rewrite <- Zle_Qle.
    apply Z.div_pos; lia. }
  destruct (normalise_column_range rx (map fst trans) p.1 q.1 Hrx
              (in_map fst _ _ Hp) (in_map fst _ _ Hq) Hpq)
    as (xs & Hxs & Hlx & Hbx & Hx0 & Hx1).
  destruct (normalise_column_range ry (map snd trans) p'.2 q'.2 Hry
              (in_map snd _ _ Hp') (in_map snd _ _ Hq') Hpq')
    as (ys & Hys & Hly & Hby & Hy0 & Hy1).
  exists xs, ys. unfold write_average_with_path.
  destruct (String.eqb_spec waypoint_file "") as [Heq | _]; [contradiction|].
  cbn [fst snd]. fold rx ry. rewrite Hxs. cbn [bind]. rewrite Hys. cbn [bind].
  rewrite length_map in Hlx, Hly. repeat split; try assumption; try apply Hbx; try apply Hby;
    assumption.
Qed.

End Waypoints.

Lemma write_average_with_path_quadrant_witness :
  let rx := inject_Z (20 / 2) in
  let ry := inject_Z (10 / 2) in
  exists xs ys,
    write_average_with_path (10, 20)%Z [(0, 0); (3, -2); (5, 1)]%Q "path.png"
      = Py.Ok (Some (Some xs, Some ys)) /\
    length xs = 3%nat /\ length ys = 3%nat /\
    (forall v, In v xs -> rx <= v /\ v <= rx + rx)%Q /\
    (forall v, In v ys -> ry <= v /\ v <= ry + ry)%Q /\
    (exists v, In v xs /\ v == rx)%Q /\ (exists v, In v xs /\ v == rx + rx)%Q /\
    (exists v, In v ys /\ v == ry)%Q /\ (exists v, In v ys /\ v == ry + ry)%Q.
Proof.
  apply (write_average_with_path_quadrant (10, 20)%Z [(0, 0); (3, -2); (5, 1)]%Q
           "path.png" (0, 0)%Q (3, -2)%Q).
  - discriminate.
  - cbn; lia.
  - cbn; lia.
  - left; reflexivity.
  - right; left; reflexivity.
  - reflexivity.
  - exists (3, -2)%Q, (5, 1)%Q. split; [right; left; reflexivity|].
    split; [right; right; left; reflexivity | reflexivity].
Defined.

(** ** The crop of [fft_in_memory] *)

Section Crop.

Import Py PySlices.

(** [frame.shape] of a two-dimensional array held as a list of rows. *)
Definition frame_shape (frame : list (list Q)) : shape :=
  (Z.of_nat (length frame), Z.of_nat (length (hd [] frame))).

(** [x, y, w, h = get_window(frame, crop); frame[y:y+h, x:x+w]] *)
Definition crop_frame (frame : list (list Q)) (crop : list Z) : list (list Q) :=
  let '(x, y, w, h) := get_window (frame_shape frame) crop in
  map (fun row => slice row x (x + w)) (slice frame y (y + h)).

(** Every row of a frame has as many entries as the first. *)
Definition rectangular (frame : list (list Q)) : Prop :=
  Forall (fun row => length row = length (hd [] frame)) frame.

(** X6: with the default of the [crop] option, [[0, 0, -1, -1]], and with
    an empty crop list, the crop made by [fft_in_memory] keeps the whole
    frame. *)
Theorem crop_default_keeps_frame (frame : list (list Q)) :
  rectangular frame ->
  crop_frame frame [0; 0; -1; -1] = frame /\ crop_frame frame [] = frame.
Proof.
  intros Hrect.
  assert (Hcrop : map (fun row => slice row 0 (0 + Z.of_nat (length (hd [] frame))))
                    (slice frame 0 (0 + Z.of_nat (length frame))) = frame).
  { rewrite !Z.add_0_l, slice_all. unfold rectangular in Hrect.
    set (W := length (hd [] frame)) in *. clearbody W.
    induction Hrect as [|row rest Hrow _ IH]; [reflexivity|]. cbn [map]. f_equal.
    - rewrite <- Hrow. apply slice_all.
    - exact IH. }
  split; exact Hcrop.
Qed.

(** X7: a crop window that lies inside the frame is cut out as asked: the
    result has [h] rows of [w] entries, and its entry (r, c) is the entry
    (y + r, x + c) of the frame. *)
Theorem crop_inside_frame (frame : list (list Q)) (x y w h : Z) :
  rectangular frame ->
  0 <= x -> 0 <= w -> x + w <= Z.of_nat (length (hd [] frame)) ->
  0 <= y -> 0 <= h -> y + h <= Z.of_nat (length frame) ->
  let cut := crop_frame frame [x; y; w; h] in
  length cut = Z.to_nat h /\
  forall (r : nat) (row : list Q),
    cut !! r = Some row ->
    length row = Z.to_nat w /\
    exists full,
      frame !! (Z.to_nat y + r)%nat = Some full /\
      forall c : nat, Z.of_nat c < w -> row !! c = full !! (Z.to_nat x + c)%nat.
Proof.
  intros Hrect Hx Hw Hxw Hy Hh Hyh cut. subst cut. unfold crop_frame.
  rewrite get_window_four.
  destruct (Z.eqb_spec w (-1)); [lia|]. destruct (Z.eqb_spec h (-1)); [lia|].
  split.
  - rewrite length_map, slice_inside_length by lia. f_equal. lia.
  - intros r row Hrow. rewrite list_lookup_fmap in Hrow.
    destruct (slice frame y (y + h) !! r) as [full|] eqn:Hfull; [|discriminate].
    cbn in Hrow. injection Hrow as <-.
    assert (Hr : Z.of_nat r < (y + h) - y).
    { apply lookup_lt_Some in Hfull.
      rewrite slice_inside_length in Hfull by lia. lia. }
    rewrite slice_inside_lookup in Hfull by lia.
    assert (Hlen : length full = length (hd [] frame)).
    { unfold rectangular in Hrect. rewrite Forall_forall in Hrect.
      apply Hrect. eapply list_elem_of_lookup_2. exact Hfull. }
    split.
    + rewrite slice_inside_length by lia. f_equal. lia.
    + exists full. split; [exact Hfull|].
      intros c Hc. apply slice_inside_lookup; lia.
Qed.

End Crop.

Lemma crop_default_keeps_frame_witness :
  crop_frame [[1; 2; 3]; [4; 5; 6]]%Q [0; 0; -1; -1] = [[1; 2; 3]; [4; 5; 6]]%Q /\
  crop_frame [[1; 2; 3]; [4; 5; 6]]%Q [] = [[1; 2; 3]; [4; 5; 6]]%Q.
Proof.
  apply (crop_default_keeps_frame [[1; 2; 3]; [4; 5; 6]]%Q).
  repeat constructor.
Defined.

Lemma crop_inside_frame_witness :
  let cut := crop_frame [[1; 2; 3]; [4; 5; 6]]%Q [1; 1; 2; 1] in
  length cut = Z.to_nat 1 /\
  forall (r : nat) (row : list Q),
    cut !! r = Some row ->
    length row = Z.to_nat 2 /\
    exists full,
      [[1; 2; 3]; [4; 5; 6]]%Q !! (Z.to_nat 1 + r)%nat = Some full /\
      forall c : nat, Z.of_nat c < 2 -> row !! c = full !! (Z.to_nat 1 + c)%nat.
Proof.
  apply (crop_inside_frame [[1; 2; 3]; [4; 5; 6]]%Q 1 1 2 1);
    first [lia | cbn; lia | repeat constructor].
Defined.

End AlignFrames.

(* ===================================================================== *)
(** * Particle cleaning: [arachnid/app/diffclean.py] *)
(* ===================================================================== *)

Module DiffClean.

Import Py.

(** ** Labels, alignment records and view groups *)

(** The particle labels come in two styles: a pair of a stack file name and
    an integer array with one (file ID, slice ID) row per particle, or a
    plain Python list with one (file name, index) entry per particle. *)
Inductive labels : Type :=
| TupleLabel (filename : string) (label : list (Z * Z))
| ListLabel (label : list (string * Z)).

(** One alignment record: a row of the alignment array. *)
Definition align_row : Type := list Q.

(** A view group: (view, selected label, selected align). *)
Definition view_group : Type := (Z * labels * list align_row)%type.

(** ** numpy primitives used by [group_by_reference] *)

Fixpoint insert_unique (r : Z) (l : list Z) : list Z :=
  match l with
  | [] => [r]
  | a :: l' =>
      if r <? a then r :: l
      else if r =? a then l
      else a :: insert_unique r l'
  end.

(** [numpy.unique]: the distinct values, in increasing order. *)
Definition unique (ref : list Z) : list Z := foldr insert_unique [] ref.

(** [numpy.sum(sel)] on a boolean array. *)
Fixpoint count_true (sel : list bool) : nat :=
  match sel with
  | [] => 0%nat
  | b :: sel' => ((if b then 1 else 0) + count_true sel')%nat
  end.

(** Indexing by a boolean mask, [a[sel]]. *)
Fixpoint mask_select {A : Type} (sel : list bool) (a : list A) : list A :=
  match sel, a with
  | b :: sel', x :: a' =>
      if b then x :: mask_select sel' a' else mask_select sel' a'
  | _, _ => []
  end.

(** [numpy.argwhere(sel)] on a one-dimensional mask: the column of the
    positions that hold [True] (an array of shape (k, 1)). *)
Fixpoint argwhere_from (i : nat) (sel : list bool) : list nat :=
  match sel with
  | [] => []
  | b :: sel' =>
      if b then i :: argwhere_from (S i) sel' else argwhere_from (S i) sel'
  end.

Definition argwhere (sel : list bool) : list nat := argwhere_from 0 sel.

(** What [squeeze()] makes of a (k, 1) column: every axis of length one is
    dropped, so one row leaves a zero-dimensional array and any other
    number of rows leaves a one-dimensional one. *)
Inductive squeezed : Type :=
| Array0d (i : nat)
| Array1d (l : list nat).

Definition squeeze (column : list nat) : squeezed :=
  match column with
  | [i] => Array0d i
  | _ => Array1d column
  end.

(** Iterating an array: numpy refuses to iterate a zero-dimensional one
    ("iteration over a 0-d array"). *)
Definition iterate (a : squeezed) : result (list nat) :=
  match a with
  | Array0d _ => Raise TypeError
  | Array1d l => Ok l
  end.

Fixpoint mapM {A B : Type} (f : A -> result B) (l : list A) : result (list B) :=
  match l with
  | [] => Ok []
  | a :: l' => bind (f a) (fun b => bind (mapM f l') (fun bs => Ok (b :: bs)))
  end.

(** [label[i]] on a Python list. *)
Definition list_item {A : Type} (l : list A) (i : nat) : result A :=
  match l !! i with
  | Some a => Ok a
  | None => Raise IndexError
  end.

(** ** [group_by_reference] *)

(** The three inputs hold one entry per particle.  The dictionary
    [stack_count] of the list branch only feeds a log line and is left
    out. *)
Definition group_by_reference (label : labels) (align : list align_row)
    (ref : list Z) : result (list view_group) :=
  let refs := unique ref in
  match label with
  | TupleLabel filename label =>
      Ok (map (fun r =>
                 let sel := map (Z.eqb r) ref in
                 (r, TupleLabel filename (mask_select sel label), mask_select sel align))
              refs)
  | ListLabel label =>
      mapM (fun r =>
              let sel := map (Z.eqb r) ref in
              bind (iterate (squeeze (argwhere sel))) (fun idx =>
              bind (mapM (list_item label) idx) (fun chosen =>
              Ok (r, ListLabel chosen, mask_select sel align))))
           refs
  end.

(** The number of particles of a group, as [init_root] counts them. *)
Definition group_count (g : view_group) : nat :=
  match g.1.2 with
  | TupleLabel _ label => length label
  | ListLabel label => length label
  end.

(** ** The view selection of [init_root] *)

(** [numpy.argsort(count)]: the positions of [count], ordered by the value
    they hold, and positions that hold the same value in their own order
    (as the insertion sort that numpy runs on a short array leaves them). *)
Definition count_le (count : list nat) (i j : nat) : Prop :=
  (count !!! i < count !!! j \/ (count !!! i = count !!! j /\ i <= j))%nat.

#[local] Instance count_le_dec (count : list nat) (i j : nat) :
  Decision (count_le count i j).
Proof. unfold count_le. apply _. Defined.

Definition argsort (count : list nat) : list nat :=
  merge_sort (count_le count) (seq 0 (length count)).

(** The part of [init_root] that decides which views are processed: either
    the single view that was asked for, or the views that pass the size
    test, largest first. *)
Definition select_views (single_view : Z) (group : list view_group) : result (list view_group) :=
  if 0 <? single_view then
    bind (list_item group (Z.to_nat (single_view - 1))) (fun g => Ok [g])
  else
    let count := group_count <$> group in
    let index := argsort count in
    Ok (omap (fun i => if (20 <? count !!! i)%nat then group !! i else None)
             (reverse index)).

(** [init_root], from the alignment read by [read_alignment] to the list of
    view groups it returns.  The reference images, projections or volume it
    also prepares do not enter that list. *)
Definition init_root (single_view : Z) (label : labels) (align : list align_row)
    (ref : list Z) : result (list view_group) :=
  bind (group_by_reference label align ref) (select_views single_view).

(** ** Facts about the numpy primitives *)

Section GroupingFacts.

Lemma elem_of_insert_unique (r : Z) (l : list Z) (x : Z) :
  x ∈ insert_unique r l <-> x = r \/ x ∈ l.
Proof.
  induction l as [|a l IH]; cbn.
  - rewrite list_elem_of_singleton. set_solver.
  - destruct (Z.ltb_spec r a); [set_solver|].
    destruct (Z.eqb_spec r a); [set_solver|].
    rewrite !elem_of_cons, IH. tauto.
Qed.

Lemma elem_of_unique (ref : list Z) (x : Z) : x ∈ unique ref <-> x ∈ ref.
Proof.
  unfold unique. induction ref as [|r ref IH]; cbn; [reflexivity|].
  rewrite elem_of_insert_unique, elem_of_cons, IH. reflexivity.
Qed.

Lemma insert_unique_sorted (r : Z) (l : list Z) :
  StronglySorted Z.lt l -> StronglySorted Z.lt (insert_unique r l).
Proof.
  induction 1 as [|a l Hl IH Ha]; cbn.
  - repeat constructor.
  - destruct (Z.ltb_spec r a) as [Hlt | Hge].
    + constructor; [constructor; assumption|].
      constructor; [exact Hlt|]. eapply Forall_impl; [exact Ha|]. cbn. lia.
    + destruct (Z.eqb_spec r a) as [-> | Hne]; [constructor; assumption|].
      constructor; [exact IH|].
      apply Forall_forall. intros x Hx. apply elem_of_insert_unique in Hx as [-> | Hx].
      * lia.
      * rewrite Forall_forall in Ha. apply Ha. exact Hx.
Qed.

(** [unique] returns its values in strictly increasing order. *)
Lemma unique_increasing (ref : list Z) : StronglySorted Z.lt (unique ref).
Proof.
  unfold unique. induction ref as [|r ref IH]; cbn; [constructor|].
  apply insert_unique_sorted. exact IH.
Qed.

Lemma increasing_NoDup (l : list Z) : StronglySorted Z.lt l -> NoDup l.
Proof.
  induction 1 as [|a l _ IH Ha]; constructor; [|exact IH].
  intros Hin. rewrite Forall_forall in Ha. specialize (Ha _ Hin). lia.
Qed.

Lemma unique_NoDup (ref : list Z) : NoDup (unique ref).
Proof. apply increasing_NoDup, unique_increasing. Qed.

(** The number of particles that [ref] assigns to the view [r]. *)
Definition members (r : Z) (ref : list Z) : nat := count_true (map (Z.eqb r) ref).

Lemma length_mask_select {A : Type} (sel : list bool) : forall a : list A,
  length a = length sel -> length (mask_select sel a) = count_true sel.
Proof.
  induction sel as [|b sel IH]; intros [|x a] Hlen; cbn in *; try discriminate;
    [reflexivity|].
  destruct b; cbn; rewrite IH by congruence; reflexivity.
Qed.

Lemma length_argwhere_from (sel : list bool) : forall i : nat,
  length (argwhere_from i sel) = count_true sel.
Proof.
  induction sel as [|b sel IH]; intros i; cbn; [reflexivity|].
  destruct b; cbn; rewrite IH; reflexivity.
Qed.

(** Picking the entries at the positions of [argwhere] is indexing by the
    mask. *)
Lemma mapM_list_item_argwhere {A : Type} (label : list A) (sel : list bool) :
  forall i : nat,
  length label = (i + length sel)%nat ->
  mapM (list_item label) (argwhere_from i sel) = Ok (mask_select sel (drop i label)).
Proof.
  induction sel as [|b sel IH]; intros i Hlen; cbn [argwhere_from length] in *.
  - destruct (drop i label); reflexivity.
  - destruct (lookup_lt_is_Some_2 label i) as [x Hx]; [lia|].
    rewrite (drop_S _ _ _ Hx). cbn [mask_select].
    destruct b.
    + cbn [mapM]. unfold list_item at 1. rewrite Hx. cbn [bind].
      rewrite IH by lia. reflexivity.
    + apply IH. lia.
Qed.

Lemma mapM_all_ok {A B : Type} (f : A -> result B) (g : A -> B) (l : list A) :
  (forall x, x ∈ l -> f x = Ok (g x)) -> mapM f l = Ok (map g l).
Proof.
  induction l as [|a l IH]; intros Hall; cbn; [reflexivity|].
  rewrite (Hall a) by set_solver. cbn. rewrite IH by set_solver. reflexivity.
Qed.

Lemma mapM_raise {A B : Type} (f : A -> result B) (g : A -> B) (e : exn) (l : list A) :
  (forall x, x ∈ l -> f x = Ok (g x) \/ f x = Raise e) ->
  (exists x, x ∈ l /\ f x = Raise e) ->
  mapM f l = Raise e.
Proof.
  induction l as [|a l IH]; intros Hall (x & Hx & Hfx); [set_solver|].
  cbn. destruct (Hall a) as [Ha | Ha]; [set_solver | | rewrite Ha; reflexivity].
  rewrite Ha. cbn. rewrite IH; [reflexivity | set_solver |].
  apply elem_of_cons in Hx as [-> | Hx]; [congruence|]. exists x. tauto.
Qed.

Lemma sum_list_fmap_add {A : Type} (f g : A -> nat) (l : list A) :
  sum_list (map (fun x => (f x + g x)%nat) l)
  = (sum_list (map f l) + sum_list (map g l))%nat.
Proof. induction l as [|a l IH]; cbn; [reflexivity | lia]. Qed.

Lemma sum_list_indicator (x : Z) (l : list Z) :
  NoDup l -> x ∈ l ->
  sum_list (map (fun r => if r =? x then 1%nat else 0%nat) l) = 1%nat.
Proof.
  induction 1 as [|a l Ha _ IH]; intros Hx; [set_solver|]. cbn.
  destruct (Z.eqb_spec a x) as [-> | Hne].
  - assert (Hz : sum_list (map (fun r => if r =? x then 1%nat else 0%nat) l) = 0%nat).
    { clear IH Hx. induction l as [|b l IHl]; cbn; [reflexivity|].
      destruct (Z.eqb_spec b x) as [-> | _]; [set_solver|].
      rewrite IHl by set_solver. reflexivity. }
    rewrite Hz. reflexivity.
  - rewrite IH by set_solver. reflexivity.
Qed.

(** Over a duplicate-free list of views that covers [ref], the member
    counts add up to the number of particles. *)
Lemma sum_members (views ref : list Z) :
  NoDup views -> (forall x, x ∈ ref -> x ∈ views) ->
  sum_list (map (fun r => members r ref) views) = length ref.
Proof.
  intros Hnd. induction ref as [|x ref IH]; intros Hcover.
  - unfold members. cbn. clear Hnd Hcover.
    induction views as [|r views IHv]; cbn; [reflexivity | exact IHv].
  - unfold members in *. cbn [map count_true length].
    rewrite (sum_list_fmap_add (fun r => if r =? x then 1%nat else 0%nat)
               (fun r => count_true (map (Z.eqb r) ref))).
    rewrite sum_list_indicator by set_solver.
    rewrite IH by set_solver. reflexivity.
Qed.

Lemma iterate_squeeze (column : list nat) :
  iterate (squeeze column) =
  if (length column =? 1)%nat then Raise TypeError else Ok column.
Proof. destruct column as [|i [|j column]]; reflexivity. Qed.

Lemma members_elem_of (r : Z) (ref : list Z) : (0 < members r ref)%nat -> r ∈ ref.
Proof.
  unfold members. induction ref as [|x ref IH]; cbn; [lia|].
  destruct (Z.eqb_spec r x) as [-> | _]; [set_solver|].
  intros Hpos. apply elem_of_cons. right. apply IH. exact Hpos.
Qed.

(** The group a view should get: the view with the labels and alignment
    records of its members. *)
Definition tuple_group (filename : string) (label : list (Z * Z))
    (align : list align_row) (ref : list Z) (r : Z) : view_group :=
  let sel := map (Z.eqb r) ref in
  (r, TupleLabel filename (mask_select sel label), mask_select sel align).

Definition list_group (label : list (string * Z))
    (align : list align_row) (ref : list Z) (r : Z) : view_group :=
  let sel := map (Z.eqb r) ref in
  (r, ListLabel (mask_select sel label), mask_select sel align).

(** The list branch, one view at a time: the group, unless the view has
    exactly one member. *)
Lemma list_view_outcome (label : list (string * Z)) (align : list align_row)
    (ref : list Z) (r : Z) :
  length label = length ref ->
  bind (iterate (squeeze (argwhere (map (Z.eqb r) ref)))) (fun idx =>
  bind (mapM (list_item label) idx) (fun chosen =>
  Ok (r, ListLabel chosen, mask_select (map (Z.eqb r) ref) align)))
  = if (members r ref =? 1)%nat then Raise TypeError
    else Ok (list_group label align ref r).
Proof.
  intros Hlen. rewrite iterate_squeeze. unfold argwhere.
  rewrite length_argwhere_from. fold (members r ref).
  destruct (members r ref =? 1)%nat; [reflexivity|]. cbn [bind].
  rewrite mapM_list_item_argwhere by (rewrite length_map; exact Hlen).
  reflexivity.
Qed.

(** Tuple-style labels are always grouped. *)
Lemma group_by_reference_tuple (filename : string) (label : list (Z * Z))
    (align : list align_row) (ref : list Z) :
  group_by_reference (TupleLabel filename label) align ref
  = Ok (map (tuple_group filename label align ref) (unique ref)).
Proof. reflexivity. Qed.

(** List-style labels are grouped when no view has exactly one member. *)
Lemma group_by_reference_list (label : list (string * Z))
    (align : list align_row) (ref : list Z) :
  length label = length ref ->
  (forall r, members r ref <> 1%nat) ->
  group_by_reference (ListLabel label) align ref
  = Ok (map (list_group label align ref) (unique ref)).
Proof.
  intros Hlen Hno. unfold group_by_reference. apply mapM_all_ok.
  intros r _. rewrite list_view_outcome by exact Hlen.
  destruct (Nat.eqb_spec (members r ref) 1) as [Hone | _]; [|reflexivity].
  exfalso. exact (Hno r Hone).
Qed.

(** X8: for list-style labels, as soon as one view has exactly one member
    [group_by_reference] returns no group at all: it raises [TypeError]. *)
Lemma group_by_reference_list_singleton (label : list (string * Z))
    (align : list align_row) (ref : list Z) (r : Z) :
  length label = length ref ->
  members r ref = 1%nat ->
  group_by_reference (ListLabel label) align ref = Raise TypeError.
Proof.
  intros Hlen Hone. unfold group_by_reference.
  apply (mapM_raise _ (list_group label align ref)).
  - intros r' _. rewrite list_view_outcome by exact Hlen.
    destruct (members r' ref =? 1)%nat; [right | left]; reflexivity.
  - exists r. split.
    + apply elem_of_unique, members_elem_of. lia.
    + rewrite list_view_outcome by exact Hlen. rewrite Hone. reflexivity.
Qed.

(** Where [group_by_reference] returns, it returns a partition: one group
    for each view that occurs, holding the particles of that view, and the
    group sizes add up to the number of particles. *)
Lemma grouped_sizes_add_up (mk : Z -> view_group) (n : nat) (ref : list Z) :
  length ref = n ->
  (forall r, group_count (mk r) = members r ref) ->
  sum_list (map group_count (map mk (unique ref))) = n.
Proof.
  intros Hn Hmk. rewrite map_map.
  rewrite (map_ext _ (fun r => members r ref)) by exact Hmk.
  rewrite sum_members; [exact Hn | apply unique_NoDup |].
  intros x Hx. apply elem_of_unique. exact Hx.
Qed.

(** X9: for tuple-style labels [group_by_reference] returns a partition:
    one group for each view that occurs, no view twice, each group holding
    the labels and alignment records of the particles of its view in their
    order, and the group sizes add up to the number of particles. *)
Lemma group_by_reference_tuple_partition (filename : string) (label : list (Z * Z))
    (align : list align_row) (ref : list Z) :
  length label = length ref ->
  exists groups,
    group_by_reference (TupleLabel filename label) align ref = Ok groups /\
    NoDup (map (fun g : view_group => g.1.1) groups) /\
    (forall g, g ∈ groups -> g = tuple_group filename label align ref g.1.1) /\
    sum_list (map group_count groups) = length label.
Proof.
  intros Hlen. eexists. split; [apply group_by_reference_tuple|].
  split; [|split].
  - rewrite map_map. cbn. rewrite map_id. apply unique_NoDup.
  - intros g Hg. apply list_elem_of_In, in_map_iff in Hg as (r & <- & _). reflexivity.
  - apply grouped_sizes_add_up; [symmetry; exact Hlen|].
    intros r. cbn. apply length_mask_select. rewrite length_map. exact Hlen.
Qed.

(** X10: the same partition is returned for list-style labels, provided no
    view has exactly one member. *)
Lemma group_by_reference_list_partition (label : list (string * Z))
    (align : list align_row) (ref : list Z) :
  length label = length ref ->
  (forall r, members r ref <> 1%nat) ->
  exists groups,
    group_by_reference (ListLabel label) align ref = Ok groups /\
    NoDup (map (fun g : view_group => g.1.1) groups) /\
    (forall g, g ∈ groups -> g = list_group label align ref g.1.1) /\
    sum_list (map group_count groups) = length label.
Proof.
  intros Hlen Hno. eexists. split; [apply group_by_reference_list; assumption|].
  split; [|split].
  - rewrite map_map. cbn. rewrite map_id. apply unique_NoDup.
  - intros g Hg. apply list_elem_of_In, in_map_iff in Hg as (r & <- & _). reflexivity.
  - apply grouped_sizes_add_up; [symmetry; exact Hlen|].
    intros r. cbn. apply length_mask_select. rewrite length_map. exact Hlen.
Qed.

End GroupingFacts.

(** ** Properties of the grouping and of the view selection *)

Section Grouping.

Local Open Scope string_scope.

Example unique_sorted : unique [9; 7; 9; 7; 8] = [7; 8; 9].
Proof. reflexivity. Qed.

Example squeeze_two : iterate (squeeze (argwhere [true; false; true])) = Ok [0; 2]%nat.
Proof. reflexivity. Qed.

Example squeeze_one : iterate (squeeze (argwhere [false; false; true])) = Raise TypeError.
Proof. reflexivity. Qed.

(** A tuple-style data set of three particles, two in view 7 and one in
    view 9, is split into the two views. *)
Example group_by_reference_tuple_run :
  group_by_reference (TupleLabel "win_0001.spi" [(1, 0); (1, 1); (1, 2)])
    [[0%Q]; [1%Q]; [2%Q]] [7; 7; 9] =
  Ok [(7, TupleLabel "win_0001.spi" [(1, 0); (1, 1)], [[0%Q]; [1%Q]]);
      (9, TupleLabel "win_0001.spi" [(1, 2)], [[2%Q]])].
Proof. reflexivity. Qed.

(** C2 (the code fails the claim): the same three particles given as a
    list-style label.  View 9 holds exactly one particle, [squeeze] turns
    its index column into a zero-dimensional array, and the comprehension
    over it raises instead of producing the group. *)
Theorem group_by_reference_list_singleton_raises :
  group_by_reference
    (ListLabel [("win_0001.spi", 0); ("win_0001.spi", 1); ("win_0001.spi", 2)])
    [[0%Q]; [1%Q]; [2%Q]] [7; 7; 9] = Raise TypeError.
Proof. reflexivity. Qed.

(** [argsort] returns every position once. *)
Lemma elem_of_argsort (count : list nat) (i : nat) :
  i ∈ argsort count <-> (i < length count)%nat.
Proof.
  unfold argsort. rewrite merge_sort_Permutation, elem_of_seq. lia.
Qed.

(** X11: without a forced single view, the views that [init_root] keeps
    are exactly the views of more than 20 particles. *)
Lemma select_views_kept (single_view : Z) (group : list view_group) :
  single_view <= 0 ->
  exists kept,
    select_views single_view group = Ok kept /\
    forall g, g ∈ kept <-> g ∈ group /\ (20 < group_count g)%nat.
Proof.
  intros Hsv. unfold select_views.
  destruct (Z.ltb_spec 0 single_view) as [Hlt | _]; [lia|].
  eexists. split; [reflexivity|]. intros g. rewrite list_elem_of_omap. split.
  - intros (i & _ & Hi).
    destruct (Nat.ltb_spec 20 ((group_count <$> group) !!! i)) as [Hbig | _];
      [|discriminate].
    split; [eapply list_elem_of_lookup_2; exact Hi|].
    erewrite list_lookup_total_correct in Hbig; [exact Hbig|].
    rewrite list_lookup_fmap, Hi. reflexivity.
  - intros [Hin Hbig]. apply list_elem_of_lookup_1 in Hin as [i Hi].
    exists i. split.
    + rewrite elem_of_reverse, elem_of_argsort, length_fmap.
      eapply lookup_lt_Some. exact Hi.
    + erewrite list_lookup_total_correct;
        [|rewrite list_lookup_fmap, Hi; reflexivity].
      destruct (Nat.ltb_spec 20 (group_count g)); [exact Hi | lia].
Qed.

(** A data set with three views: view 3 with 20 particles, view 5 with 21
    and view 8 with 19. *)
Definition three_views_label : labels :=
  TupleLabel "win_0001.spi" (map (fun i => (1, Z.of_nat i)) (seq 0 60)).

Definition three_views_align : list align_row := replicate 60 [].

Definition three_views_ref : list Z :=
  replicate 20 3 ++ replicate 21 5 ++ replicate 19 8.

Example three_views_grouped :
  exists group,
    group_by_reference three_views_label three_views_align three_views_ref = Ok group /\
    map (fun g : view_group => (g.1.1, group_count g)) group =
    [(3, 20%nat); (5, 21%nat); (8, 19%nat)].
Proof. eexists. split; reflexivity. Qed.

(** C3 (the code fails the claim): the view with exactly 20 particles is
    dropped together with the view of 19; only the view with 21 particles
    is handed on to the per-view processing. *)
Theorem init_root_drops_view_of_twenty :
  exists kept,
    init_root 0 three_views_label three_views_align three_views_ref = Ok kept /\
    map (fun g : view_group => (g.1.1, group_count g)) kept = [(5, 21%nat)].
Proof. eexists. split; vm_compute; reflexivity. Qed.

End Grouping.

(** ** More on the grouping and on the view selection *)

Section Views.

Local Open Scope string_scope.

Lemma group_by_reference_list_singleton_witness :
  group_by_reference
    (ListLabel [("win_0001.spi", 0); ("win_0001.spi", 1); ("win_0002.spi", 0)])
    [[0%Q]; [1%Q]; [2%Q]] [4; 2; 4] = Raise TypeError.
Proof.
  apply (group_by_reference_list_singleton
           [("win_0001.spi", 0); ("win_0001.spi", 1); ("win_0002.spi", 0)]
           [[0%Q]; [1%Q]; [2%Q]] [4; 2; 4] 2); reflexivity.
Defined.

Lemma group_by_reference_tuple_partition_witness :
  exists groups,
    group_by_reference (TupleLabel "win_0001.spi" [(1, 0); (1, 1); (1, 2)])
      [[0%Q]; [1%Q]; [2%Q]] [7; 9; 7] = Ok groups /\
    NoDup (map (fun g : view_group => g.1.1) groups) /\
    (forall g, g ∈ groups ->
       g = tuple_group "win_0001.spi" [(1, 0); (1, 1); (1, 2)]
             [[0%Q]; [1%Q]; [2%Q]] [7; 9; 7] g.1.1) /\
    sum_list (map group_count groups) = 3%nat.
Proof.
  apply (group_by_reference_tuple_partition "win_0001.spi" [(1, 0); (1, 1); (1, 2)]
           [[0%Q]; [1%Q]; [2%Q]] [7; 9; 7]).
  reflexivity.
Defined.

Lemma group_by_reference_list_partition_witness :
  exists groups,
    group_by_reference
      (ListLabel [("a.spi", 0); ("a.spi", 1); ("b.spi", 0); ("b.spi", 1)])
      [[0%Q]; [1%Q]; [2%Q]; [3%Q]] [7; 9; 7; 9] = Ok groups /\
    NoDup (map (fun g : view_group => g.1.1) groups) /\
    (forall g, g ∈ groups ->
       g = list_group [("a.spi", 0); ("a.spi", 1); ("b.spi", 0); ("b.spi", 1)]
             [[0%Q]; [1%Q]; [2%Q]; [3%Q]] [7; 9; 7; 9] g.1.1) /\
    sum_list (map group_count groups) = 4%nat.
Proof.
  apply (group_by_reference_list_partition
           [("a.spi", 0); ("a.spi", 1); ("b.spi", 0); ("b.spi", 1)]
           [[0%Q]; [1%Q]; [2%Q]; [3%Q]] [7; 9; 7; 9]).
  - reflexivity.
  - intros r Hone. unfold members in Hone. cbn in Hone.
    destruct (r =? 7)%Z; destruct (r =? 9)%Z; cbn in Hone; discriminate.
Defined.

Lemma select_views_kept_witness :
  exists kept,
    select_views 0 [(3, ListLabel [], []); (5, TupleLabel "w" (replicate 21 (1, 0)), [])]
      = Ok kept /\
    forall g, g ∈ kept <->
      g ∈ [(3, ListLabel [], []); (5, TupleLabel "w" (replicate 21 (1, 0)), [])] /\
      (20 < group_count g)%nat.
Proof.
  apply (select_views_kept 0
           [(3, ListLabel [], []); (5, TupleLabel "w" (replicate 21 (1, 0)), [])]).
  lia.
Defined.

(** *** The order of the views *)

#[local] Instance count_le_total (count : list nat) : Total (count_le count).
Proof. intros i j. unfold count_le. lia. Qed.

#[local] Instance count_ge_trans (count : list nat) : Transitive (flip (count_le count)).
Proof. intros i j k. unfold flip, count_le. lia. Qed.

Lemma omap_fmap {A B C : Type} (f : B -> option C) (g : A -> B) (l : list A) :
  omap f (g <$> l) = omap (fun x => f (g x)) l.
Proof.
  induction l as [|a l IH]; [reflexivity|]. cbn. rewrite IH. reflexivity.
Qed.

(** Picking entries of a list by their position, in order, gives a
    sublist. *)
Lemma omap_lookup_sublist {A : Type} (l : list A) : forall P : nat -> bool,
  omap (fun i => if P i then l !! i else None) (seq 0 (length l)) `sublist_of` l.
Proof.
  induction l as [|a l IH]; intros P; [constructor|].
  cbn [length seq]. rewrite <- fmap_S_seq. cbn [omap list_omap].
  rewrite omap_fmap. cbn [lookup list_lookup].
  destruct (P 0%nat); cbn.
  - apply sublist_skip. apply (IH (fun i => P (S i))).
  - apply sublist_cons. apply (IH (fun i => P (S i))).
Qed.

Lemma StronglySorted_omap {A B : Type} (R : relation A) (S : relation B)
    (f : A -> option B) (l : list A) :
  (forall x y x' y', R x y -> f x = Some x' -> f y = Some y' -> S x' y') ->
  StronglySorted R l -> StronglySorted S (omap f l).
Proof.
  intros Hf. induction 1 as [|x l _ IH Hx]; cbn; [constructor|].
  destruct (f x) as [x'|] eqn:Efx; [|exact IH].
  constructor; [exact IH|].
  apply Forall_forall. intros y' Hy'.
  apply list_elem_of_omap in Hy' as (y & Hy & Efy).
  rewrite Forall_forall in Hx. exact (Hf x y x' y' (Hx y Hy) Efx Efy).
Qed.

(** X12: without a forced single view, [init_root] hands the views on
    largest first (in non-increasing order of their particle count), and no
    view twice. *)
Theorem select_views_largest_first (single_view : Z) (group : list view_group) :
  single_view <= 0 ->
  exists kept,
    select_views single_view group = Ok kept /\
    StronglySorted (fun g1 g2 => (group_count g2 <= group_count g1)%nat) kept /\
    kept ⊆+ group.
Proof.
  intros Hsv. unfold select_views.
  destruct (Z.ltb_spec 0 single_view) as [Hlt | _]; [lia|].
  eexists. split; [reflexivity|].
  set (count := group_count <$> group).
  set (f := fun i => if (20 <? count !!! i)%nat then group !! i else None).
  split.
  - apply (StronglySorted_omap (flip (count_le count))).
    + intros i j gi gj Hij Hi Hj. unfold f in Hi, Hj.
      destruct (20 <? count !!! i)%nat; [|discriminate].
      destruct (20 <? count !!! j)%nat; [|discriminate].
      unfold flip, count_le in Hij.
      assert (Hci : count !!! i = group_count gi).
      { apply list_lookup_total_correct. subst count.
        rewrite list_lookup_fmap, Hi. reflexivity. }
      assert (Hcj : count !!! j = group_count gj).
      { apply list_lookup_total_correct. subst count.
        rewrite list_lookup_fmap, Hj. reflexivity. }
      lia.
    + apply Sorted_StronglySorted; [apply _|].
      apply Sorted_reverse. unfold argsort. apply Sorted_merge_sort. apply _.
  - assert (Hperm : reverse (argsort count) ≡ₚ seq 0 (length group)).
    { rewrite reverse_Permutation. unfold argsort. rewrite merge_sort_Permutation.
      subst count. rewrite length_fmap. reflexivity. }
    rewrite Hperm. apply sublist_submseteq.
    apply (omap_lookup_sublist group (fun i => (20 <? count !!! i)%nat)).
Qed.

Lemma select_views_largest_first_witness :
  exists kept,
    select_views 0
      [(3, TupleLabel "w" (replicate 21 (1, 0)), []);
       (5, TupleLabel "w" (replicate 30 (1, 0)), [])] = Ok kept /\
    StronglySorted (fun g1 g2 => (group_count g2 <= group_count g1)%nat) kept /\
    kept ⊆+ [(3, TupleLabel "w" (replicate 21 (1, 0)), []);
             (5, TupleLabel "w" (replicate 30 (1, 0)), [])].
Proof.
  apply (select_views_largest_first 0
           [(3, TupleLabel "w" (replicate 21 (1, 0)), []);
            (5, TupleLabel "w" (replicate 30 (1, 0)), [])]).
  lia.
Defined.

(** *** A forced single view *)

(** X13: with [single_view = k > 0] and tuple-style labels, [init_root]
    returns the group of the k-th smallest view number alone, with all the
    particles of that view and whatever its size (the 20-particle test is
    not applied); a [k] beyond the number of views raises [IndexError]. *)
Theorem init_root_single_view (single_view : Z) (filename : string)
    (label : list (Z * Z)) (align : list align_row) (ref : list Z) :
  0 < single_view ->
  length label = length ref ->
  (forall r, unique ref !! Z.to_nat (single_view - 1) = Some r ->
     init_root single_view (TupleLabel filename label) align ref
       = Ok [tuple_group filename label align ref r] /\
     group_count (tuple_group filename label align ref r) = members r ref) /\
  (Z.of_nat (length (unique ref)) < single_view ->
     init_root single_view (TupleLabel filename label) align ref = Raise IndexError).
Proof.
  intros Hsv Hlen. unfold init_root. rewrite group_by_reference_tuple. cbn [bind].
  unfold select_views. destruct (Z.ltb_spec 0 single_view) as [_ | ?]; [|lia].
  unfold list_item.
  change (map (tuple_group filename label align ref) (unique ref))
    with (tuple_group filename label align ref <$> unique ref).
  rewrite list_lookup_fmap. split.
  - intros r Hr. rewrite Hr. cbn. split; [reflexivity|].
    apply length_mask_select. rewrite length_map. exact Hlen.
  - intros Hbeyond. rewrite lookup_ge_None_2 by lia. reflexivity.
Qed.

Lemma init_root_single_view_witness :
  (forall r, unique [7; 9; 7] !! Z.to_nat (2 - 1) = Some r ->
     init_root 2 (TupleLabel "win_0001.spi" [(1, 0); (1, 1); (1, 2)])
       [[0%Q]; [1%Q]; [2%Q]] [7; 9; 7]
       = Ok [tuple_group "win_0001.spi" [(1, 0); (1, 1); (1, 2)]
               [[0%Q]; [1%Q]; [2%Q]] [7; 9; 7] r] /\
     group_count (tuple_group "win_0001.spi" [(1, 0); (1, 1); (1, 2)]
                    [[0%Q]; [1%Q]; [2%Q]] [7; 9; 7] r) = members r [7; 9; 7]) /\
  (Z.of_nat (length (unique [7; 9; 7])) < 2 ->
     init_root 2 (TupleLabel "win_0001.spi" [(1, 0); (1, 1); (1, 2)])
       [[0%Q]; [1%Q]; [2%Q]] [7; 9; 7] = Raise IndexError).
Proof.
  apply (init_root_single_view 2 "win_0001.spi" [(1, 0); (1, 1); (1, 2)]
           [[0%Q]; [1%Q]; [2%Q]] [7; 9; 7]).
  - lia.
  - reflexivity.
Defined.

End Views.

(** ** [read_alignment]: the view of each particle *)

Section ReadAlignment.

(** [orient_utility.coarse_angles(order, align, half, out=align)] and
    [numpy.random.randint(0, high, size)]. *)
Variable coarse_angles : Z -> bool -> list align_row -> list align_row.
Variable randint : Z -> nat -> list Z.

(** [read_alignment], from what [format_alignment.read_alignment] loaded
    (the labels and the alignment array, which has the 8 columns asked for
    with [align_cols=8]) to the labels, the alignment array and the view
    number of each particle.  Without random views the view numbers are the
    entries of column 6 turned into integers, taken here within the range
    of the 64-bit integers of [astype(numpy.int)]. *)
Definition read_alignment (loaded : labels * list align_row)
    (order random_view : Z) (disable_mirror : bool)
    : labels * list align_row * list Z :=
  let '(files, align) := loaded in
  let align := map (fun row : align_row => <[7%nat := nth 6 row 0%Q]> row) align in
  let align := if 0 <? order then coarse_angles order (negb disable_mirror) align
               else align in
  let ref :=
    if random_view =? 1 then replicate (length align) 0
    else if 0 <? random_view then randint random_view (length align)
    else map (fun row : align_row => py_int (nth 6 row 0%Q)) align in
  (files, align, ref).

Lemma unique_replicate (n : nat) (r : Z) : (0 < n)%nat -> unique (replicate n r) = [r].
Proof.
  intros Hn. destruct n as [|n]; [lia|]. clear Hn.
  induction n as [|n IH]; [reflexivity|].
  change (unique (replicate (S (S n)) r)) with (insert_unique r (unique (replicate (S n) r))).
  rewrite IH. cbn. rewrite Z.ltb_irrefl, Z.eqb_refl. reflexivity.
Qed.

Lemma mask_select_all {A : Type} (r : Z) (a : list A) :
  mask_select (map (Z.eqb r) (replicate (length a) r)) a = a.
Proof.
  induction a as [|x a IH]; [reflexivity|]. cbn. rewrite Z.eqb_refl, IH. reflexivity.
Qed.

(** X14: with [random_view = 1] every particle is put in view 0, and
    [group_by_reference] then returns a single group that holds the whole
    data set, labels and alignment records unchanged. *)
Theorem single_random_view_one_group (filename : string) (label : list (Z * Z))
    (loaded_align : list align_row) (order : Z) (disable_mirror : bool) :
  let out := read_alignment (TupleLabel filename label, loaded_align)
               order 1 disable_mirror in
  length label = length out.1.2 ->
  (0 < length label)%nat ->
  out.1.1 = TupleLabel filename label /\
  group_by_reference out.1.1 out.1.2 out.2
  = Ok [(0, TupleLabel filename label, out.1.2)].
Proof.
  intros out Hlen Hpos. subst out. unfold read_alignment in *.
  change (1 =? 1) with true in *. cbv iota in *. cbn [fst snd] in *.
  set (align := if 0 <? order then _ else _) in *.
  split; [reflexivity|].
  rewrite group_by_reference_tuple. rewrite unique_replicate by lia.
  cbn [map]. unfold tuple_group. rewrite mask_select_all.
  rewrite <- Hlen, mask_select_all. reflexivity.
Qed.

Lemma increasing_in_range_length (l : list Z) : forall lo hi : Z,
  StronglySorted Z.lt l -> Forall (fun r => lo <= r < hi) l ->
  Z.of_nat (length l) <= Z.max 0 (hi - lo).
Proof.
  induction l as [|a l IH]; intros lo hi Hs Hr; [cbn; lia|].
  apply StronglySorted_inv in Hs as [Hs Ha].
  apply Forall_cons in Hr as [Hra Hr].
  specialize (IH (a + 1) hi Hs).
  assert (Hr' : Forall (fun r => a + 1 <= r < hi) l).
  { apply Forall_forall. intros x Hx. rewrite Forall_forall in Ha, Hr.
    specialize (Ha x Hx). specialize (Hr x Hx). lia. }
  specialize (IH Hr'). cbn [length]. lia.
Qed.

(** X15: when the particles are spread over [random_view] random views
    (numbers drawn from [0 .. random_view - 1]), [group_by_reference] forms
    at most [random_view] groups. *)
Theorem random_views_bound_groups (filename : string) (label : list (Z * Z))
    (loaded_align : list align_row) (order random_view : Z) (disable_mirror : bool) :
  let out := read_alignment (TupleLabel filename label, loaded_align)
               order random_view disable_mirror in
  0 < random_view ->
  Forall (fun r => 0 <= r < random_view) (randint random_view (length out.1.2)) ->
  exists groups,
    group_by_reference out.1.1 out.1.2 out.2 = Ok groups /\
    Z.of_nat (length groups) <= random_view /\
    Forall (fun g : view_group => 0 <= g.1.1 < random_view) groups.
Proof.
  intros out Hrv Hrand. subst out. unfold read_alignment in *. cbn [fst snd] in *.
  set (align := if 0 <? order then _ else _) in *.
  set (ref := if random_view =? 1 then _ else _).
  assert (Href : Forall (fun r => 0 <= r < random_view) ref).
  { subst ref. destruct (Z.eqb_spec random_view 1) as [-> | Hne].
    - apply Forall_forall. intros x Hx. apply elem_of_replicate_inv in Hx. lia.
    - destruct (Z.ltb_spec 0 random_view); [exact Hrand | lia]. }
  rewrite group_by_reference_tuple. eexists. split; [reflexivity|].
  assert (Huniq : Forall (fun r => 0 <= r < random_view) (unique ref)).
  { apply Forall_forall. intros x Hx. rewrite elem_of_unique in Hx.
    rewrite Forall_forall in Href. exact (Href x Hx). }
  split.
  - rewrite length_map.
    pose proof (increasing_in_range_length _ 0 random_view (unique_increasing ref) Huniq).
    lia.
  - apply Forall_forall. intros g Hg.
    apply list_elem_of_In, in_map_iff in Hg as (r & <- & Hr). cbn.
    rewrite Forall_forall in Huniq. apply Huniq. apply list_elem_of_In. exact Hr.
Qed.

End ReadAlignment.

Lemma single_random_view_one_group_witness :
  let out := read_alignment (fun _ _ a => a) (fun _ n => replicate n 0)
               (TupleLabel "win_0001.spi" [(1, 0); (1, 1)],
                [[0; 0; 0; 0; 0; 0; 3; 0]; [0; 0; 0; 0; 0; 0; 4; 0]]%Q) 0 1 false in
  out.1.1 = TupleLabel "win_0001.spi" [(1, 0); (1, 1)] /\
  group_by_reference out.1.1 out.1.2 out.2
  = Ok [(0, TupleLabel "win_0001.spi" [(1, 0); (1, 1)], out.1.2)].
Proof.
  apply (single_random_view_one_group (fun _ _ a => a) (fun _ n => replicate n 0)
           "win_0001.spi" [(1, 0); (1, 1)]
           [[0; 0; 0; 0; 0; 0; 3; 0]; [0; 0; 0; 0; 0; 0; 4; 0]]%Q 0 false).
  - reflexivity.
  - cbn; lia.
Defined.

Lemma random_views_bound_groups_witness :
  let out := read_alignment (fun _ _ a => a) (fun _ n => replicate n 2)
               (TupleLabel "win_0001.spi" [(1, 0); (1, 1)],
                [[0; 0; 0; 0; 0; 0; 3; 0]; [0; 0; 0; 0; 0; 0; 4; 0]]%Q) 0 3 false in
  exists groups,
    group_by_reference out.1.1 out.1.2 out.2 = Ok groups /\
    Z.of_nat (length groups) <= 3 /\
    Forall (fun g : view_group => 0 <= g.1.1 < 3) groups.
Proof.
  apply (random_views_bound_groups (fun _ _ a => a) (fun _ n => replicate n 2)
           "win_0001.spi" [(1, 0); (1, 1)]
           [[0; 0; 0; 0; 0; 0; 3; 0]; [0; 0; 0; 0; 0; 0; 4; 0]]%Q 0 3 false).
  - lia.
  - cbn. repeat constructor; lia.
Defined.

(** ** [update_selection_dict] *)

Section SelectionDict.

(** The keys of [sel_by_mic]: micrograph numbers for tuple-style labels,
    file names for list-style labels. *)
Definition mic_key : Type := (Z + string)%type.

(** [sel_by_mic.setdefault(k, []).append(v)] *)
Definition setdefault_append (k : mic_key) (v : Z) (d : gmap mic_key (list Z))
    : gmap mic_key (list Z) :=
  <[k := default [] (d !! k) ++ [v]]> d.

(** The key and the value stored for the selected particle [i]: its
    micrograph and its slice number plus one.  The loop variable is a row
    of [numpy.argwhere(sel)], an array of shape (1,): the label array of a
    tuple-style label takes it as an index ([label[i, 0]] is a one-entry
    array, which [int] accepts), the Python list of a list-style label
    does not ([label[i]] raises [TypeError]). *)
Definition selection_entry (label : labels) (i : nat) : result (mic_key * Z) :=
  match label with
  | TupleLabel _ rows => bind (list_item rows i) (fun row => Ok (inl row.1, row.2 + 1))
  | ListLabel _ => Raise TypeError
  end.

(** The loop [for i in numpy.argwhere(sel)]; the dictionary is updated in
    place, so it keeps what was stored before an exception. *)
Fixpoint update_loop (label : labels) (idx : list nat) (d : gmap mic_key (list Z))
    : result unit * gmap mic_key (list Z) :=
  match idx with
  | [] => (Ok tt, d)
  | i :: idx' =>
      match selection_entry label i with
      | Ok (k, v) => update_loop label idx' (setdefault_append k v d)
      | Raise e => (Raise e, d)
      end
  end.

Definition update_selection_dict (sel_by_mic : gmap mic_key (list Z)) (label : labels)
    (sel : list bool) : result unit * gmap mic_key (list Z) :=
  update_loop label (argwhere sel) sel_by_mic.








End SelectionDict.

Example update_selection_dict_run :
  (update_selection_dict ∅ (TupleLabel "win" [(12, 0); (12, 1); (15, 0); (12, 2)])
     [true; false; true; true]).2
  = <[inl 12 := [1; 3]]> (<[inl 15 := [1]]> ∅).
Proof. vm_compute. reflexivity. Qed.


(** ** [one_class_classification] *)

(** A float that need not be finite: [scipy.stats.chi2.ppf] gives [inf] at
    probability 1 and [nan] outside the probabilities. *)
Inductive pyfloat : Type :=
| Finite (q : Q)
| Infinity
| NaN.

(** ["%d" % x]: an infinite float cannot be turned into an integer
    ([OverflowError]), neither can a NaN ([ValueError]). *)
Definition format_d (x : pyfloat) : result unit :=
  match x with
  | Finite _ => Ok tt
  | Infinity => Raise OverflowError
  | NaN => Raise ValueError
  end.

(** [d < cut] *)
Definition below (cut : pyfloat) (d : Q) : bool :=
  match cut with
  | Finite c => Qltb d c
  | Infinity => true
  | NaN => false
  end.

Section OneClass.

Local Open Scope Q_scope.

(** [feat.shape[1]]. *)
Definition shape1 (feat : list (list Q)) : nat :=
  match feat with
  | r :: _ => length r
  | [] => 0%nat
  end.

(** [feat[:, :neig]] *)
Definition columns (feat : list (list Q)) (neig : Z) : list (list Q) :=
  map (fun row => slice row 0 neig) feat.

(** The state of numpy's random generator: [MinCovDet()] draws its
    subsamples from it. *)
Context {rng : Type}.

(** The robust covariance fit ([MinCovDet], or [EmpiricalCovariance] when
    that raises) followed by [mahalanobis(feat - numpy.median(feat, 0))]:
    one distance per row of [feat].  The fit consumes random numbers, and
    the call raises when the second fit fails too (on a matrix without
    columns, for one). *)
Variable robust_mahalanobis : rng -> list (list Q) -> result (list Q) * rng.

(** [scipy.stats.chi2.ppf(p, df)], the chi-squared quantile. *)
Variable chi2_ppf : Q -> nat -> pyfloat.

(** [one_class_classification].  The debug line formats [cut] with ["%d"]
    before it is handed to the logger, whatever the log level. *)
Definition one_class_classification (feat : list (list Q)) (neig : Z)
    (prob_reject : Q) (state : rng)
    : result (list bool * list bool * list Q) * rng :=
  let feat := columns feat neig in
  match robust_mahalanobis state feat with
  | (Raise e, state) => (Raise e, state)
  | (Ok dist, state) =>
      let cut := chi2_ppf prob_reject (shape1 feat) in
      let sel := map (below cut) dist in
      match format_d cut with
      | Raise e => (Raise e, state)
      | Ok _ =>
          let rsel := sel in
          (Ok (sel, rsel, dist), state)
      end
  end.



(** The quantile is increasing in the probability. *)
Hypothesis chi2_ppf_increasing : forall (df : nat) (p q cp cq : Q),
  0 <= p -> p <= q -> q <= 1 ->
  chi2_ppf p df = Finite cp -> chi2_ppf q df = Finite cq -> cp <= cq.


(** Where the quantile is infinite the distances are computed and the call
    then raises, on its debug line. *)
Lemma one_class_classification_infinite_cut (feat : list (list Q)) (neig : Z)
    (p : Q) (state state' : rng) (dist : list Q) :
  robust_mahalanobis state (columns feat neig) = (Ok dist, state') ->
  chi2_ppf p (shape1 (columns feat neig)) = Infinity ->
  one_class_classification feat neig p state = (Raise OverflowError, state').
Proof.
  intros Hfit Hcut. unfold one_class_classification. rewrite Hfit, Hcut. reflexivity.
Qed.

End OneClass.

(** A table of the chi-squared quantile for two degrees of freedom, read at
    the probabilities 0.5, 0.9 and 0.97, infinite at 1 and NaN outside the
    probabilities; and a stand-in for the robust fit whose distances are
    the squared lengths of the rows, scaled by a number that changes from
    one fit to the next the way the subsamples drawn do: enough to run the
    classifier on numbers. *)
Definition chi2_table (p : Q) (df : nat) : pyfloat :=
  if Qltb p 0 || Qltb 1 p then NaN
  else if Qltb p (1 # 2) then Finite 0%Q
  else if Qltb p (9 # 10) then Finite (1386 # 1000)%Q
  else if Qltb p (97 # 100) then Finite (4605 # 1000)%Q
  else if Qltb p 1 then Finite (7013 # 1000)%Q
  else Infinity.

Definition squared_length (draw : nat) (feat : list (list Q)) : result (list Q) * nat :=
  match shape1 feat with
  | O => (Raise ValueError, draw)
  | S _ =>
      (Ok (map (fun r => (inject_Z (Z.of_nat draw)
                          * fold_right Qplus 0%Q (map (fun v => (v * v)%Q) r))%Q) feat),
       S draw)
  end.


Example one_class_run :
  one_class_classification squared_length chi2_table
    [[1; 0; 9]; [2; 1; 9]; [0; 2; 9]]%Q 2 (9 # 10) 1%nat =
  (Ok ([true; false; true], [true; false; true],
       [1 * (1 * 1 + (0 * 0 + 0)); 1 * (2 * 2 + (1 * 1 + 0));
        1 * (0 * 0 + (2 * 2 + 0))]%Q), 2%nat).
Proof. reflexivity. Qed.



(** ** [decimation_level] *)

Section Decimation.

Local Open Scope Q_scope.

(** [numpy.tan(healpix.nside2pixarea(order))]. *)
Variable tan_pixarea : Z -> Q.

(** [resolution_from_order]: the guard [order == 0 or 1 == 1] always
    holds, so the estimate from the angular increment is never used. *)
Definition resolution_from_order (apix : Q) (pixel_diameter : Z) (order : Z)
    (resolution : Q) : Q :=
  if (order =? 0)%Z || (1 =? 1)%Z then resolution
  else
    let res := tan_pixarea order * inject_Z pixel_diameter * apix in
    if Qltb resolution res then res else resolution.

Definition decimation_level (apix : Q) (window : Z) (pixel_diameter order : Z)
    (resolution : Q) : result Q :=
  let resolution := resolution_from_order apix pixel_diameter order resolution in
  bind (py_div resolution (apix * 3)) (fun dec =>
  bind (py_div (inject_Z window) dec) (fun q =>
  let d := q + 10 in
  bind (py_div (inject_Z window) d) (fun d =>
  Ok (py_min (py_max d 1) 8)))).

Lemma resolution_from_order_same (apix : Q) (pixel_diameter order : Z) (resolution : Q) :
  resolution_from_order apix pixel_diameter order resolution = resolution.
Proof. unfold resolution_from_order. destruct (order =? 0)%Z; reflexivity. Qed.

(** The final clamp lands in [1, 8] whatever it is given. *)
Lemma clamp_bounds (d : Q) : 1 <= py_min (py_max d 1) 8 /\ py_min (py_max d 1) 8 <= 8.
Proof.
  unfold py_min, py_max.
  destruct (Qltb d 1) eqn:E1;
    [apply Qltb_lt in E1 | apply not_true_iff_false in E1; rewrite Qltb_lt in E1].
  - destruct (Qltb 8 1) eqn:E2;
      [apply Qltb_lt in E2 | apply not_true_iff_false in E2; rewrite Qltb_lt in E2];
      lra.
  - destruct (Qltb 8 d) eqn:E2;
      [apply Qltb_lt in E2 | apply not_true_iff_false in E2; rewrite Qltb_lt in E2];
      lra.
Qed.

(** The three divisions of [decimation_level], in the order in which they
    are made: by [apix * 3], by [dec], and by [window / dec + 10]. *)
Definition divisors_nonzero (apix : Q) (window : Z) (resolution : Q) : Prop :=
  ~ apix * 3 == 0 /\
  ~ resolution / (apix * 3) == 0 /\
  ~ inject_Z window / (resolution / (apix * 3)) + 10 == 0.


(** When one of the divisors is zero the call raises instead. *)
Lemma decimation_level_raises (apix : Q) (window pixel_diameter order : Z)
    (resolution : Q) :
  ~ divisors_nonzero apix window resolution ->
  decimation_level apix window pixel_diameter order resolution =
  Raise ZeroDivisionError.
Proof.
  intros Hnot. unfold decimation_level. rewrite resolution_from_order_same.
  unfold py_div at 1. destruct (Qeq_bool (apix * 3) 0) eqn:Ea; [reflexivity|].
  cbn [bind]. unfold py_div at 1.
  destruct (Qeq_bool (resolution / (apix * 3)) 0) eqn:Edec; [reflexivity|].
  cbn [bind]. unfold py_div at 1.
  destruct (Qeq_bool (inject_Z window / (resolution / (apix * 3)) + 10) 0) eqn:Ed;
    [reflexivity|].
  exfalso. apply Hnot. repeat split; intros Hz; apply Qeq_bool_iff in Hz; congruence.
Qed.

End Decimation.


(** A negative resolution can hit a zero divisor as well: here [dec = -10]
    and [window / dec + 10 = 0]. *)
Example decimation_level_negative_resolution_raises :
  decimation_level (fun _ => 0%Q) 1 100 80 2 (-30 # 1) = Raise ZeroDivisionError.
Proof. reflexivity. Qed.

Example decimation_level_default_run :
  forall tan_pixarea : Z -> Q,
  exists d, decimation_level tan_pixarea (3 # 2) 100 80 2 40 = Ok d /\ (d == 80 # 17)%Q.
Proof. intros tan_pixarea. eexists. split; [reflexivity | vm_compute; reflexivity]. Qed.


(** ** More on [decimation_level] *)

Section Cutoffs.

Local Open Scope Q_scope.

Variable tan_pixarea : Z -> Q.

Lemma ratio_below (w dec : Q) : 0 < w -> 0 < dec -> w / (w / dec + 10) < dec.
Proof.
  intros Hw Hdec.
  assert (Hq : 0 < w / dec) by (apply Qlt_shift_div_l; [exact Hdec | lra]).
  apply Qlt_shift_div_r; [lra|].
  assert (E : dec * (w / dec + 10) == w + 10 * dec) by (field; lra).
  rewrite E. lra.
Qed.

(** X17: for a positive pixel size, window and resolution,
    [decimation_level] returns a factor in [1, 8], and when that factor is
    above 1 the decimated pixel size, taken three times, stays strictly
    below the resolution: the images are never decimated beyond
    [resolution / (3 * apix)]. *)
Theorem decimation_level_below_nominal (apix : Q) (window pixel_diameter order : Z)
    (resolution : Q) :
  0 < apix -> (0 < window)%Z -> 0 < resolution ->
  exists d,
    decimation_level tan_pixarea apix window pixel_diameter order resolution = Ok d /\
    1 <= d /\ d <= 8 /\
    (1 < d -> d * (apix * 3) < resolution).
Proof.
  intros Ha Hw Hr. unfold decimation_level. rewrite resolution_from_order_same.
  assert (Hw' : 0 < inject_Z window) by (unfold Qlt; cbn; lia).
  set (w := inject_Z window) in *. clearbody w.
  assert (Hdec : 0 < resolution / (apix * 3)) by (apply Qlt_shift_div_l; lra).
  assert (Hq : 0 < w / (resolution / (apix * 3))) by (apply Qlt_shift_div_l; lra).
  rewrite py_div_ok by lra. cbn [bind].
  rewrite py_div_ok by lra. cbn [bind].
  rewrite py_div_ok by lra. cbn [bind].
  eexists. split; [reflexivity|].
  pose proof (ratio_below w _ Hw' Hdec) as Hbelow.
  set (dec := resolution / (apix * 3)) in *.
  assert (Edec : dec * (apix * 3) == resolution) by (subst dec; field; lra).
  set (raw := w / (w / dec + 10)) in *. clearbody raw. clearbody dec.
  pose proof (clamp_bounds raw) as [Hlo Hhi].
  split; [exact Hlo|]. split; [exact Hhi|].
  intros Hone.
  assert (Hle : py_min (py_max raw 1) 8 <= raw).
  { revert Hone. unfold py_min, py_max.
    Py.case_Qltb raw 1; Py.case_Qltb 8 1; try Py.case_Qltb 8 raw; intros; lra. }
  assert (Hmul : py_min (py_max raw 1) 8 * (apix * 3) < dec * (apix * 3)).
  { apply Qmult_lt_compat_r; lra. }
  lra.
Qed.

End Cutoffs.

Lemma decimation_level_below_nominal_witness :
  exists d,
    decimation_level (fun _ => 0%Q) (3 # 2) 100 80 2 40 = Ok d /\
    (1 <= d)%Q /\ (d <= 8)%Q /\
    (1 < d -> d * ((3 # 2) * 3) < 40)%Q.
Proof.
  apply (decimation_level_below_nominal (fun _ => 0%Q) (3 # 2) 100 80 2 40); lra || lia.
Defined.

End DiffClean.

(* ===================================================================== *)
(** * CTF estimation: [arachnid/core/image/ctf/estimate2d.py] *)
(* ===================================================================== *)

Module Estimate2D.

Import Py.

Local Open Scope Q_scope.

(** The search parameters as they stand when the grid search starts: the
    band limits [rmin], [rmax] in reciprocal pixels, their squares, the
    Gaussian half-width term [hw], the ordered defocus range and the scaled
    pixel size. *)
Record search_params : Type := SearchParams {
  sp_rmin : Q;
  sp_rmax : Q;
  sp_rmin2 : Q;
  sp_rmax2 : Q;
  sp_hw : Q;
  sp_dfmin : Q;
  sp_dfmax : Q;
  sp_apix : Q
}.

(** The pixel size: given, or derived as [res * 10**4 / xmag].  Arithmetic
    on a missing ([None]) operand raises [TypeError]. *)
Definition pixel_size (apix xmag res : option Q) : result Q :=
  match apix with
  | Some a => Ok a
  | None =>
      match res, xmag with
      | Some r, Some x => py_div (r * 10000) x
      | _, _ => Raise TypeError
      end
  end.

Section Search.

(** The grid search over defocus and astigmatism followed by the simplex
    refinement, both driven by the native [_ctf] module: from the power
    spectrum, the prepared parameters and the grid bounds [i1], [i2] to
    (df1, df2, angle). *)
Context {powspec : Type}.
Variable grid_search_refine :
  powspec -> search_params -> Z -> Z -> Q (* fstep *) -> Q (* ampcont *) ->
  Q (* cs *) -> Q (* voltage *) -> Q * Q * Q.

(** The statements of [search_model_2d] that order and clamp the two
    radii (given in Angstrom). *)
Definition order_radii (rmin rmax : Q) : Q * Q :=
  if Qltb rmin rmax then (rmax, rmin) else (rmin, rmax).

Definition clamp_rmin (rmin : Q) : Q := if Qltb 50 rmin then 50 else rmin.

Definition search_model_2d (pow : powspec)
    (dfmin dfmax fstep rmin rmax ampcont cs voltage : Q)
    (pad : Q) (apix xmag res : option Q) : result (Q * Q * Q) :=
  let '(rmin, rmax) := order_radii rmin rmax in
  let '(dfmin, dfmax) := if Qltb dfmax dfmin then (dfmax, dfmin) else (dfmin, dfmax) in
  bind (pixel_size apix xmag res) (fun apix =>
  let rmin := clamp_rmin rmin in
  if Qltb rmin rmax then Raise ValueError
  else
    let apix := apix * pad in
    bind (py_div apix rmin) (fun rmin =>
    bind (py_div apix rmax) (fun rmax =>
    let rmin2 := rmin * rmin in
    let rmax2 := rmax * rmax in
    bind (py_div (-1) rmax2) (fun hw =>
    bind (py_div dfmin fstep) (fun q1 =>
    bind (py_div dfmax fstep) (fun q2 =>
    Ok (grid_search_refine pow
          (SearchParams rmin rmax rmin2 rmax2 hw dfmin dfmax apix)
          (py_int q1) (py_int q2) fstep ampcont cs voltage))))))).

(** *** The radius check *)

Lemma order_radii_ordered (rmin rmax : Q) :
  (order_radii rmin rmax).2 <= (order_radii rmin rmax).1.
Proof. unfold order_radii. case_Qltb rmin rmax; cbn; lra. Qed.

Lemma clamp_rmin_le_50 (rmin : Q) : clamp_rmin rmin <= 50.
Proof. unfold clamp_rmin. case_Qltb 50 rmin; lra. Qed.

(** After ordering and clamping, [rmax > rmin] says that both radii, as
    given, exceed 50. *)
Lemma clamped_check (rmin rmax : Q) :
  Qltb (clamp_rmin (order_radii rmin rmax).1) (order_radii rmin rmax).2 = true <->
  50 < rmin /\ 50 < rmax.
Proof.
  rewrite Qltb_lt. unfold clamp_rmin, order_radii.
  case_Qltb rmin rmax; cbn [fst snd];
    match goal with |- context [Qltb 50 ?r] => case_Qltb 50 r end; lra.
Qed.

(** C6 (amended): once the pixel size is known, [search_model_2d] raises
    the invalid-parameter error exactly when both radii it is given exceed
    50, that is when [rmax > rmin] holds after the radii were ordered
    ([rmin >= rmax]) and [rmin] was clamped to at most 50 -- a test on the
    Angstrom values, made before the pad-scaled pixel size is applied, and
    passed by equal radii. *)
Theorem search_model_2d_radius_check (pow : powspec)
    (dfmin dfmax fstep rmin rmax ampcont cs voltage pad : Q)
    (apix xmag res : option Q) (a : Q) :
  pixel_size apix xmag res = Ok a ->
  let ordered := order_radii rmin rmax in
  ordered.2 <= ordered.1 /\
  clamp_rmin ordered.1 <= 50 /\
  (search_model_2d pow dfmin dfmax fstep rmin rmax ampcont cs voltage pad apix xmag res
     = Raise ValueError
   <-> clamp_rmin ordered.1 < ordered.2) /\
  (clamp_rmin ordered.1 < ordered.2 <-> 50 < rmin /\ 50 < rmax).
Proof.
  intros Hapix ordered.
  split; [apply order_radii_ordered|]. split; [apply clamp_rmin_le_50|].
  split; [|rewrite <- Qltb_lt; apply clamped_check].
  unfold search_model_2d. fold ordered. destruct ordered as [hi lo] eqn:Hord.
  cbn [fst snd].
  destruct (if Qltb dfmax dfmin then (dfmax, dfmin) else (dfmin, dfmax)) as [df1 df2].
  rewrite Hapix. cbn [bind]. rewrite <- Qltb_lt.
  destruct (Qltb (clamp_rmin hi) lo); [split; reflexivity|].
  split; [|discriminate]. intros Hraise. exfalso. revert Hraise.
  unfold py_div.
  repeat match goal with
  | |- context [Qeq_bool ?x ?y] => destruct (Qeq_bool x y); cbn [bind]
  end; discriminate.
Qed.

End Search.

(** A stand-in for the native search that reports the band limits it was
    handed, to read them off a run. *)
Definition report_band (pow : unit) (p : search_params) (i1 i2 : Z)
    (fstep ampcont cs voltage : Q) : Q * Q * Q :=
  (sp_rmin p, sp_rmax p, 0).

(** A usual call: band from 30 to 5 Angstrom at 1.5 Angstrom per pixel. *)
Example search_model_2d_usual_run :
  search_model_2d report_band tt 5000 60000 500 30 5 (1 # 10) 2 300 1 (Some (3 # 2)) None None
  = Ok ((3 # 2) * 1 / 30, (3 # 2) * 1 / 5, 0).
Proof. reflexivity. Qed.

(** Both radii above 50: the check fires. *)
Example search_model_2d_both_above_50 :
  search_model_2d report_band tt 5000 60000 500 80 60 (1 # 10) 2 300 1 (Some (3 # 2)) None None
  = Raise ValueError.
Proof. reflexivity. Qed.

(** C6 (as stated, refuted): with [rmin = rmax = 30] the value of [rmax] is
    not less than that of [rmin], neither as given nor once the pad-scaled
    pixel size is applied, and yet no error is raised: the search runs on
    the band limits (1/30, 1/30). *)
Lemma search_model_2d_equal_radii_accepted :
  exists rmin' rmax',
    search_model_2d report_band tt 5000 60000 500 30 30 (1 # 10) 2 300 1 (Some 1) None None
    = Ok (rmin', rmax', 0) /\
    ~ rmax' < rmin' /\ ~ (30 < 30).
Proof.
  eexists _, _. split; [reflexivity|]. split; intros Hlt; vm_compute in Hlt; discriminate.
Qed.

Lemma search_model_2d_radius_check_witness :
  let ordered := order_radii 5 30 in
  ordered.2 <= ordered.1 /\
  clamp_rmin ordered.1 <= 50 /\
  (search_model_2d report_band tt 5000 60000 500 5 30 (1 # 10) 2 300 1
     (Some (3 # 2)) None None = Raise ValueError
   <-> clamp_rmin ordered.1 < ordered.2) /\
  (clamp_rmin ordered.1 < ordered.2 <-> 50 < 5 /\ 50 < 30).
Proof.
  apply (search_model_2d_radius_check report_band tt 5000 60000 500 5 30 (1 # 10) 2 300 1
           (Some (3 # 2)) None None (3 # 2)).
  reflexivity.
Defined.

(** ** More on [search_model_2d]: the parameters the search starts from *)

Lemma div_cross (a c b d : Z) :
  (0 <= a -> 0 < b -> 0 < d -> a * d <= c * b -> a / b <= c / d)%Z.
Proof.
  intros Ha Hb Hd Hcross. apply Z.div_le_lower_bound; [exact Hd|].
  pose proof (Z.mul_div_le a b Hb) as Hfloor.
  assert (Hq : (0 <= a / b)%Z) by (apply Z.div_pos; lia).
  nia.
Qed.

(** [int] is monotone. *)
Lemma py_int_mono (p q : Q) : p <= q -> (py_int p <= py_int q)%Z.
Proof.
  unfold py_int, Qle. destruct p as [a b], q as [c d]. cbn [Qnum Qden]. intros Hle.
  destruct (Z.le_gt_cases 0 a) as [Ha | Ha].
  - assert (Hc : (0 <= c)%Z) by nia.
    rewrite !Z.quot_div_nonneg by lia. apply div_cross; lia.
  - replace a with (- - a)%Z by lia. rewrite Z.quot_opp_l by lia.
    rewrite (Z.quot_div_nonneg (- a)) by lia.
    assert (Hna : (0 <= - a / Z.pos b)%Z) by (apply Z.div_pos; lia).
    destruct (Z.le_gt_cases 0 c) as [Hc | Hc].
    + rewrite (Z.quot_div_nonneg c) by lia.
      assert (Hpc : (0 <= c / Z.pos d)%Z) by (apply Z.div_pos; lia). lia.
    + replace c with (- - c)%Z by lia. rewrite Z.quot_opp_l by lia.
      rewrite (Z.quot_div_nonneg (- c)) by lia.
      assert (Hcross : (- c / Z.pos d <= - a / Z.pos b)%Z) by (apply div_cross; lia).
      lia.
Qed.

(** X18: the two radii may be given in either order, and so may the two
    defocus limits: as long as the two values of a pair differ,
    [search_model_2d] does the same whichever comes first. *)
Theorem search_model_2d_limits_symmetric {powspec : Type}
    (grid_search_refine : powspec -> search_params -> Z -> Z -> Q -> Q -> Q -> Q -> Q * Q * Q)
    (pow : powspec) (dfmin dfmax fstep rmin rmax ampcont cs voltage pad : Q)
    (apix xmag res : option Q) :
  ~ rmin == rmax -> ~ dfmin == dfmax ->
  search_model_2d grid_search_refine pow dfmin dfmax fstep rmin rmax ampcont cs voltage
    pad apix xmag res
  = search_model_2d grid_search_refine pow dfmax dfmin fstep rmax rmin ampcont cs voltage
      pad apix xmag res.
Proof.
  intros Hr Hdf. unfold search_model_2d.
  assert (Er : order_radii rmin rmax = order_radii rmax rmin).
  { unfold order_radii. case_Qltb rmin rmax; case_Qltb rmax rmin;
      try reflexivity; exfalso; lra. }
  assert (Edf : (if Qltb dfmax dfmin then (dfmax, dfmin) else (dfmin, dfmax))
                = (if Qltb dfmin dfmax then (dfmin, dfmax) else (dfmax, dfmin))).
  { case_Qltb dfmax dfmin; case_Qltb dfmin dfmax; try reflexivity; exfalso; lra. }
  rewrite Er, Edf. reflexivity.
Qed.

(** X19: for positive radii that are not both above 50, a positive padded
    pixel size and a positive defocus step, [search_model_2d] reaches the
    search, and the parameters it hands over are in order: the band runs
    from a spatial frequency no lower than that of 50 Angstrom up to a
    frequency at least as high, the half-width term is negative, the
    defocus limits are ordered, and the grid range [i1 .. i2] is not
    empty. *)
Theorem search_model_2d_band {powspec : Type} (pow : powspec)
    (dfmin dfmax fstep rmin rmax ampcont cs voltage pad : Q)
    (apix xmag res : option Q) (a : Q) :
  pixel_size apix xmag res = Ok a ->
  0 < a * pad -> 0 < rmin -> 0 < rmax -> ~ (50 < rmin /\ 50 < rmax) -> 0 < fstep ->
  exists (p : search_params) (i1 i2 : Z),
    (forall grid_search_refine,
       search_model_2d grid_search_refine pow dfmin dfmax fstep rmin rmax ampcont cs
         voltage pad apix xmag res
       = Ok (grid_search_refine pow p i1 i2 fstep ampcont cs voltage)) /\
    sp_apix p = a * pad /\
    a * pad / 50 <= sp_rmin p /\ sp_rmin p <= sp_rmax p /\
    sp_hw p < 0 /\ sp_hw p * sp_rmax2 p == -1 /\
    sp_dfmin p <= sp_dfmax p /\
    (i1 <= i2)%Z.
Proof.
  intros Hapix Hap Hrmin Hrmax Hnot Hfstep.
  pose proof (proj1 (not_iff_compat (clamped_check rmin rmax)) ) as Hcheck.
  assert (Hpass : Qltb (clamp_rmin (order_radii rmin rmax).1) (order_radii rmin rmax).2
                  = false).
  { apply not_true_iff_false. intros Htrue. apply Hnot. apply clamped_check. exact Htrue. }
  clear Hcheck.
  assert (Hlo : 0 < (order_radii rmin rmax).2 /\
                (order_radii rmin rmax).2 <= clamp_rmin (order_radii rmin rmax).1 /\
                clamp_rmin (order_radii rmin rmax).1 <= 50).
  { apply Qltb_ge in Hpass. split; [|split; [exact Hpass | apply clamp_rmin_le_50]].
    unfold order_radii. case_Qltb rmin rmax; cbn; lra. }
  unfold search_model_2d.
  destruct (order_radii rmin rmax) as [hi lo]. cbn [fst snd] in *.
  set (c := clamp_rmin hi) in *. clearbody c.
  destruct Hlo as (Hlo0 & Hloc & Hc50).
  set (df := if Qltb dfmax dfmin then (dfmax, dfmin) else (dfmin, dfmax)).
  assert (Hdf : df.1 <= df.2).
  { subst df. case_Qltb dfmax dfmin; cbn; lra. }
  destruct df as [df1 df2]. cbn [fst snd] in Hdf.
  rewrite Hapix. cbn [bind]. rewrite Hpass.
  set (ap := a * pad) in *. clearbody ap.
  assert (Hr1 : 0 < ap / c) by (apply Qlt_shift_div_l; lra).
  assert (Hr2 : 0 < ap / lo) by (apply Qlt_shift_div_l; lra).
  rewrite (py_div_ok ap c) by lra. cbn [bind].
  rewrite (py_div_ok ap lo) by lra. cbn [bind].
  assert (Hsq : 0 < ap / lo * (ap / lo)) by nra.
  rewrite (py_div_ok (-1) _) by lra. cbn [bind].
  rewrite (py_div_ok df1 fstep) by lra. cbn [bind].
  rewrite (py_div_ok df2 fstep) by lra. cbn [bind].
  eexists _, _, _. split; [intros g; reflexivity|]. cbn.
  split; [reflexivity|].
  split.
  { apply Qle_shift_div_l; [lra|].
    assert (E : ap / 50 * c == ap * (c / 50)) by (field; lra). rewrite E.
    assert (H1 : c / 50 <= 1) by (apply Qle_shift_div_r; lra). nra. }
  split.
  { apply Qle_shift_div_l; [lra|].
    assert (E : ap / c * lo == ap * (lo / c)) by (field; lra). rewrite E.
    assert (H1 : lo / c <= 1) by (apply Qle_shift_div_r; lra). nra. }
  split.
  { apply Qlt_shift_div_r; lra. }
  split.
  { field. repeat split; lra. }
  split; [exact Hdf|].
  apply py_int_mono.
  apply Qle_shift_div_l; [lra|].
  assert (E : df1 / fstep * fstep == df1) by (field; lra). rewrite E. exact Hdf.
Qed.

Lemma search_model_2d_limits_symmetric_witness :
  search_model_2d report_band tt 5000 60000 500 30 5 (1 # 10) 2 300 1 (Some (3 # 2)) None None
  = search_model_2d report_band tt 60000 5000 500 5 30 (1 # 10) 2 300 1 (Some (3 # 2)) None None.
Proof.
  apply (search_model_2d_limits_symmetric report_band tt 5000 60000 500 30 5 (1 # 10) 2 300 1
           (Some (3 # 2)) None None);
    intros Hz; vm_compute in Hz; discriminate.
Defined.

Lemma search_model_2d_band_witness :
  exists (p : search_params) (i1 i2 : Z),
    (forall grid_search_refine : unit -> search_params -> Z -> Z -> Q -> Q -> Q -> Q -> Q * Q * Q,
       search_model_2d grid_search_refine tt 5000 60000 500 30 5 (1 # 10) 2 300 1
         (Some (3 # 2)) None None
       = Ok (grid_search_refine tt p i1 i2 500 (1 # 10) 2 300)) /\
    sp_apix p = (3 # 2) * 1 /\
    (3 # 2) * 1 / 50 <= sp_rmin p /\ sp_rmin p <= sp_rmax p /\
    sp_hw p < 0 /\ sp_hw p * sp_rmax2 p == -1 /\
    sp_dfmin p <= sp_dfmax p /\
    (i1 <= i2)%Z.
Proof.
  apply (search_model_2d_band tt 5000 60000 500 30 5 (1 # 10) 2 300 1
           (Some (3 # 2)) None None (3 # 2)); try reflexivity; try lra.
Defined.

(** ** The grid search *)

Section Grid.

(** [numpy.deg2rad], and [eval_model_2d] as a function of the three
    parameters the search varies (the power spectrum and the microscope
    parameters stay the same through the search). *)
Variable deg2rad : Q -> Q.
Variable eval_model_2d : Q * Q * Q -> Q.

(** The candidates (df1, df2, angle) in the order of the three nested
    loops. *)
Definition grid_points (fstep : Q) (i1 i2 : Z) : list (Q * Q * Q) :=
  k ← seqZ 0 18;
  i ← seqZ i1 (i2 + 1 - i1);
  j ← seqZ i1 (i2 + 1 - i1);
  [(fstep * inject_Z i, fstep * inject_Z j, deg2rad (5 * inject_Z k))].

(** One pass of the loop body: [if val > best[0]: best = (val, ...)]. *)
Definition keep_better (best : Q * option (Q * Q * Q)) (c : Q * Q * Q)
    : Q * option (Q * Q * Q) :=
  let val := eval_model_2d c in
  if Qltb best.1 val then (val, Some c) else best.

(** [-1e20] *)
Definition worst : Q := inject_Z (- 10 ^ 20).

Definition grid_search (fstep : Q) (i1 i2 : Z) : Q * option (Q * Q * Q) :=
  fold_left keep_better (grid_points fstep i1 i2) (worst, None).

(** What the running best says about the candidates seen so far. *)
Definition best_of (start : Q) (seen : list (Q * Q * Q))
    (best : Q * option (Q * Q * Q)) : Prop :=
  start <= best.1 /\
  (forall q, q ∈ seen -> eval_model_2d q <= best.1) /\
  match best.2 with
  | None => best.1 = start
  | Some c =>
      best.1 = eval_model_2d c /\ start < best.1 /\
      exists before after,
        seen = before ++ c :: after /\
        forall q, q ∈ before -> eval_model_2d q < best.1
  end.

Lemma fold_keep_better (start : Q) (l : list (Q * Q * Q)) :
  best_of start l (fold_left keep_better l (start, None)).
Proof.
  induction l as [|x l IH] using rev_ind.
  - unfold best_of. cbn. split; [lra|].
    split; [intros q Hq; inversion Hq | reflexivity].
  - rewrite fold_left_app. cbn [fold_left].
    destruct (fold_left keep_better l (start, None)) as [v c].
    destruct IH as (Hstart & Hall & Hbest). cbn [fst snd] in *.
    unfold keep_better, best_of. cbv zeta. cbn [fst snd].
    destruct (Qltb v (eval_model_2d x)) eqn:E;
      [apply (proj1 (Qltb_lt _ _)) in E | apply (proj1 (Qltb_ge _ _)) in E].
    + cbn [fst snd]. split; [lra|]. split.
      * intros q Hq. apply elem_of_app in Hq as [Hq | Hq].
        -- specialize (Hall q Hq). lra.
        -- apply list_elem_of_singleton in Hq. subst q. lra.
      * split; [reflexivity|]. split; [lra|].
        exists l, []. split; [reflexivity|].
        intros q Hq. specialize (Hall q Hq). lra.
    + cbn [fst snd]. split; [exact Hstart|]. split.
      * intros q Hq. apply elem_of_app in Hq as [Hq | Hq].
        -- exact (Hall q Hq).
        -- apply list_elem_of_singleton in Hq. subst q. exact E.
      * destruct c as [c|]; [|exact Hbest].
        destruct Hbest as (Hv & Hlt & before & after & Hl & Hbefore).
        split; [exact Hv|]. split; [exact Hlt|].
        exists before, (after ++ [x]). split; [|exact Hbefore].
        rewrite Hl. rewrite <- app_assoc. reflexivity.
Qed.

Lemma length_grid_points (fstep : Q) (i1 i2 : Z) :
  length (grid_points fstep i1 i2)
  = (18 * (Z.to_nat (i2 + 1 - i1) * Z.to_nat (i2 + 1 - i1)))%nat.
Proof.
  unfold grid_points.
  assert (Hbind : forall (A B : Type) (f : A -> list B) (n : nat) (l : list A),
            (forall x, length (f x) = n) -> length (l ≫= f) = (length l * n)%nat).
  { intros A B f n l Hf. induction l as [|x l IHl]; [reflexivity|].
    cbn. rewrite length_app, Hf, IHl. lia. }
  rewrite (Hbind _ _ _ (Z.to_nat (i2 + 1 - i1) * Z.to_nat (i2 + 1 - i1))%nat).
  - rewrite length_seqZ. lia.
  - intros k. rewrite (Hbind _ _ _ (Z.to_nat (i2 + 1 - i1))).
    + rewrite length_seqZ. lia.
    + intros i. rewrite (Hbind _ _ _ 1%nat).
      * rewrite length_seqZ. lia.
      * intros j. reflexivity.
Qed.

(** X20: the grid search evaluates [18 * (i2 - i1 + 1)^2] candidates and
    returns the best of them: no candidate scores above the value it
    returns; the candidate it returns has that score, which is above
    [-1e20], and is the first one in loop order to reach it; and it returns
    no candidate at all ([None], on which the refinement that follows
    fails) only when no candidate scores above [-1e20].  (Scores are exact
    numbers here: a NaN score is not modelled.) *)
Theorem grid_search_best (fstep : Q) (i1 i2 : Z) :
  let points := grid_points fstep i1 i2 in
  let best := grid_search fstep i1 i2 in
  length points = (18 * (Z.to_nat (i2 + 1 - i1) * Z.to_nat (i2 + 1 - i1)))%nat /\
  (forall q, q ∈ points -> eval_model_2d q <= best.1) /\
  (forall c, best.2 = Some c ->
     best.1 = eval_model_2d c /\ worst < best.1 /\
     exists before after,
       points = before ++ c :: after /\
       forall q, q ∈ before -> eval_model_2d q < best.1) /\
  (best.2 = None <-> forall q, q ∈ points -> eval_model_2d q <= worst).
Proof.
  intros points best. split; [apply length_grid_points|].
  pose proof (fold_keep_better worst points) as Hbest.
  change (fold_left keep_better points (worst, None)) with best in Hbest.
  clearbody best. destruct best as [v choice].
  destruct Hbest as (Hstart & Hall & Hchoice). cbn [fst snd] in *.
  split; [exact Hall|]. split.
  - intros c Hc. subst choice. exact Hchoice.
  - destruct choice as [c|].
    + destruct Hchoice as (Hv & Hlt & before & after & Hl & _).
      split; [discriminate|]. intros Hlow. exfalso.
      assert (Hin : c ∈ points) by (rewrite Hl; set_solver).
      specialize (Hlow c Hin). rewrite Hv in Hlt. lra.
    + split; [|reflexivity]. intros _ q Hq. rewrite <- Hchoice. exact (Hall q Hq).
Qed.

End Grid.

Example grid_search_run :
  grid_search (fun d => d) (fun c => - (c.1.1 - 1000) * (c.1.1 - 1000) - c.1.2) 500 1 3
  = (- (500 * 2 - 1000) * (500 * 2 - 1000) - 500 * 1, Some (500 * 2, 500 * 1, 5 * 0)).
Proof. vm_compute. reflexivity. Qed.

End Estimate2D.

(* ===================================================================== *)
(** * The EMAN2/Sparx format adapter:
      [arachnid/core/image/formats/eman_format.py] *)
(* ===================================================================== *)

Module EmanFormat.

Import Py.

Local Open Scope string_scope.

(** ** Values and the outside world *)

(** What a caller may pass as [filename]: a string, or another object
    such as an open file. *)
Inductive pyobj : Type :=
| PyStr (s : string)
| PyFileObject (fd : Z).

(** [EMUtil.ImageType], as far as the adapter tells the types apart. *)
Inductive ImageType : Type :=
| IMAGE_UNKNOWN
| IMAGE_MRC
| IMAGE_SPIDER
| IMAGE_SINGLE_SPIDER
| IMAGE_OTHER (code : nat).

#[local] Instance ImageType_eq_dec : EqDecision ImageType.
Proof. solve_decision. Defined.

(** Every touch of the file system, in the order in which it happens. *)
Inductive access : Type :=
| GetImageType (filename : string)
| GetImageCount (filename : string)
| ReadImage (filename : string) (index : option Z)
| WriteImage (filename : string) (index : Z) (type : ImageType)
| PatchFile (filename : string) (offset : nat) (data : list byte).

(** The world the adapter acts on: the files by name, and the record of
    the accesses made so far. *)
Record world : Type := World {
  files : gmap string (list byte);
  accesses : list access
}.

Definition touch (a : access) (w : world) : world :=
  World (files w) (accesses w ++ [a])%list.

(** A computation on the world that may raise; the world is kept as it
    stood when the exception was raised. *)
Definition io (A : Type) : Type := world -> result A * world.

Definition io_ret {A : Type} (a : A) : io A := fun w => (Ok a, w).

Definition io_raise {A : Type} (e : exn) : io A := fun w => (Raise e, w).

Definition io_bind {A B : Type} (m : io A) (k : A -> io B) : io B :=
  fun w =>
    match m w with
    | (Ok a, w') => k a w'
    | (Raise e, w') => (Raise e, w')
    end.

Declare Scope io_scope.
Delimit Scope io_scope with io.
Notation "'let*' x ':=' m 'in' k" := (io_bind m (fun x => k))
  (at level 10, x name, m at level 200, k at level 200) : io_scope.

(** ** The EMAN2 library, as the adapter uses it *)

Class EMAN2 : Type := {
  (** the native image object and the numpy array *)
  EMData : Type;
  ndarray : Type;
  (** header dictionaries, and [spider._update_header(src, dst, table)] *)
  header : Type;
  empty_header : header;
  update_header : header -> option header -> header;
  (** [EMUtil.get_image_type(filename)]; it may raise *)
  get_image_type : gmap string (list byte) -> string -> result ImageType;
  (** [EMUtil.get_image_count(filename)] *)
  get_image_count : gmap string (list byte) -> string -> Z;
  (** [emdata.read_image_c(filename[, index])] on a given image object *)
  read_image_c : gmap string (list byte) -> EMData -> string -> option Z -> result EMData;
  (** [img.write_image_c(filename, index, type)]: the content of the file
      once written, given what the file held before *)
  write_image_c : option (list byte) -> EMData -> Z -> ImageType -> result (list byte);
  (** [Util.get_filename_ext] and [EMUtil.get_image_ext_type] *)
  get_filename_ext : string -> string;
  get_image_ext_type : string -> ImageType;
  (** [EMData()], attributes, and the conversions *)
  new_EMData : EMData;
  todict : EMData -> header;
  set_attrs : header -> EMData -> EMData;
  get_attr_string : EMData -> string -> option string;
  get_attr_float : EMData -> string -> Q;
  flip_y : EMData -> EMData;
  numpy2em : ndarray -> EMData;
  em2numpy : EMData -> ndarray
}.

Section Adapter.

Context `{EMAN2}.

Local Open Scope io_scope.

(** An image handed to [write_image]: native already, or a numpy array. *)
Inductive image : Type :=
| Em (e : EMData)
| Np (a : ndarray).

(** [try: "+"+filename / except: raise ValueError]: concatenation with a
    string succeeds on strings only. *)
Definition require_path (filename : pyobj) : io string :=
  match filename with
  | PyStr s => io_ret s
  | PyFileObject _ => io_raise ValueError
  end.

Definition is_readable (filename : string) : io bool :=
  fun w =>
    let w := touch (GetImageType filename) w in
    match get_image_type (files w) filename with
    | Ok t => (Ok (bool_decide (t <> IMAGE_UNKNOWN)), w)
    | Raise _ => (Ok false, w)
    end.

Definition native_image_type (filename : string) : io ImageType :=
  fun w =>
    let w := touch (GetImageType filename) w in
    (get_image_type (files w) filename, w).

Definition native_read (emdata : EMData) (filename : string) (index : option Z) : io EMData :=
  fun w =>
    let w := touch (ReadImage filename index) w in
    (read_image_c (files w) emdata filename index, w).

Definition native_count (filename : string) : io Z :=
  fun w =>
    let w := touch (GetImageCount filename) w in
    (Ok (get_image_count (files w) filename), w).

Definition read_header (filename : pyobj) (index : option Z) : io Q :=
  let* filename := require_path filename in
  let* readable := is_readable filename in
  if negb readable then io_raise IOError
  else
    let* emdata := native_read new_EMData filename index in
    io_ret (get_attr_float emdata "apix_x").

(** [mrc_label.find(...) != -1] *)
Definition contains (label pattern : string) : bool :=
  bool_decide (String.index 0 pattern label <> None).

(** [read_image]: the array, the header dictionary once updated, and the
    image object that was read into (the cache, when one was given). *)
Definition read_image (filename : pyobj) (index : option Z) (hdr : option header)
    (cache : option EMData) : io (ndarray * option header * EMData) :=
  let* filename := require_path filename in
  let* readable := is_readable filename in
  if negb readable then io_raise IOError
  else
    let emdata := match cache with None => new_EMData | Some c => c end in
    let* emdata := native_read emdata filename index in
    let hdr := match hdr with
               | Some h => Some (update_header (todict emdata) (Some h))
               | None => None
               end in
    let* type := native_image_type filename in
    let emdata :=
      if bool_decide (type = IMAGE_MRC) then
        let mrc_label := default "" (get_attr_string emdata "MRC.label0") in
        if contains mrc_label "IMAGIC" && contains mrc_label "SPIDER"
        then flip_y emdata else emdata
      else emdata in
    io_ret (em2numpy emdata, hdr, emdata).

Definition count_images (filename : pyobj) : io Z :=
  let* filename := require_path filename in
  let* readable := is_readable filename in
  if negb readable then io_raise IOError
  else native_count filename.

(** [iter_images] is a generator: calling it runs nothing, and its body
    starts at the first request for an image. *)
Inductive generator : Type :=
| NotStarted (filename : pyobj) (index : option Z) (hdr : option header)
| Suspended (filename : string) (i count : Z) (hdr : option header) (emdata : EMData)
| Finished.

Definition iter_images (filename : pyobj) (index : option Z) (hdr : option header)
    : generator :=
  NotStarted filename index hdr.

(** One pass of the loop [for i in xrange(index, count)]. *)
Definition iter_loop (filename : string) (i count : Z) (hdr : option header)
    (emdata : EMData) : io (option ndarray * generator) :=
  if (i <? count)%Z then
    let* r := read_image (PyStr filename) (Some i) hdr (Some emdata) in
    let '(img, hdr, emdata) := r in
    io_ret (Some img, Suspended filename (i + 1) count hdr emdata)
  else io_ret (None, Finished).

(** [next(g)]: the next image, or [None] when the generator is exhausted
    ([StopIteration]).  A generator that raised is finished. *)
Definition next (g : generator) : world -> result (option ndarray) * generator * world :=
  fun w =>
    let run :=
      match g with
      | NotStarted filename index hdr =>
          let* filename' := require_path filename in
          let* readable := is_readable filename' in
          if negb readable then io_raise IOError
          else
            let index := match index with None => 0 | Some i => i end in
            let emdata := new_EMData in
            let* count := count_images filename in
            if (count <=? index)%Z then io_raise IOError
            else iter_loop filename' index count hdr emdata
      | Suspended filename i count hdr emdata => iter_loop filename i count hdr emdata
      | Finished => io_ret (None, Finished)
      end in
    match run w with
    | (Ok (img, g'), w') => (Ok img, g', w')
    | (Raise e, w') => (Raise e, Finished, w')
    end.

(** The type [write_image] starts from: the one given, or the one the
    extension of the file name stands for. *)
Definition requested_type (type : option ImageType) (filename : string) : ImageType :=
  match type with
  | Some t => t
  | None => get_image_ext_type (get_filename_ext filename)
  end.

(** The type and index the native writer is called with: an unknown type
    is taken as a SPIDER stack, and without an index a SPIDER stack becomes
    a single SPIDER image and the index 0. *)
Definition written_as (type : ImageType) (index : option Z) : ImageType * Z :=
  let type := if bool_decide (type = IMAGE_UNKNOWN) then IMAGE_SPIDER else type in
  match index with
  | None =>
      let type := if bool_decide (type = IMAGE_SPIDER) then IMAGE_SINGLE_SPIDER else type in
      (type, 0)
  | Some i => (type, i)
  end.

(** The image object handed to the native writer: converted if needed,
    stamped with the header, and flipped for MRC. *)
Definition prepared_image (img : image) (hdr : option header) (type : ImageType) : EMData :=
  let img := match img with Em e => e | Np a => numpy2em a end in
  let h := update_header empty_header hdr in
  let img := set_attrs h img in
  if bool_decide (type = IMAGE_MRC) then flip_y img else img.

Definition native_write (img : EMData) (filename : string) (index : Z)
    (type : ImageType) : io unit :=
  fun w =>
    let w := touch (WriteImage filename index type) w in
    match write_image_c (files w !! filename) img index type with
    | Ok content => (Ok tt, World (<[filename := content]> (files w)) (accesses w))
    | Raise e => (Raise e, w)
    end.

(** [f.seek(offset); f.write(data)] on a file opened with ['r+b']: the
    bytes at [offset] are overwritten; a file that ends before [offset] is
    first filled up with zero bytes. *)
Definition overwrite_at (offset : nat) (data content : list byte) : list byte :=
  (take offset (content ++ replicate (offset - length content) x00)
   ++ data ++ drop (offset + length data) content)%list.

(** [struct.pack('f', 0.0)] *)
Definition packed_zero_float : list byte := [x00; x00; x00; x00].

Definition patch_file (filename : string) (offset : nat) (data : list byte) : io unit :=
  fun w =>
    let w := touch (PatchFile filename offset data) w in
    match files w !! filename with
    | Some content =>
        (Ok tt, World (<[filename := overwrite_at offset data content]> (files w))
                      (accesses w))
    | None => (Raise IOError, w)
    end.

Definition write_image (filename : pyobj) (img : image) (index : option Z)
    (hdr : option header) (type : option ImageType) : io unit :=
  let* filename := require_path filename in
  let type := requested_type type filename in
  let img := prepared_image img hdr type in
  let '(type, index) := written_as type index in
  let* _ := native_write img filename index type in
  if bool_decide (type = IMAGE_SINGLE_SPIDER)
  then patch_file filename (26 * 4) packed_zero_float
  else io_ret tt.

(** ** Streams are refused *)

(** C10: [read_image], [iter_images] (at the first image requested from
    the generator), [count_images] and [write_image], like [read_header],
    raise the invalid-parameter error when the file name is not a string
    but a stream object, and the world is left as it was: not a single file
    access is made before the error. *)
Theorem stream_refused_before_any_access (fd : Z) (w : world)
    (index : option Z) (hdr : option header) (cache : option EMData)
    (img : image) (type : option ImageType) :
  read_image (PyFileObject fd) index hdr cache w = (Raise ValueError, w) /\
  next (iter_images (PyFileObject fd) index hdr) w = (Raise ValueError, Finished, w) /\
  count_images (PyFileObject fd) w = (Raise ValueError, w) /\
  write_image (PyFileObject fd) img index hdr type w = (Raise ValueError, w) /\
  read_header (PyFileObject fd) index w = (Raise ValueError, w).
Proof. repeat split. Qed.

(** With a path, on the contrary, the first thing each reading operation
    does is to ask EMAN2 for the type of the file. *)
Lemma count_images_first_access (filename : string) (w : world) :
  exists rest, accesses (count_images (PyStr filename) w).2
               = (accesses w ++ GetImageType filename :: rest)%list.
Proof.
  unfold count_images, io_bind, require_path, io_ret, is_readable. cbn.
  destruct (get_image_type (files w) filename) as [t|e]; cbn.
  - destruct (bool_decide (t <> IMAGE_UNKNOWN)); cbn.
    + exists [GetImageCount filename]. rewrite <- app_assoc. reflexivity.
    + exists []. reflexivity.
  - exists []. reflexivity.
Qed.

(** ** The header patch of single SPIDER files *)

Lemma overwrite_at_prefix_length (offset : nat) (content : list byte) :
  length (take offset (content ++ replicate (offset - length content) x00)%list) = offset.
Proof. rewrite length_take, length_app, length_replicate. lia. Qed.

Lemma overwrite_at_patched (offset : nat) (data content : list byte) (i : nat) :
  (i < length data)%nat ->
  overwrite_at offset data content !! (offset + i)%nat = data !! i.
Proof.
  intros Hi. unfold overwrite_at.
  rewrite lookup_app_r by (rewrite overwrite_at_prefix_length; lia).
  rewrite overwrite_at_prefix_length.
  replace (offset + i - offset)%nat with i by lia.
  apply lookup_app_l. exact Hi.
Qed.

Lemma overwrite_at_before (offset : nat) (data content : list byte) (i : nat) :
  (i < offset)%nat -> (i < length content)%nat ->
  overwrite_at offset data content !! i = content !! i.
Proof.
  intros Hi Hlen. unfold overwrite_at.
  rewrite lookup_app_l by (rewrite overwrite_at_prefix_length; lia).
  rewrite lookup_take_lt by lia. apply lookup_app_l. exact Hlen.
Qed.

Lemma overwrite_at_after (offset : nat) (data content : list byte) (i : nat) :
  (offset + length data <= i)%nat ->
  overwrite_at offset data content !! i = content !! i.
Proof.
  intros Hi. unfold overwrite_at.
  rewrite lookup_app_r by (rewrite overwrite_at_prefix_length; lia).
  rewrite overwrite_at_prefix_length.
  rewrite lookup_app_r by lia.
  rewrite lookup_drop. f_equal. lia.
Qed.

Lemma overwrite_at_length (offset : nat) (data content : list byte) :
  (offset + length data <= length content)%nat ->
  length (overwrite_at offset data content) = length content.
Proof.
  intros Hlen. unfold overwrite_at.
  rewrite length_app, overwrite_at_prefix_length, length_app, length_drop. lia.
Qed.

(** C8: without an explicit index a SPIDER stack (asked for, or assumed
    because the type is unknown) is written as a single SPIDER image at
    index 0; and whenever the type handed to the native writer is the
    single SPIDER image and the native write succeeds, [write_image] goes
    on to patch the file it has just written: the four bytes at offset
    104 = 26 * 4 are overwritten with those of the float 0.0, and every
    other byte written is left alone. *)
Theorem write_image_single_spider (w : world) (filename : string) (img : image)
    (index : option Z) (hdr : option header) (type : option ImageType)
    (content : list byte) :
  let t := requested_type type filename in
  let ty := (written_as t index).1 in
  let idx := (written_as t index).2 in
  ty = IMAGE_SINGLE_SPIDER ->
  write_image_c (files w !! filename) (prepared_image img hdr t) idx ty = Ok content ->
  written_as IMAGE_SPIDER None = (IMAGE_SINGLE_SPIDER, 0) /\
  written_as IMAGE_UNKNOWN None = (IMAGE_SINGLE_SPIDER, 0) /\
  exists w',
    write_image (PyStr filename) img index hdr type w = (Ok tt, w') /\
    accesses w' = (accesses w ++ [WriteImage filename idx ty;
                                  PatchFile filename 104 packed_zero_float])%list /\
    files w' !! filename = Some (overwrite_at 104 packed_zero_float content) /\
    (forall i, (i < 4)%nat ->
       overwrite_at 104 packed_zero_float content !! (104 + i)%nat = Some x00) /\
    (forall i, (i < 104 \/ 108 <= i)%nat -> (i < length content)%nat ->
       overwrite_at 104 packed_zero_float content !! i = content !! i).
Proof.
  intros t ty idx Hty Hwrite.
  split; [reflexivity|]. split; [reflexivity|].
  eexists. split; [|split; [|split; [|split]]].
  - unfold write_image, io_bind, require_path, io_ret. fold t.
    destruct (written_as t index) as [ty' idx'] eqn:Hwa.
    subst ty idx. cbn [fst snd] in *. subst ty'.
    unfold native_write, touch. cbn [files accesses]. rewrite Hwrite.
    rewrite bool_decide_eq_true_2 by reflexivity.
    unfold patch_file, touch. cbn [files accesses].
    rewrite lookup_insert_eq. reflexivity.
  - cbn [accesses]. rewrite <- app_assoc, Hty. reflexivity.
  - cbn [files]. rewrite lookup_insert_eq. reflexivity.
  - intros i Hi. rewrite overwrite_at_patched by (cbn; lia).
    destruct i as [|[|[|[|i]]]]; cbn; try reflexivity; lia.
  - intros i [Hi | Hi] Hlen.
    + apply overwrite_at_before; assumption.
    + apply overwrite_at_after. cbn. lia.
Qed.

End Adapter.

(** ** A run against a stand-in for EMAN2 *)

(** A stand-in whose native writer produces a 256-byte header of [0xff]
    followed by the pixel bytes, and which maps the extension "spi" to the
    SPIDER stack format. *)
Definition bench_eman2 : EMAN2 := {|
  EMData := list byte;
  ndarray := list byte;
  header := unit;
  empty_header := tt;
  update_header := fun _ _ => tt;
  get_image_type := fun fs filename =>
    match fs !! filename with Some _ => Ok IMAGE_SINGLE_SPIDER | None => Raise IOError end;
  get_image_count := fun _ _ => 1%Z;
  read_image_c := fun fs _ filename _ =>
    match fs !! filename with Some c => Ok (drop 256 c) | None => Raise IOError end;
  write_image_c := fun _ e _ _ => Ok (replicate 256 xff ++ e)%list;
  get_filename_ext := fun s => String.substring (String.length s - 3) 3 s;
  get_image_ext_type := fun ext => if String.eqb ext "spi" then IMAGE_SPIDER else IMAGE_UNKNOWN;
  new_EMData := [];
  todict := fun _ => tt;
  set_attrs := fun _ e => e;
  get_attr_string := fun _ _ => None;
  get_attr_float := fun _ _ => 1%Q;
  flip_y := fun e => e;
  numpy2em := fun a => a;
  em2numpy := fun e => e
|}.

Definition empty_world : world := World ∅ [].

Example write_image_run :
  let w' := (@write_image bench_eman2 (PyStr "avg_0001.spi")
               (@Np bench_eman2 [x01; x02]) None None None empty_world).2 in
  accesses w' = [WriteImage "avg_0001.spi" 0 IMAGE_SINGLE_SPIDER;
                 PatchFile "avg_0001.spi" 104 [x00; x00; x00; x00]] /\
  files w' !! "avg_0001.spi" =
  Some (replicate 104 xff ++ [x00; x00; x00; x00] ++ replicate 148 xff ++ [x01; x02])%list.
Proof. split; vm_compute; reflexivity. Qed.

Lemma write_image_single_spider_witness :
  written_as IMAGE_SPIDER None = (IMAGE_SINGLE_SPIDER, 0%Z) /\
  written_as IMAGE_UNKNOWN None = (IMAGE_SINGLE_SPIDER, 0%Z) /\
  exists w',
    @write_image bench_eman2 (PyStr "avg_0001.spi") (@Np bench_eman2 [x01; x02])
      None None None empty_world = (Ok tt, w') /\
    accesses w' = (accesses empty_world ++
                   [WriteImage "avg_0001.spi" 0 IMAGE_SINGLE_SPIDER;
                    PatchFile "avg_0001.spi" 104 packed_zero_float])%list /\
    files w' !! "avg_0001.spi"
    = Some (overwrite_at 104 packed_zero_float (replicate 256 xff ++ [x01; x02])%list) /\
    (forall i, (i < 4)%nat ->
       overwrite_at 104 packed_zero_float (replicate 256 xff ++ [x01; x02])%list
         !! (104 + i)%nat = Some x00) /\
    (forall i, (i < 104 \/ 108 <= i)%nat ->
       (i < length (replicate 256 xff ++ [x01; x02])%list)%nat ->
       overwrite_at 104 packed_zero_float (replicate 256 xff ++ [x01; x02])%list !! i
       = (replicate 256 xff ++ [x01; x02])%list !! i).
Proof.
  apply (@write_image_single_spider bench_eman2 empty_world "avg_0001.spi"
           (@Np bench_eman2 [x01; x02]) None None None
           (replicate 256 xff ++ [x01; x02])%list).
  - reflexivity.
  - reflexivity.
Defined.

(** ** More on the adapter: what reading does to the world *)

Section AdapterFacts.

Context `{EMAN2}.

Local Open Scope io_scope.

(** The accesses that only look at a file. *)
Definition is_read_access (a : access) : Prop :=
  match a with
  | GetImageType _ | GetImageCount _ | ReadImage _ _ => True
  | WriteImage _ _ _ | PatchFile _ _ _ => False
  end.

(** A computation that leaves every file as it is and only looks at
    files. *)
Definition read_only {A : Type} (m : io A) : Prop :=
  forall w,
    files (m w).2 = files w /\
    exists added, accesses (m w).2 = (accesses w ++ added)%list /\
                  Forall is_read_access added.

Lemma read_only_ret {A : Type} (a : A) : read_only (io_ret a).
Proof. intros w. split; [reflexivity|]. exists []. rewrite app_nil_r. split; [reflexivity | constructor]. Qed.

Lemma read_only_raise {A : Type} (e : exn) : read_only (@io_raise A e).
Proof. intros w. split; [reflexivity|]. exists []. rewrite app_nil_r. split; [reflexivity | constructor]. Qed.

Lemma read_only_bind {A B : Type} (m : io A) (k : A -> io B) :
  read_only m -> (forall a, read_only (k a)) -> read_only (io_bind m k).
Proof.
  intros Hm Hk w. unfold io_bind. specialize (Hm w).
  destruct (m w) as [[a|e] w1]; cbn [snd] in *.
  - destruct Hm as (Hf1 & added1 & Ha1 & Hr1).
    destruct (Hk a w1) as (Hf2 & added2 & Ha2 & Hr2).
    split; [congruence|]. exists (added1 ++ added2)%list.
    split; [rewrite Ha2, Ha1, app_assoc; reflexivity | apply Forall_app; split; assumption].
  - exact Hm.
Qed.

Lemma read_only_touch {A : Type} (a : access) (f : gmap string (list byte) -> result A) :
  is_read_access a -> read_only (fun w => (f (files (touch a w)), touch a w)).
Proof.
  intros Ha w. split; [reflexivity|]. exists [a]. split; [reflexivity|].
  constructor; [exact Ha | constructor].
Qed.

Lemma read_only_require_path (filename : pyobj) : read_only (require_path filename).
Proof. destruct filename; [apply read_only_ret | apply read_only_raise]. Qed.

Lemma read_only_is_readable (filename : string) : read_only (is_readable filename).
Proof.
  intros w. unfold is_readable.
  destruct (get_image_type (files (touch (GetImageType filename) w)) filename);
    (split; [reflexivity|]; exists [GetImageType filename]; split;
       [reflexivity | repeat constructor]).
Qed.

Lemma read_only_native_read (emdata : EMData) (filename : string) (index : option Z) :
  read_only (native_read emdata filename index).
Proof.
  exact (read_only_touch (ReadImage filename index)
           (fun fs => read_image_c fs emdata filename index) I).
Qed.

Lemma read_only_native_image_type (filename : string) :
  read_only (native_image_type filename).
Proof.
  exact (read_only_touch (GetImageType filename)
           (fun fs => get_image_type fs filename) I).
Qed.

Lemma read_only_native_count (filename : string) : read_only (native_count filename).
Proof.
  exact (read_only_touch (GetImageCount filename)
           (fun fs => Ok (get_image_count fs filename)) I).
Qed.

Lemma read_only_read_header (filename : pyobj) (index : option Z) :
  read_only (read_header filename index).
Proof.
  unfold read_header.
  apply read_only_bind; [apply read_only_require_path | intros name].
  apply read_only_bind; [apply read_only_is_readable | intros readable].
  destruct readable; cbn [negb]; [|apply read_only_raise].
  apply read_only_bind; [apply read_only_native_read | intros emdata].
  apply read_only_ret.
Qed.

Lemma read_only_read_image (filename : pyobj) (index : option Z) (hdr : option header)
    (cache : option EMData) :
  read_only (read_image filename index hdr cache).
Proof.
  unfold read_image.
  apply read_only_bind; [apply read_only_require_path | intros name].
  apply read_only_bind; [apply read_only_is_readable | intros readable].
  destruct readable; cbn [negb]; [|apply read_only_raise].
  apply read_only_bind; [apply read_only_native_read | intros emdata].
  apply read_only_bind; [apply read_only_native_image_type | intros type].
  apply read_only_ret.
Qed.

Lemma read_only_count_images (filename : pyobj) : read_only (count_images filename).
Proof.
  unfold count_images.
  apply read_only_bind; [apply read_only_require_path | intros name].
  apply read_only_bind; [apply read_only_is_readable | intros readable].
  destruct readable; cbn [negb]; [apply read_only_native_count | apply read_only_raise].
Qed.

Lemma read_only_iter_loop (filename : string) (i count : Z) (hdr : option header)
    (emdata : EMData) :
  read_only (iter_loop filename i count hdr emdata).
Proof.
  unfold iter_loop. destruct (i <? count)%Z; [|apply read_only_ret].
  apply read_only_bind; [apply read_only_read_image | intros [[img hdr'] emdata']].
  apply read_only_ret.
Qed.

(** X21: the reading operations never change a file and never make a
    writing access, whatever they are given and whether they succeed or
    raise: after [read_header], [read_image], [count_images] or a request
    for the next image of [iter_images] (in any state of the generator) the
    files are as before, and each access added to the record is a type
    query, a count query or an image read. *)
Theorem reading_leaves_files (w : world) (filename : pyobj) (index : option Z)
    (hdr : option header) (cache : option EMData) (g : generator) :
  let unchanged (w' : world) :=
    files w' = files w /\
    exists added, accesses w' = (accesses w ++ added)%list /\
                  Forall is_read_access added in
  unchanged (read_header filename index w).2 /\
  unchanged (read_image filename index hdr cache w).2 /\
  unchanged (count_images filename w).2 /\
  unchanged (next g w).2.
Proof.
  intros unchanged. subst unchanged. cbv beta.
  split; [apply read_only_read_header|].
  split; [apply read_only_read_image|].
  split; [apply read_only_count_images|].
  assert (Hrun : read_only
    match g with
    | NotStarted filename index hdr =>
        let* filename' := require_path filename in
        let* readable := is_readable filename' in
        if negb readable then io_raise IOError
        else
          let index := match index with None => 0%Z | Some i => i end in
          let emdata := new_EMData in
          let* count := count_images filename in
          if (count <=? index)%Z then io_raise IOError
          else iter_loop filename' index count hdr emdata
    | Suspended filename i count hdr emdata => iter_loop filename i count hdr emdata
    | Finished => io_ret (None, Finished)
    end).
  { destruct g as [fn idx h | fn i count h emdata |].
    - apply read_only_bind; [apply read_only_require_path | intros name].
      apply read_only_bind; [apply read_only_is_readable | intros readable].
      destruct readable; cbn [negb]; [|apply read_only_raise].
      cbv zeta.
      apply read_only_bind; [apply read_only_count_images | intros count].
      destruct (count <=? _)%Z; [apply read_only_raise | apply read_only_iter_loop].
    - apply read_only_iter_loop.
    - apply read_only_ret. }
  specialize (Hrun w). unfold next.
  match goal with
  | H : context [?m w] |- context [match ?m' w with _ => _ end] =>
      change (m' w) with (m w); destruct (m w) as [[[img g']|e] w']
  end; exact Hrun.
Qed.

(** When EMAN2 does not recognise the file, or fails on it. *)
Definition unrecognised (w : world) (filename : string) : Prop :=
  get_image_type (files w) filename = Ok IMAGE_UNKNOWN \/
  exists e, get_image_type (files w) filename = Raise e.

(** X22: on a file that EMAN2 does not recognise (the type query gives
    [IMAGE_UNKNOWN], or raises whatever exception), each reading operation
    raises [IOError] after that one type query: nothing is read or
    counted, and an error of the type query itself never reaches the
    caller. *)
Theorem unrecognised_file_refused (w : world) (filename : string) (index : option Z)
    (hdr : option header) (cache : option EMData) :
  unrecognised w filename ->
  let w' := touch (GetImageType filename) w in
  read_header (PyStr filename) index w = (Raise IOError, w') /\
  read_image (PyStr filename) index hdr cache w = (Raise IOError, w') /\
  count_images (PyStr filename) w = (Raise IOError, w') /\
  next (iter_images (PyStr filename) index hdr) w = (Raise IOError, Finished, w').
Proof.
  intros Hun w'.
  assert (Hread : is_readable filename w = (Ok false, w')).
  { unfold is_readable. fold w'. change (files w') with (files w).
    destruct Hun as [Hty | [e Hty]]; rewrite Hty; reflexivity. }
  unfold read_header, read_image, count_images, next, iter_images, io_bind,
    require_path, io_ret, io_raise.
  rewrite Hread. cbn [negb]. repeat split.
Qed.

(** A file that EMAN2 recognises and whose images can all be read from
    [first] on. *)
Definition readable_from (fs : gmap string (list byte)) (filename : string)
    (first : Z) : Prop :=
  (exists t, get_image_type fs filename = Ok t /\ t <> IMAGE_UNKNOWN) /\
  forall (emdata : EMData) (i : Z),
    (first <= i < get_image_count fs filename)%Z ->
    exists emdata', read_image_c fs emdata filename (Some i) = Ok emdata'.

(** Up to [n] images taken from a generator, as
    [list(itertools.islice(g, n))] does. *)
Fixpoint take_images (n : nat) (g : generator) (w : world)
    : result (list ndarray) * generator * world :=
  match n with
  | O => (Ok [], g, w)
  | S n =>
      match next g w with
      | (Ok (Some img), g', w') =>
          match take_images n g' w' with
          | (Ok imgs, g'', w'') => (Ok (img :: imgs), g'', w'')
          | (Raise e, g'', w'') => (Raise e, g'', w'')
          end
      | (Ok None, g', w') => (Ok [], g', w')
      | (Raise e, g', w') => (Raise e, g', w')
      end
  end.

Lemma is_readable_recognised (w : world) (filename : string) (t : ImageType) :
  get_image_type (files w) filename = Ok t -> t <> IMAGE_UNKNOWN ->
  is_readable filename w = (Ok true, touch (GetImageType filename) w).
Proof.
  intros Hty Hknown. unfold is_readable. change (files (touch _ w)) with (files w).
  rewrite Hty. rewrite bool_decide_eq_true_2 by exact Hknown. reflexivity.
Qed.

Lemma read_image_recognised (w : world) (filename : string) (i : Z)
    (hdr : option header) (emdata : EMData) :
  readable_from (files w) filename i ->
  (i < get_image_count (files w) filename)%Z ->
  exists r,
    read_image (PyStr filename) (Some i) hdr (Some emdata) w
    = (Ok r, World (files w)
               (accesses w ++ [GetImageType filename; ReadImage filename (Some i);
                               GetImageType filename])).
Proof.
  intros [(t & Hty & Hknown) Hreads] Hi.
  destruct (Hreads emdata i) as [emdata' Hread]; [lia|].
  unfold read_image, io_bind, require_path, io_ret.
  rewrite (is_readable_recognised w filename t Hty Hknown). cbn [negb].
  unfold native_read, native_image_type.
  change (files (touch _ (touch _ w))) with (files w).
  rewrite Hread.
  change (files (touch _ (touch _ (touch _ w)))) with (files w).
  rewrite Hty. eexists. f_equal. unfold touch. cbn [files accesses].
  rewrite <- !app_assoc. reflexivity.
Qed.

Lemma take_images_suspended (filename : string) (count : Z) (n : nat) :
  forall (i : Z) (hdr : option header) (emdata : EMData) (w : world),
  readable_from (files w) filename i ->
  count = get_image_count (files w) filename ->
  (i + Z.of_nat n = count)%Z ->
  exists imgs w',
    take_images (S n) (Suspended filename i count hdr emdata) w = (Ok imgs, Finished, w') /\
    length imgs = n /\ files w' = files w /\
    length (accesses w') = (length (accesses w) + 3 * n)%nat.
Proof.
  induction n as [|n IH]; intros i hdr emdata w Hreadable Hcount Hi.
  - exists [], w. cbn [take_images]. unfold next, iter_loop.
    destruct (Z.ltb_spec i count) as [Hlt | _]; [lia|].
    repeat split. lia.
  - destruct (read_image_recognised w filename i hdr emdata Hreadable) as [[[img hdr'] emdata'] Hread];
      [lia|].
    set (w1 := World (files w) _) in Hread.
    destruct (IH (i + 1)%Z hdr' emdata' w1) as (imgs & w' & Hrest & Hlen & Hfiles & Hacc).
    { destruct Hreadable as [Hty Hreads]. split; [exact Hty|].
      intros e j Hj. apply Hreads. change (files w1) with (files w) in Hj. lia. }
    { exact Hcount. }
    { lia. }
    exists (img :: imgs), w'.
    change (take_images (S (S n)) (Suspended filename i count hdr emdata) w)
      with (match next (Suspended filename i count hdr emdata) w with
            | (Ok (Some img), g', w') =>
                match take_images (S n) g' w' with
                | (Ok imgs, g'', w'') => (Ok (img :: imgs), g'', w'')
                | (Raise e, g'', w'') => (Raise e, g'', w'')
                end
            | (Ok None, g', w') => (Ok [], g', w')
            | (Raise e, g', w') => (Raise e, g', w')
            end).
    assert (Hnext : next (Suspended filename i count hdr emdata) w
                    = (Ok (Some img), Suspended filename (i + 1) count hdr' emdata', w1)).
    { unfold next, iter_loop. destruct (Z.ltb_spec i count) as [_ | Hge]; [|lia].
      unfold io_bind. rewrite Hread. reflexivity. }
    rewrite Hnext, Hrest. split; [reflexivity|].
    split; [cbn [length]; lia|]. split; [exact Hfiles|].
    rewrite Hacc. subst w1. cbn [accesses]. rewrite length_app. cbn [length]. lia.
Qed.

(** X23: on a recognised file whose images from [first] on can all be
    read, taking images from [iter_images(filename, first)] yields one
    image for each index from [first] to the last of the stack and then
    stops: [count - first] images come out of [count - first + 1] requests,
    the generator is finished, the files are untouched, and three accesses
    were made at the start (two type queries and the count) and three more
    for each image (a type query, the read, a type query). *)
Theorem iter_images_yields_rest (w : world) (filename : string) (first : Z)
    (hdr : option header) :
  readable_from (files w) filename first ->
  (0 <= first < get_image_count (files w) filename)%Z ->
  let n := Z.to_nat (get_image_count (files w) filename - first) in
  exists imgs w',
    take_images (S n) (iter_images (PyStr filename) (Some first) hdr) w
    = (Ok imgs, Finished, w') /\
    length imgs = n /\ files w' = files w /\
    length (accesses w') = (length (accesses w) + 3 + 3 * n)%nat.
Proof.
  intros Hreadable Hfirst n.
  set (count := get_image_count (files w) filename) in *.
  destruct Hreadable as [(t & Hty & Hknown) Hreads].
  set (w0 := World (files w) (accesses w ++ [GetImageType filename; GetImageType filename;
                                            GetImageCount filename])).
  assert (Hm : exists m, n = S m /\ (first + 1 + Z.of_nat m = count)%Z).
  { exists (Z.to_nat (count - first - 1)). subst n. split; lia. }
  destruct Hm as (m & Hnm & Hm). rewrite Hnm. clear Hnm. clearbody n. clear n.
  destruct (read_image_recognised w0 filename first hdr new_EMData) as [[[img hdr'] emdata'] Hread].
  { split; [exists t; split; assumption | exact Hreads]. }
  { change (files w0) with (files w). fold count. lia. }
  set (w1 := World (files w0) _) in Hread.
  destruct (take_images_suspended filename count m (first + 1)%Z hdr' emdata' w1)
    as (imgs & w' & Hrest & Hlen & Hfiles & Hacc).
  { split; [exists t; split; assumption|].
    intros e j Hj. apply Hreads. change (files w1) with (files w) in Hj.
    fold count in Hj. fold count. lia. }
  { reflexivity. }
  { lia. }
  assert (Hnext : next (iter_images (PyStr filename) (Some first) hdr) w
                  = (Ok (Some img), Suspended filename (first + 1) count hdr' emdata', w1)).
  { unfold next, iter_images, io_bind at 1 2, require_path, io_ret.
    rewrite (is_readable_recognised w filename t Hty Hknown). cbn [negb].
    unfold count_images, io_bind at 1 2 3, require_path, io_ret.
    rewrite (is_readable_recognised (touch (GetImageType filename) w) filename t Hty Hknown).
    cbn [negb]. unfold native_count.
    change (files (touch _ (touch _ (touch _ w)))) with (files w). fold count.
    destruct (Z.leb_spec count first) as [Hle | _]; [lia|].
    assert (Hw0 : touch (GetImageCount filename)
                    (touch (GetImageType filename) (touch (GetImageType filename) w)) = w0).
    { unfold touch, w0. cbn [files accesses]. rewrite <- !app_assoc. reflexivity. }
    rewrite Hw0. unfold iter_loop.
    destruct (Z.ltb_spec first count) as [_ | Hge]; [|lia].
    unfold io_bind. rewrite Hread. reflexivity. }
  exists (img :: imgs), w'.
  change (take_images (S (S m)) (iter_images (PyStr filename) (Some first) hdr) w)
    with (match next (iter_images (PyStr filename) (Some first) hdr) w with
          | (Ok (Some img), g', w') =>
              match take_images (S m) g' w' with
              | (Ok imgs, g'', w'') => (Ok (img :: imgs), g'', w'')
              | (Raise e, g'', w'') => (Raise e, g'', w'')
              end
          | (Ok None, g', w') => (Ok [], g', w')
          | (Raise e, g', w') => (Raise e, g', w')
          end).
  rewrite Hnext, Hrest. split; [reflexivity|].
  split; [cbn [length]; lia|]. split; [exact Hfiles|].
  rewrite Hacc. subst w1 w0. cbn [accesses]. rewrite !length_app. cbn [length]. lia.
Qed.

(** X24: on a recognised file, a start index at or beyond the number of
    images makes the first request raise [IOError] before any image is
    read; with the default start index 0 this is what happens on a stack
    without images, which is an error and not an empty iteration. *)
Theorem iter_images_start_beyond_count (w : world) (filename : string)
    (index : option Z) (hdr : option header) (t : ImageType) :
  get_image_type (files w) filename = Ok t -> t <> IMAGE_UNKNOWN ->
  (get_image_count (files w) filename <= default 0 index)%Z ->
  next (iter_images (PyStr filename) index hdr) w
  = (Raise IOError, Finished,
     World (files w) (accesses w ++ [GetImageType filename; GetImageType filename;
                                     GetImageCount filename])).
Proof.
  intros Hty Hknown Hbeyond.
  unfold next, iter_images, io_bind at 1 2, require_path, io_ret.
  rewrite (is_readable_recognised w filename t Hty Hknown). cbn [negb].
  unfold count_images, io_bind at 1 2 3, require_path, io_ret.
  rewrite (is_readable_recognised (touch (GetImageType filename) w) filename t Hty Hknown).
  cbn [negb]. unfold native_count.
  change (files (touch _ (touch _ (touch _ w)))) with (files w).
  assert (Hidx : match index with Some i => i | None => 0%Z end = default 0%Z index)
    by (destruct index; reflexivity).
  rewrite Hidx.
  destruct (Z.leb_spec (get_image_count (files w) filename) (default 0%Z index)) as [_ | Hlt];
    [|lia].
  unfold io_raise, touch. cbn [files accesses]. rewrite <- !app_assoc. reflexivity.
Qed.

(** X25: whenever the type handed to the native writer is not the single
    SPIDER image, [write_image] makes the native write its only access:
    the file holds exactly what the native writer produced, no other file
    changes, and nothing is patched.  With an explicit index this is the
    case for every type but the single SPIDER image itself: a SPIDER stack
    stays a stack. *)
Theorem write_image_unpatched (w : world) (filename : string) (img : image)
    (index : option Z) (hdr : option header) (type : option ImageType)
    (content : list byte) :
  let t := requested_type type filename in
  let ty := (written_as t index).1 in
  let idx := (written_as t index).2 in
  ty <> IMAGE_SINGLE_SPIDER ->
  write_image_c (files w !! filename) (prepared_image img hdr t) idx ty = Ok content ->
  write_image (PyStr filename) img index hdr type w
  = (Ok tt, World (<[filename := content]> (files w))
                  (accesses w ++ [WriteImage filename idx ty])) /\
  (forall (t' : ImageType) (i : Z),
     t' <> IMAGE_SINGLE_SPIDER ->
     (written_as t' (Some i)).1 <> IMAGE_SINGLE_SPIDER /\ (written_as t' (Some i)).2 = i).
Proof.
  intros t ty idx Hty Hwrite. split.
  - unfold write_image, io_bind, require_path, io_ret. fold t.
    destruct (written_as t index) as [ty' idx'] eqn:Hwa.
    subst ty idx. cbn [fst snd] in *.
    unfold native_write, touch. cbn [files accesses]. rewrite Hwrite.
    rewrite bool_decide_eq_false_2 by exact Hty. reflexivity.
  - intros t' i Ht'. unfold written_as. cbn [fst snd]. split; [|reflexivity].
    destruct (bool_decide (t' = IMAGE_UNKNOWN)); [discriminate | exact Ht'].
Qed.


End AdapterFacts.

(** A stand-in for EMAN2 that knows stacks of one-byte images: a file of
    [n] bytes holds [n] images, and image [i] is its byte [i]. *)
Definition stack_eman2 : EMAN2 := {|
  EMData := list byte;
  ndarray := list byte;
  header := unit;
  empty_header := tt;
  update_header := fun _ _ => tt;
  get_image_type := fun fs filename =>
    match fs !! filename with Some _ => Ok IMAGE_SPIDER | None => Ok IMAGE_UNKNOWN end;
  get_image_count := fun fs filename =>
    match fs !! filename with Some c => Z.of_nat (length c) | None => 0%Z end;
  read_image_c := fun fs _ filename index =>
    match fs !! filename with
    | Some c =>
        match c !! Z.to_nat (default 0%Z index) with
        | Some b => Ok [b]
        | None => Raise IOError
        end
    | None => Raise IOError
    end;
  write_image_c := fun old e _ t =>
    if bool_decide (t = IMAGE_OTHER 0) then Raise IOError else Ok (default [] old ++ e)%list;
  get_filename_ext := fun s => String.substring (String.length s - 3) 3 s;
  get_image_ext_type := fun ext => if String.eqb ext "spi" then IMAGE_SPIDER else IMAGE_UNKNOWN;
  new_EMData := [];
  todict := fun _ => tt;
  set_attrs := fun _ e => e;
  get_attr_string := fun _ _ => None;
  get_attr_float := fun _ _ => 1%Q;
  flip_y := fun e => e;
  numpy2em := fun a => a;
  em2numpy := fun e => e
|}.

Definition stack_world : world := World {[ "stack.spi" := [x0a; x0b; x0c] ]} [].

Example iter_images_run :
  (@take_images stack_eman2 4 (@iter_images stack_eman2 (PyStr "stack.spi") (Some 1%Z) None)
     stack_world).1
  = (Ok [[x0b]; [x0c]], @Finished stack_eman2).
Proof. vm_compute. reflexivity. Qed.

Lemma unrecognised_file_refused_witness :
  let w' := touch (GetImageType "notes.txt") stack_world in
  @read_header stack_eman2 (PyStr "notes.txt") None stack_world = (Raise IOError, w') /\
  @read_image stack_eman2 (PyStr "notes.txt") None None None stack_world
  = (Raise IOError, w') /\
  @count_images stack_eman2 (PyStr "notes.txt") stack_world = (Raise IOError, w') /\
  @next stack_eman2 (@iter_images stack_eman2 (PyStr "notes.txt") None None) stack_world
  = (Raise IOError, @Finished stack_eman2, w').
Proof.
  apply (@unrecognised_file_refused stack_eman2 stack_world "notes.txt" None None None).
  left. reflexivity.
Defined.

Lemma iter_images_yields_rest_witness :
  exists imgs w',
    @take_images stack_eman2 (S 2) (@iter_images stack_eman2 (PyStr "stack.spi") (Some 1%Z) None)
      stack_world
    = (Ok imgs, @Finished stack_eman2, w') /\
    length imgs = 2%nat /\ files w' = files stack_world /\
    length (accesses w') = (length (accesses stack_world) + 3 + 3 * 2)%nat.
Proof.
  apply (@iter_images_yields_rest stack_eman2 stack_world "stack.spi" 1%Z None).
  - split.
    + exists IMAGE_SPIDER. split; [reflexivity | discriminate].
    + intros emdata i Hi. change (get_image_count (files stack_world) "stack.spi") with 3%Z in Hi.
      assert (Hcases : i = 1%Z \/ i = 2%Z) by lia.
      destruct Hcases as [-> | ->]; eexists; reflexivity.
  - change (get_image_count (files stack_world) "stack.spi") with 3%Z. lia.
Defined.

Lemma iter_images_start_beyond_count_witness :
  @next stack_eman2 (@iter_images stack_eman2 (PyStr "stack.spi") (Some 3%Z) None) stack_world
  = (Raise IOError, @Finished stack_eman2,
     World (files stack_world)
       (accesses stack_world ++ [GetImageType "stack.spi"; GetImageType "stack.spi";
                                 GetImageCount "stack.spi"])).
Proof.
  apply (@iter_images_start_beyond_count stack_eman2 stack_world "stack.spi" (Some 3%Z) None
           IMAGE_SPIDER).
  - reflexivity.
  - discriminate.
  - change (get_image_count (files stack_world) "stack.spi") with 3%Z. cbn. lia.
Defined.

Lemma write_image_unpatched_witness :
  @write_image stack_eman2 (PyStr "stack.spi") (@Np stack_eman2 [x0d]) (Some 3%Z) None None
    stack_world
  = (Ok tt, World (<["stack.spi" := [x0a; x0b; x0c; x0d]]> (files stack_world))
                  (accesses stack_world ++ [WriteImage "stack.spi" 3 IMAGE_SPIDER])) /\
  (forall (t' : ImageType) (i : Z),
     t' <> IMAGE_SINGLE_SPIDER ->
     (written_as t' (Some i)).1 <> IMAGE_SINGLE_SPIDER /\ (written_as t' (Some i)).2 = i).
Proof.
  apply (@write_image_unpatched stack_eman2 stack_world "stack.spi" (@Np stack_eman2 [x0d])
           (Some 3%Z) None None [x0a; x0b; x0c; x0d]).
  - discriminate.
  - reflexivity.
Defined.


End EmanFormat.

(* ===================================================================== *)
(** * The image viewer: [arachnid/core/gui/ImageViewer.py] *)
(* ===================================================================== *)

Module ImageViewer.

Import Py.

(** ** Widgets and the state of the main window *)

(** A Qt spin box: its range and its value.  The form file that fixes the
    ranges of the viewer's spin boxes is not among the sources, so the
    ranges are part of the state. *)
Record QSpinBox : Type := SpinBox {
  minimum : Z;
  maximum : Z;
  value : Z
}.

(** [QSpinBox.setValue]: the value is brought into the range of the box. *)
Definition setValue (v : Z) (box : QSpinBox) : QSpinBox :=
  SpinBox (minimum box) (maximum box) (Z.max (minimum box) (Z.min (maximum box) v)).

(** The range a spin box has in Qt unless the form says otherwise. *)
Definition default_spin_box (v : Z) : QSpinBox := SpinBox 0 99 v.

(** One row of [file_index]: (file slot, offset in the file, reserved). *)
Definition index_row : Type := (Z * Z * Z)%type.

(** The part of the main window that paging reads and writes. *)
Record viewer : Type := Viewer {
  files : list string;
  file_index : list index_row;
  average : bool;
  pageSpinBox : QSpinBox;
  imageCountSpinBox : QSpinBox
}.

(** What [imageSubset] returns first: file names in "average" mode, rows of
    the file index otherwise. *)
Inductive subset : Type :=
| FileNames (l : list string)
| IndexRows (l : list index_row).

Definition subset_len (s : subset) : nat :=
  match s with
  | FileNames l => length l
  | IndexRows l => length l
  end.

(** ** Paging *)

Definition imageSubset (self : viewer) (index count : Z) : subset * Z :=
  if average self then
    (FileNames (slice (files self) (index * count) ((index + 1) * count)), index * count)
  else
    (IndexRows (slice (file_index self) (index * count) ((index + 1) * count)),
     index * count).

Definition imageTotal (self : viewer) : Z :=
  if average self then Z.of_nat (length (files self))
  else Z.of_nat (length (file_index self)).

(** ** The page load *)

(** [QSpinBox.setMaximum]: a minimum above the new maximum is lowered to
    it, and the value is brought into the new range. *)
Definition setMaximum (m : Z) (box : QSpinBox) : QSpinBox :=
  let lo := Z.min (minimum box) m in
  SpinBox lo m (Z.max lo (Z.min m (value box))).

(** [numpy.ceil(float(total) / count)] for a [count] that is not zero. *)
Definition batch_count (total count : Z) : Z := - ((- total) / count).

Definition with_spin_boxes (self : viewer) (page size : QSpinBox) : viewer :=
  Viewer (files self) (file_index self) (average self) page size.

(** What a call of the page-load handler leaves: how it ended, the window,
    and the subset with its start offset that it handed to the rendering
    loop ([None] when it returned at once). *)
Record page_load : Type := PageLoad {
  outcome : result unit;
  window : viewer;
  loaded : option (subset * Z)
}.

Section PageLoad.

(** The rendering of a subset that is not empty: the image readers and Qt
    load, filter and list each image, and any of them may raise. *)
Variable render_items : list string -> subset -> result unit.

(** The module-level generator [iter_images], run by the loop of the
    handler: whatever the first file is, [index[0]] is read before any
    image, and an empty subset raises there. *)
Definition iter_images (files : list string) (index : subset) : result unit :=
  match files with
  | [] => Raise IndexError
  | _ :: _ =>
      if (subset_len index =? 0)%nat then Raise IndexError
      else render_items files index
  end.

(** [on_loadImagesPushButton_clicked].  The suffix of the page spin box and
    the two navigation actions, set at the end, are not part of the
    state. *)
Definition on_loadImagesPushButton_clicked (self : viewer) : page_load :=
  if (length (files self) =? 0)%nat then PageLoad (Ok tt) self None
  else
    let '(index, start) :=
      imageSubset self (value (pageSpinBox self) - 1) (value (imageCountSpinBox self)) in
    let '(self, index, start) :=
      if (subset_len index =? 0)%nat then
        let self := with_spin_boxes self (setValue 0 (pageSpinBox self))
                                    (imageCountSpinBox self) in
        let self := with_spin_boxes self (pageSpinBox self)
                                    (setValue 1 (imageCountSpinBox self)) in
        (self, (imageSubset self 0 1).1, (imageSubset self 0 1).2)
      else (self, index, start) in
    match iter_images (files self) index with
    | Raise e => PageLoad (Raise e) self (Some (index, start))
    | Ok _ =>
        let count := value (imageCountSpinBox self) in
        if count =? 0 then PageLoad (Raise ZeroDivisionError) self (Some (index, start))
        else
          let batch := batch_count (imageTotal self) count in
          PageLoad (Ok tt)
            (with_spin_boxes self (setMaximum batch (pageSpinBox self))
                             (imageCountSpinBox self))
            (Some (index, start))
    end.

End PageLoad.

(** ** Slices *)


Lemma slice_lookup {A : Type} (l : list A) (a b : Z) (i : nat) (x : A) :
  slice l a b !! i = Some x ->
  l !! (Z.to_nat (norm_index (Z.of_nat (length l)) a) + i)%nat = Some x.
Proof.
  unfold slice. intros Hx. apply lookup_take_Some in Hx as [Hx _].
  rewrite lookup_drop in Hx. exact Hx.
Qed.

Lemma elem_of_slice {A : Type} (l : list A) (a b : Z) (x : A) :
  x ∈ slice l a b -> x ∈ l.
Proof.
  intros Hx. apply list_elem_of_lookup_1 in Hx as [i Hi].
  apply slice_lookup in Hi. eapply list_elem_of_lookup_2. exact Hi.
Qed.


Lemma slice_first {A : Type} (l : list A) : slice l 0 1 = take 1 l.
Proof.
  unfold slice, norm_index. cbn [Z.ltb Z.compare].
  replace (Z.min 0 (Z.of_nat (length l))) with 0 by lia.
  rewrite Z.sub_0_r. cbn [Z.to_nat drop].
  destruct l as [|x l]; [reflexivity|].
  replace (Z.to_nat (Z.min 1 (Z.of_nat (length (x :: l))))) with 1%nat
    by (cbn [length]; lia).
  reflexivity.
Qed.

(** ** Page bounds *)





(** The first page of size one. *)
Definition first_item (self : viewer) : subset :=
  if average self then FileNames (take 1 (files self))
  else IndexRows (take 1 (file_index self)).

Lemma imageSubset_first (self : viewer) (page size : QSpinBox) :
  imageSubset (with_spin_boxes self page size) 0 1 = (first_item self, 0).
Proof.
  unfold imageSubset, first_item, with_spin_boxes. cbn [average files file_index].
  destruct (average self); rewrite slice_first; reflexivity.
Qed.

Lemma first_item_empty (self : viewer) :
  subset_len (first_item self) = 0%nat <-> imageTotal self = 0.
Proof.
  unfold first_item, imageTotal.
  destruct (average self); cbn [subset_len];
    match goal with |- context [take 1 ?l] => destruct l end; cbn; lia.
Qed.


Section PageBounds.

Variable render_items : list string -> subset -> result unit.

(** What the handler leaves once it has taken the reset path. *)
Lemma page_load_reset (self : viewer) :
  files self <> [] ->
  subset_len (imageSubset self (value (pageSpinBox self) - 1)
                (value (imageCountSpinBox self))).1 = 0%nat ->
  let reset := with_spin_boxes self (setValue 0 (pageSpinBox self))
                 (setValue 1 (imageCountSpinBox self)) in
  let after := on_loadImagesPushButton_clicked render_items self in
  loaded after = Some (first_item self, 0) /\
  imageCountSpinBox (window after) = setValue 1 (imageCountSpinBox self) /\
  (outcome after <> Ok tt -> window after = reset) /\
  (outcome after = Ok tt ->
     1 <= imageTotal self /\
     value (setValue 1 (imageCountSpinBox self)) <> 0 /\
     window after
     = with_spin_boxes reset
         (setMaximum (batch_count (imageTotal self)
                        (value (setValue 1 (imageCountSpinBox self))))
            (setValue 0 (pageSpinBox self)))
         (setValue 1 (imageCountSpinBox self))) /\
  (imageTotal self = 0 -> outcome after = Raise IndexError).
Proof.
  intros Hfiles Hempty reset after. subst after.
  unfold on_loadImagesPushButton_clicked.
  destruct (Nat.eqb_spec (length (files self)) 0) as [Hnil | _].
  { destruct (files self); [contradiction | discriminate]. }
  destruct (imageSubset self _ _) as [index start]. cbn [fst] in Hempty.
  rewrite Hempty. cbn [Nat.eqb].
  change (with_spin_boxes
            (with_spin_boxes self (setValue 0 (pageSpinBox self)) (imageCountSpinBox self))
            (pageSpinBox
               (with_spin_boxes self (setValue 0 (pageSpinBox self))
                  (imageCountSpinBox self)))
            (setValue 1
               (imageCountSpinBox
                  (with_spin_boxes self (setValue 0 (pageSpinBox self))
                     (imageCountSpinBox self)))))
    with reset.
  assert (Hfirst : imageSubset reset 0 1 = (first_item self, 0))
    by apply imageSubset_first.
  rewrite Hfirst. cbn [fst snd].
  change (files reset) with (files self).
  change (imageTotal reset) with (imageTotal self).
  change (imageCountSpinBox reset) with (setValue 1 (imageCountSpinBox self)).
  change (pageSpinBox reset) with (setValue 0 (pageSpinBox self)).
  unfold iter_images. destruct (files self) as [|f fs]; [contradiction|].
  pose proof (first_item_empty self) as Hnone.
  destruct (Nat.eqb_spec (subset_len (first_item self)) 0) as [Hzero | Hsome].
  - cbn [outcome window loaded]. repeat split; try reflexivity; discriminate.
  - assert (Htotal : 1 <= imageTotal self).
    { assert (0 <= imageTotal self)
        by (unfold imageTotal; destruct (average self); lia).
      destruct (Z.eq_dec (imageTotal self) 0) as [Hz | Hnz]; [|lia].
      apply Hnone in Hz. contradiction. }
    destruct (render_items (f :: fs) (first_item self)) as [[]|e].
    + destruct (Z.eqb_spec (value (setValue 1 (imageCountSpinBox self))) 0) as [Hc | Hc];
        cbn [outcome window loaded].
      * repeat split; try reflexivity; try discriminate; lia.
      * repeat split; try reflexivity; try assumption; try lia.
        intros Hbad. contradiction.
    + cbn [outcome window loaded]. repeat split; try reflexivity; try discriminate; lia.
Qed.


End PageBounds.

(** A window with one micrograph of three images open, asked for page 7
    with ten images a page; its spin boxes have the ranges 1 .. 99. *)
Definition three_images : viewer :=
  Viewer ["mic_0001.spi"%string] [(0, 0, 0); (0, 1, 0); (0, 2, 0)] false
         (SpinBox 1 99 7) (SpinBox 1 99 10).

(** A rendering that always succeeds. *)
Definition render_ok (files : list string) (index : subset) : result unit := Ok tt.

(** Page 1 with two images a page shows the first two images. *)
Example first_page_of_two :
  imageSubset three_images (1 - 1) 2 = (IndexRows [(0, 0, 0); (0, 1, 0)], 0).
Proof. reflexivity. Qed.

(** The reset on that window: page 1 of 3, one image a page, the first
    image loaded. *)
Example reset_run :
  on_loadImagesPushButton_clicked render_ok three_images
  = PageLoad (Ok tt)
      (Viewer ["mic_0001.spi"%string] [(0, 0, 0); (0, 1, 0); (0, 2, 0)] false
              (SpinBox 1 3 1) (SpinBox 1 99 1))
      (Some (IndexRows [(0, 0, 0)], 0)).
Proof. reflexivity. Qed.

(** What the page spin box shows after the reset is what its range makes of
    [setValue(0)]: on a spin box left with Qt's own range, 0 .. 99, it is
    page 0. *)
Example reset_with_default_range :
  let self := Viewer ["mic_0001.spi"%string] [(0, 0, 0); (0, 1, 0); (0, 2, 0)] false
                (default_spin_box 7) (default_spin_box 10) in
  let after := on_loadImagesPushButton_clicked render_ok self in
  value (pageSpinBox (window after)) = 0 /\
  value (imageCountSpinBox (window after)) = 1 /\
  loaded after = Some (IndexRows [(0, 0, 0)], 0).
Proof. repeat split. Qed.



(** ** More on paging *)

Section Paging.



Variable render_items : list string -> subset -> result unit.



Lemma slice_pages_concat {A : Type} (l : list A) (c : Z) (k : nat) :
  1 <= c ->
  concat ((fun p => slice l (Z.of_nat p * c) ((Z.of_nat p + 1) * c)) <$> seq 0 k)
  = take (k * Z.to_nat c) l.
Proof.
  intros Hc. induction k as [|k IH]; [reflexivity|].
  rewrite seq_S, fmap_app, concat_app, IH. cbn [fmap list_fmap concat Nat.add].
  rewrite app_nil_r.
  assert (Ha : 0 <= Z.of_nat k * c) by nia.
  rewrite PySlices.slice_nonneg by lia.
  replace (Z.to_nat ((Z.of_nat k + 1) * c) - Z.to_nat (Z.of_nat k * c))%nat
    with (Z.to_nat c) by lia.
  replace (Z.to_nat (Z.of_nat k * c)) with (k * Z.to_nat c)%nat by lia.
  rewrite take_take_drop. f_equal. lia.
Qed.

(** The items of a subset, whichever kind it is. *)
Definition file_names (s : subset) : list string :=
  match s with FileNames l => l | IndexRows _ => [] end.

Definition index_rows (s : subset) : list index_row :=
  match s with IndexRows l => l | FileNames _ => [] end.

(** X28: for a page size [count >= 1] the pages 0, 1, ..., k - 1 that
    [imageSubset] returns, put one after the other, are the first
    [k * count] items of the list that is paged (the file names in
    "average" mode, the index rows otherwise): no item is skipped, none is
    shown on two pages, and as soon as [k * count] reaches the total the
    pages make up the whole list. *)
Theorem pages_cover_items (self : viewer) (count : Z) (k : nat) :
  1 <= count ->
  let page (p : nat) := (imageSubset self (Z.of_nat p) count).1 in
  (average self = true ->
     concat (file_names ∘ page <$> seq 0 k) = take (k * Z.to_nat count) (files self)) /\
  (average self = false ->
     concat (index_rows ∘ page <$> seq 0 k)
     = take (k * Z.to_nat count) (file_index self)) /\
  (imageTotal self <= Z.of_nat k * count ->
     (average self = true -> concat (file_names ∘ page <$> seq 0 k) = files self) /\
     (average self = false -> concat (index_rows ∘ page <$> seq 0 k) = file_index self)).
Proof.
  intros Hcount page.
  assert (Havg : average self = true ->
            concat (file_names ∘ page <$> seq 0 k) = take (k * Z.to_nat count) (files self)).
  { intros Hmode. subst page. unfold imageSubset, compose. rewrite Hmode. cbn [fst file_names].
    apply slice_pages_concat. exact Hcount. }
  assert (Hidx : average self = false ->
            concat (index_rows ∘ page <$> seq 0 k)
            = take (k * Z.to_nat count) (file_index self)).
  { intros Hmode. subst page. unfold imageSubset, compose. rewrite Hmode. cbn [fst index_rows].
    apply slice_pages_concat. exact Hcount. }
  split; [exact Havg|]. split; [exact Hidx|].
  intros Htotal. unfold imageTotal in Htotal. split; intros Hmode; rewrite Hmode in Htotal.
  - rewrite Havg by exact Hmode. apply take_ge. nia.
  - rewrite Hidx by exact Hmode. apply take_ge. nia.
Qed.

End Paging.


Lemma pages_cover_items_witness :
  let page (p : nat) := (imageSubset three_images (Z.of_nat p) 2).1 in
  (average three_images = true ->
     concat (file_names ∘ page <$> seq 0 2) = take (2 * Z.to_nat 2) (files three_images)) /\
  (average three_images = false ->
     concat (index_rows ∘ page <$> seq 0 2)
     = take (2 * Z.to_nat 2) (file_index three_images)) /\
  (imageTotal three_images <= Z.of_nat 2 * 2 ->
     (average three_images = true ->
        concat (file_names ∘ page <$> seq 0 2) = files three_images) /\
     (average three_images = false ->
        concat (index_rows ∘ page <$> seq 0 2) = file_index three_images)).
Proof.
  apply (pages_cover_items three_images 2 2). lia.
Defined.

(** ** Opening files *)

Section Opening.

(** [os.path.abspath], and [ndimage_file.is_readable] and
    [ndimage_file.count_images], which dispatch on the format of the
    file. *)
Variable abspath : string -> string.
Variable is_readable : string -> bool.
Variable count_images : string -> result Z.

(** The rendering of the page load that ends the call. *)
Variable render_items : list string -> subset -> result unit.

(** [sorted] on strings. *)
Definition str_le (a b : string) : Prop := String.leb a b = true.

#[local] Instance str_le_dec : RelDecision str_le.
Proof. intros a b. unfold str_le. apply _. Defined.

Definition sorted (l : list string) : list string := merge_sort str_le l.

(** The loop of [updateFileIndex]: the rows [index, i, 0] of each new file
    are appended, the files being numbered from [index] on.  The index is
    extended in place: what was appended stays when [count_images]
    raises. *)
Fixpoint extend_index (file_index : list index_row) (index : Z)
    (newfiles : list string) : result unit * list index_row :=
  match newfiles with
  | [] => (Ok tt, file_index)
  | filename :: rest =>
      match count_images filename with
      | Ok count =>
          extend_index (file_index ++ ((fun i => (index, i, 0)) <$> seqZ 0 count))
            (index + 1) rest
      | Raise e => (Raise e, file_index)
      end
  end.

Definition updateFileIndex (self : viewer) (newfiles : list string)
    : result unit * viewer :=
  let '(r, file_index) :=
    extend_index (file_index self) (Z.of_nat (length (files self))) newfiles in
  (r, Viewer (files self) file_index (average self)
             (pageSpinBox self) (imageCountSpinBox self)).

(** [openImageFiles]: how the call ends, with the details of the error
    message when the files are refused, and the window afterwards.
    ([notify_added_files] does nothing in this class, and the window title
    is not part of the state.)  The call ends with a page load, whose
    exception, if any, goes to the caller once the lists are updated. *)
Definition openImageFiles (self : viewer) (fs : list string)
    : result (option (list string)) * viewer :=
  let fileset := files self in
  let fs := abspath <$> fs in
  let newfiles := sorted (filter (fun f => f ∉ fileset) fs) in
  let imgfiles := filter (fun f => is_readable f = false) newfiles in
  if (0 <? length imgfiles)%nat then (Ok (Some imgfiles), self)
  else
    match updateFileIndex self newfiles with
    | (Raise e, self) => (Raise e, self)
    | (Ok _, self) =>
        let self := Viewer (files self ++ newfiles) (file_index self) (average self)
                           (pageSpinBox self) (imageCountSpinBox self) in
        let after := on_loadImagesPushButton_clicked render_items self in
        (match outcome after with
         | Ok _ => Ok None
         | Raise e => Raise e
         end, window after)
    end.

(** A row of the index is valid in a list of open files: it names a file
    of the list and an image that this file holds. *)
Definition valid_row (open : list string) (row : index_row) : Prop :=
  row.2 = 0 /\ 0 <= row.1.1 /\
  exists name n,
    open !! Z.to_nat row.1.1 = Some name /\ count_images name = Ok n /\
    0 <= row.1.2 < n.

Lemma valid_row_more (open more : list string) (row : index_row) :
  valid_row open row -> valid_row (open ++ more) row.
Proof.
  intros (Hz & Hpos & name & n & Hname & Hcount & Hi).
  split; [exact Hz|]. split; [exact Hpos|]. exists name, n.
  split; [apply lookup_app_l_Some; exact Hname | split; assumption].
Qed.

Lemma extend_index_valid (newfiles : list string) :
  forall (file_index : list index_row) (opened : list string),
  Forall (valid_row (opened ++ newfiles)) file_index ->
  Forall (fun f => exists n, count_images f = Ok n) newfiles ->
  exists file_index',
    extend_index file_index (Z.of_nat (length opened)) newfiles = (Ok tt, file_index') /\
    Forall (valid_row (opened ++ newfiles)) file_index' /\
    file_index `prefix_of` file_index'.
Proof.
  induction newfiles as [|filename rest IH]; intros file_index opened Hvalid Hcount.
  - exists file_index. split; [reflexivity|]. split; [exact Hvalid | reflexivity].
  - apply Forall_cons in Hcount as [[n Hn] Hcount]. cbn [extend_index]. rewrite Hn.
    replace (Z.of_nat (length opened) + 1) with (Z.of_nat (length (opened ++ [filename])))
      by (rewrite length_app; cbn [length]; lia).
    replace (opened ++ filename :: rest) with ((opened ++ [filename]) ++ rest) in *
      by (rewrite <- app_assoc; reflexivity).
    destruct (IH (file_index ++ ((fun i => (Z.of_nat (length opened), i, 0)) <$> seqZ 0 n))
                (opened ++ [filename])) as (fi' & Hrun & Hvalid' & Hprefix).
    + apply Forall_app. split; [exact Hvalid|].
      apply Forall_forall. intros row Hrow.
      apply list_elem_of_fmap in Hrow as (i & -> & Hi). apply elem_of_seqZ in Hi.
      split; [reflexivity|]. split; [cbn; lia|]. exists filename, n. cbn [fst snd].
      split; [|split; [exact Hn | lia]].
      rewrite Nat2Z.id. apply lookup_app_l_Some.
      rewrite lookup_app_r by lia. replace (length opened - length opened)%nat with 0%nat by lia.
      reflexivity.
    + exact Hcount.
    + exists fi'. split; [exact Hrun|]. split; [exact Hvalid'|].
      etransitivity; [|exact Hprefix]. apply prefix_app_r. reflexivity.
Qed.

Lemma page_load_keeps_lists (self : viewer) :
  let after := on_loadImagesPushButton_clicked render_items self in
  files (window after) = files self /\
  file_index (window after) = file_index self /\
  average (window after) = average self.
Proof.
  cbv zeta. unfold on_loadImagesPushButton_clicked.
  destruct (length (files self) =? 0)%nat; [repeat split|].
  destruct (imageSubset self _ _) as [index start].
  destruct (subset_len index =? 0)%nat;
    match goal with
    | |- context [iter_images render_items ?f ?i] =>
        destruct (iter_images render_items f i) as [[]|e]
    end;
    try match goal with
    | |- context [(?x =? 0)%Z] => destruct (x =? 0)%Z
    end; repeat split.
Qed.

(** On a window that shows single images and has a file open but no image
    in its index, the page load finds nothing to show and raises. *)
Lemma page_load_nothing_to_show (self : viewer) :
  files self <> [] -> average self = false -> file_index self = [] ->
  outcome (on_loadImagesPushButton_clicked render_items self) = Raise IndexError.
Proof.
  intros Hfiles Hmode Hindex.
  assert (Hempty : subset_len (imageSubset self (value (pageSpinBox self) - 1)
                                 (value (imageCountSpinBox self))).1 = 0%nat).
  { unfold imageSubset. rewrite Hmode, Hindex. cbn [fst subset_len].
    unfold slice. rewrite drop_nil, take_nil. reflexivity. }
  destruct (page_load_reset render_items self Hfiles Hempty) as (_ & _ & _ & _ & Hnone).
  apply Hnone. unfold imageTotal. rewrite Hmode, Hindex. reflexivity.
Qed.

(** The files that a call would add. *)
Definition new_files (self : viewer) (fs : list string) : list string :=
  filter (fun f => f ∉ files self) (abspath <$> fs).

(** X29: when the index is valid and every file of the call that is not
    open yet is readable and can be counted, [openImageFiles] accepts the
    files, and the index is valid again: each row, old or new, names an
    open file and an image that this file holds.  The files and rows that
    were there stay in front, in their places; the files of the call that
    were not open are added, and only those.  This is the state the call
    leaves however the page load at its end turns out: the call shows no
    error message, but it passes on the exception of the page load, which
    is [IndexError] when single images are shown and the index is empty
    although a file is open. *)
Theorem openImageFiles_keeps_index_valid (self : viewer) (fs : list string) :
  Forall (valid_row (files self)) (file_index self) ->
  Forall (fun f => is_readable f = true /\ exists n, count_images f = Ok n)
         (new_files self fs) ->
  exists r self',
    openImageFiles self fs = (r, self') /\
    (r = Ok None \/ exists e, r = Raise e) /\
    Forall (valid_row (files self')) (file_index self') /\
    files self `prefix_of` files self' /\
    file_index self `prefix_of` file_index self' /\
    (forall f, f ∈ files self' <-> f ∈ files self \/ f ∈ abspath <$> fs) /\
    (average self = false -> files self' <> [] -> file_index self' = [] ->
     r = Raise IndexError).
Proof.
  intros Hvalid Hnew. unfold openImageFiles. fold (new_files self fs).
  set (newfiles := sorted (new_files self fs)).
  assert (Hperm : newfiles ≡ₚ new_files self fs) by apply merge_sort_Permutation.
  assert (Hnew' : Forall (fun f => is_readable f = true /\ exists n, count_images f = Ok n)
                    newfiles) by (rewrite Hperm; exact Hnew).
  assert (Hnone : filter (fun f => is_readable f = false) newfiles = []).
  { destruct (filter _ newfiles) as [|x rest] eqn:Hf; [reflexivity|].
    assert (Hx : x ∈ filter (fun f => is_readable f = false) newfiles)
      by (rewrite Hf; left).
    apply list_elem_of_filter in Hx as [Hbad Hx].
    rewrite Forall_forall in Hnew'. destruct (Hnew' x Hx) as [Hgood _]. congruence. }
  rewrite Hnone. cbn [length Nat.ltb Nat.leb].
  destruct (extend_index_valid newfiles (file_index self) (files self))
    as (fi' & Hrun & Hvalid' & Hprefix).
  { eapply Forall_impl; [exact Hvalid|]. intros row. apply valid_row_more. }
  { eapply Forall_impl; [exact Hnew'|]. intros f [_ Hn]. exact Hn. }
  unfold updateFileIndex. rewrite Hrun.
  cbn [files file_index average pageSpinBox imageCountSpinBox].
  set (opened := Viewer (files self ++ newfiles) fi' (average self)
                        (pageSpinBox self) (imageCountSpinBox self)).
  destruct (page_load_keeps_lists opened) as (Hf & Hi & Hmode).
  eexists _, _. split; [reflexivity|].
  rewrite Hf, Hi. cbn [opened files file_index].
  split.
  { destruct (outcome (on_loadImagesPushButton_clicked render_items opened)) as [[]|e];
      [left; reflexivity | right; exists e; reflexivity]. }
  split; [exact Hvalid'|]. split; [apply prefix_app_r; reflexivity|].
  split; [exact Hprefix|]. split.
  - intros f. rewrite elem_of_app, Hperm. unfold new_files.
    rewrite list_elem_of_filter.
    destruct (decide (f ∈ files self)) as [Hin | Hout]; tauto.
  - intros Hsingle Hopen Hnoimage.
    rewrite (page_load_nothing_to_show opened); [reflexivity | exact Hopen | exact Hsingle
                                                 | exact Hnoimage].
Qed.

(** X30: one file of the call that is not open yet and is not readable is
    enough for [openImageFiles] to refuse the whole call: the window is
    left exactly as it was -- the readable files of the call are not opened
    either -- and the details of the error message are the unreadable new
    files. *)
Theorem openImageFiles_refuses_all (self : viewer) (fs : list string) (bad : string) :
  bad ∈ new_files self fs -> is_readable bad = false ->
  exists details,
    openImageFiles self fs = (Ok (Some details), self) /\
    (forall f, f ∈ details <-> f ∈ new_files self fs /\ is_readable f = false).
Proof.
  intros Hbad Hunreadable. unfold openImageFiles. fold (new_files self fs).
  set (newfiles := sorted (new_files self fs)).
  assert (Hperm : newfiles ≡ₚ new_files self fs) by apply merge_sort_Permutation.
  set (imgfiles := filter (fun f => is_readable f = false) newfiles).
  assert (Hin : bad ∈ imgfiles).
  { subst imgfiles. apply list_elem_of_filter. split; [exact Hunreadable|].
    rewrite Hperm. exact Hbad. }
  assert (Hpos : (0 <? length imgfiles)%nat = true).
  { apply Nat.ltb_lt. destruct imgfiles; [inversion Hin | cbn; lia]. }
  rewrite Hpos. exists imgfiles. split; [reflexivity|].
  intros f. subst imgfiles. rewrite list_elem_of_filter, Hperm. tauto.
Qed.

End Opening.

(** A window with one micrograph open, and a directory where
    "mic_0002.spi" holds two images and "notes.txt" is no image. *)
Definition bench_readable (f : string) : bool :=
  if String.eqb f "notes.txt" then false else true.

Definition bench_count (f : string) : result Z :=
  if String.eqb f "mic_0001.spi" then Ok 3
  else if String.eqb f "mic_0002.spi" then Ok 2
  else Raise IOError.

Example openImageFiles_run :
  let out := openImageFiles (fun f => f) bench_readable bench_count render_ok three_images
               ["mic_0002.spi"; "mic_0001.spi"]%string in
  out.1 = Ok None /\
  files out.2 = ["mic_0001.spi"; "mic_0002.spi"]%string /\
  file_index out.2 = [(0, 0, 0); (0, 1, 0); (0, 2, 0); (1, 0, 0); (1, 1, 0)].
Proof. repeat split; vm_compute; reflexivity. Qed.

(** A first file that holds no image: it is opened, and the page load then
    finds nothing to show. *)
Example openImageFiles_no_image :
  openImageFiles (fun f => f) bench_readable (fun _ => Ok 0) render_ok
    (Viewer [] [] false (SpinBox 1 99 1) (SpinBox 1 99 10)) ["empty.spi"%string]
  = (Raise IndexError,
     Viewer ["empty.spi"%string] [] false (SpinBox 1 99 1) (SpinBox 1 99 1)).
Proof. vm_compute. reflexivity. Qed.

Lemma openImageFiles_keeps_index_valid_witness :
  exists r self',
    openImageFiles (fun f => f) bench_readable bench_count render_ok three_images
      ["mic_0002.spi"; "mic_0001.spi"]%string = (r, self') /\
    (r = Ok None \/ exists e, r = Raise e) /\
    Forall (valid_row bench_count (files self')) (file_index self') /\
    files three_images `prefix_of` files self' /\
    file_index three_images `prefix_of` file_index self' /\
    (forall f, f ∈ files self' <->
               f ∈ files three_images \/
               f ∈ (fun f => f) <$> ["mic_0002.spi"; "mic_0001.spi"]%string) /\
    (average three_images = false -> files self' <> [] -> file_index self' = [] ->
     r = Raise IndexError).
Proof.
  apply (openImageFiles_keeps_index_valid (fun f => f) bench_readable bench_count render_ok
           three_images ["mic_0002.spi"; "mic_0001.spi"]%string).
  - repeat constructor; cbn; try lia;
      (exists "mic_0001.spi"%string, 3; repeat split; cbn; lia).
  - vm_compute. repeat constructor. exists 2. reflexivity.
Defined.

Lemma openImageFiles_refuses_all_witness :
  exists details,
    openImageFiles (fun f => f) bench_readable bench_count render_ok three_images
      ["mic_0002.spi"; "notes.txt"]%string = (Ok (Some details), three_images) /\
    (forall f, f ∈ details <->
               f ∈ new_files (fun f => f) three_images ["mic_0002.spi"; "notes.txt"]%string /\
               bench_readable f = false).
Proof.
  apply (openImageFiles_refuses_all (fun f => f) bench_readable bench_count render_ok
           three_images ["mic_0002.spi"; "notes.txt"]%string "notes.txt"%string).
  - vm_compute. right. left.
  - reflexivity.
Defined.

End ImageViewer.
